(** * Student Finance Tracker: record store, validators and search

    A shallow embedding of [scripts/validators.js], [scripts/search.js],
    [scripts/storage.js], [scripts/state.js] and the handlers of
    [scripts/ui.js], with the parts of ECMAScript they rely on (regular
    expression matching, [String.prototype.trim], [parseFloat], property
    access, the coercions [ToBoolean], [ToString], [ToNumber], [Date]).

    Text is modelled by Rocq strings: a character is a code unit below 256
    (ASCII and Latin-1).  Code units above 255 are outside the model. *)

From Stdlib Require Import ZArith NArith List Ascii String Bool Lia.
From Stdlib Require Import Floats.SpecFloat.
From stdpp Require Import base option list strings gmap.
Import ListNotations.

Local Open Scope string_scope.
Local Open Scope list_scope.

(** ** Characters *)

Module Chars.

Definition code (c : ascii) : N := N_of_ascii c.

Definition in_range (lo hi : N) (c : ascii) : bool :=
  (lo <=? code c)%N && (code c <=? hi)%N.

(** LineTerminator: LF and CR (U+2028 and U+2029 are above 255). *)
Definition isLineTerminator (c : ascii) : bool :=
  (code c =? 10)%N || (code c =? 13)%N.

(** WhiteSpace and LineTerminator, as used by [\s] and by [trim]:
    TAB, LF, VT, FF, CR, SP and NBSP. *)
Definition isWhiteSpace (c : ascii) : bool :=
  in_range 9 13 c || (code c =? 32)%N || (code c =? 160)%N.

Definition isDigit (c : ascii) : bool := in_range 48 57 c.

(** The basic word characters [A-Za-z0-9_]. *)
Definition isWordChar (c : ascii) : bool :=
  in_range 97 122 c || in_range 65 90 c || isDigit c || (code c =? 95)%N.

(** Lower-case letters whose upper-case form is again a single code unit
    below 256: a-z and U+00E0..U+00FE without the division sign. *)
Definition isLowerFoldable (c : ascii) : bool :=
  in_range 97 122 c || (in_range 224 254 c && negb (code c =? 247)%N).

Definition isUpperFoldable (c : ascii) : bool :=
  in_range 65 90 c || (in_range 192 222 c && negb (code c =? 215)%N).

(** Canonicalize for the [i] flag without [u]: the upper-case form when it
    is one code unit.  U+00B5 and U+00FF have upper-case forms above 255
    that no other character below 256 shares, and U+00DF upper-cases to two
    code units; the three stay as they are. *)
Definition canonicalize (ignoreCase : bool) (c : ascii) : ascii :=
  if ignoreCase && isLowerFoldable c then ascii_of_N (code c - 32) else c.

(** The other member of the case pair of [c], or [c] itself. *)
Definition case_partner (c : ascii) : ascii :=
  if isLowerFoldable c then ascii_of_N (code c - 32)
  else if isUpperFoldable c then ascii_of_N (code c + 32)
  else c.

End Chars.

(** ** Strings *)

Module Str.

Definition chars (s : string) : list ascii := list_ascii_of_string s.
Definition of_chars (l : list ascii) : string := string_of_list_ascii l.

Fixpoint trimStart (l : list ascii) : list ascii :=
  match l with
  | c :: l' => if Chars.isWhiteSpace c then trimStart l' else l
  | [] => []
  end.

Definition trimEnd (l : list ascii) : list ascii := rev (trimStart (rev l)).

(** [String.prototype.trim] *)
Definition trim (s : string) : string := of_chars (trimEnd (trimStart (chars s))).

Definition isEmpty (s : string) : bool :=
  match s with EmptyString => true | _ => false end.

End Str.

(** ** Regular expressions

    The abstract syntax of the patterns and the backtracking matcher of
    ECMA-262 (22.2.2), in continuation-passing style as in the standard. *)

Module Regex.

Import Chars.

Inductive class_escape :=
| CDigit | CNotDigit | CWord | CNotWord | CSpace | CNotSpace.

Inductive class_atom :=
| CChar (c : ascii)
| CRange (lo hi : ascii)
| CEsc (e : class_escape).

Inductive regex :=
| Empty
| Char (c : ascii)
| Dot
| Esc (e : class_escape)
| Class (invert : bool) (atoms : list class_atom)
| Seq (r1 r2 : regex)
| Alt (r1 r2 : regex)
| Repeat (min : nat) (max : option nat) (greedy : bool) (r : regex)
| Group (n : nat) (r : regex)
| Backref (n : nat)
| Lookahead (negative : bool) (r : regex)
| AssertStart
| AssertEnd
| WordBoundary (negative : bool).

Definition Star (r : regex) : regex := Repeat 0 None true r.
Definition Plus (r : regex) : regex := Repeat 1 None true r.
Definition Opt (r : regex) : regex := Repeat 0 (Some 1) true r.

Definition escape_mem (e : class_escape) (c : ascii) : bool :=
  match e with
  | CDigit => isDigit c
  | CNotDigit => negb (isDigit c)
  | CWord => isWordChar c
  | CNotWord => negb (isWordChar c)
  | CSpace => isWhiteSpace c
  | CNotSpace => negb (isWhiteSpace c)
  end.

Definition atom_mem (a : class_atom) (c : ascii) : bool :=
  match a with
  | CChar c' => (code c =? code c')%N
  | CRange lo hi => in_range (code lo) (code hi) c
  | CEsc e => escape_mem e c
  end.

Definition set_mem (atoms : list class_atom) (c : ascii) : bool :=
  existsb (fun a => atom_mem a c) atoms.

(** The flags the matcher itself looks at. *)
Record mflags := { ignoreCase : bool; multiline : bool; dotAll : bool }.

(** A match state: the text before the current position (nearest character
    first), the text from the current position on, and the captures. *)
Record mstate := MState {
  before : list ascii;
  after : list ascii;
  captures : list (nat * list ascii)
}.

Definition endIndex (x : mstate) : nat := length (before x).

Fixpoint lookup_capture (n : nat) (caps : list (nat * list ascii)) : option (list ascii) :=
  match caps with
  | (k, s) :: caps' => if (k =? n)%nat then Some s else lookup_capture n caps'
  | [] => None
  end.

Definition clear_captures (ns : list nat) (x : mstate) : mstate :=
  MState (before x) (after x)
    (List.filter (fun p => negb (existsb (Nat.eqb (fst p)) ns)) (captures x)).

Definition set_capture (n : nat) (s : list ascii) (x : mstate) : mstate :=
  MState (before x) (after x)
    ((n, s) :: List.filter (fun p => negb (fst p =? n)%nat) (captures x)).

(** The capturing groups inside a pattern. *)
Fixpoint groups (r : regex) : list nat :=
  match r with
  | Seq r1 r2 | Alt r1 r2 => groups r1 ++ groups r2
  | Repeat _ _ _ r' | Lookahead _ r' => groups r'
  | Group n r' => n :: groups r'
  | _ => []
  end.

Section Matcher.

Variable fl : mflags.

(** CharacterSetMatcher: a character [ch] is found in the set [A] when
    some member of [A] canonicalizes as [ch] does; under [i] the members
    with that property are [ch] and its case partner. *)
Definition found_in (A : ascii -> bool) (ch : ascii) : bool :=
  A ch || (ignoreCase fl && A (case_partner ch)).

Definition charSetMatcher (A : ascii -> bool) (invert : bool)
    (x : mstate) (c : mstate -> option mstate) : option mstate :=
  match after x with
  | [] => None
  | ch :: rest =>
      if eqb invert (found_in A ch) then None
      else c (MState (ch :: before x) rest (captures x))
  end.

(** BackreferenceMatcher: the captured text must occur here, compared
    through [canonicalize]. *)
Fixpoint match_captured (s : list ascii) (x : mstate) : option mstate :=
  match s with
  | [] => Some x
  | a :: s' =>
      match after x with
      | [] => None
      | ch :: rest =>
          if (code (canonicalize (ignoreCase fl) a) =?
              code (canonicalize (ignoreCase fl) ch))%N
          then match_captured s' (MState (ch :: before x) rest (captures x))
          else None
      end
  end.

Definition isWordCharAt (o : option ascii) : bool :=
  match o with Some ch => isWordChar ch | None => false end.

Definition orElse (a : option mstate) (b : unit -> option mstate) : option mstate :=
  match a with Some z => Some z | None => b tt end.

(** RepeatMatcher for a sub-pattern with matcher [m] and capturing groups
    [gs].  The count [fuel] bounds the number of iterations: every
    iteration past the minimum has to consume a character (step 2.b), so
    [min] plus the length of the rest of the text plus one is never used
    up. *)
Fixpoint repeatMatcher (m : mstate -> (mstate -> option mstate) -> option mstate)
    (gs : list nat) (greedy : bool) (c : mstate -> option mstate)
    (fuel min : nat) (max : option nat) (x : mstate) {struct fuel} : option mstate :=
  match max with
  | Some 0 => c x
  | _ =>
      match fuel with
      | 0 => None
      | S fuel' =>
          let d := fun y =>
            if (min =? 0)%nat && (endIndex y =? endIndex x)%nat then None
            else repeatMatcher m gs greedy c fuel' (Nat.pred min)
                               (option_map Nat.pred max) y in
          let xr := clear_captures gs x in
          if negb (min =? 0)%nat then m xr d
          else if greedy then orElse (m xr d) (fun _ => c x)
          else orElse (c x) (fun _ => m xr d)
      end
  end.

(** [matcher r x c]: match [r] at state [x], then continue with [c]. *)
Fixpoint matcher (r : regex) (x : mstate) (c : mstate -> option mstate)
    {struct r} : option mstate :=
  match r with
  | Empty => c x
  | Char ch => charSetMatcher (fun a => (code a =? code ch)%N) false x c
  | Dot =>
      charSetMatcher (fun a => dotAll fl || negb (isLineTerminator a)) false x c
  | Esc e => charSetMatcher (escape_mem e) false x c
  | Class invert atoms => charSetMatcher (set_mem atoms) invert x c
  | Seq r1 r2 => matcher r1 x (fun y => matcher r2 y c)
  | Alt r1 r2 => orElse (matcher r1 x c) (fun _ => matcher r2 x c)
  | Repeat min max greedy r' =>
      repeatMatcher (matcher r') (groups r') greedy c
                    (min + S (length (after x))) min max x
  | Group n r' =>
      matcher r' x (fun y =>
        c (set_capture n (firstn (endIndex y - endIndex x) (after x)) y))
  | Backref n =>
      match lookup_capture n (captures x) with
      | None => c x
      | Some s =>
          match match_captured s x with
          | Some y => c y
          | None => None
          end
      end
  | Lookahead negative r' =>
      match matcher r' x Some with
      | Some y =>
          if negative then None
          else c (MState (before x) (after x) (captures y))
      | None => if negative then c x else None
      end
  | AssertStart =>
      match before x with
      | [] => c x
      | p :: _ => if multiline fl && isLineTerminator p then c x else None
      end
  | AssertEnd =>
      match after x with
      | [] => c x
      | n :: _ => if multiline fl && isLineTerminator n then c x else None
      end
  | WordBoundary negative =>
      let a := isWordCharAt (head (before x)) in
      let b := isWordCharAt (head (after x)) in
      if eqb (xorb a b) negative then None else c x
  end.

(** Try the pattern at the current position, then at the next ones (the
    loop of RegExpBuiltinExec for a pattern that is not sticky).  The
    result is the index where the match starts and the end state. *)
Fixpoint scan (r : regex) (bef aft : list ascii) : option (nat * mstate) :=
  match matcher r (MState bef aft []) Some with
  | Some y => Some (length bef, y)
  | None =>
      match aft with
      | [] => None
      | a :: aft' => scan r (a :: bef) aft'
      end
  end.

Definition matchAt (r : regex) (bef aft : list ascii) : option (nat * mstate) :=
  match matcher r (MState bef aft []) Some with
  | Some y => Some (length bef, y)
  | None => None
  end.

End Matcher.

(** *** RegExp objects *)

Record Flags := {
  hasIndices : bool;   (* d *)
  global : bool;       (* g *)
  ignoreCaseF : bool;  (* i *)
  multilineF : bool;   (* m *)
  dotAllF : bool;      (* s *)
  unicode : bool;      (* u *)
  unicodeSets : bool;  (* v *)
  sticky : bool        (* y *)
}.

Definition noFlags : Flags := Build_Flags false false false false false false false false.

Definition matcher_flags (f : Flags) : mflags :=
  {| ignoreCase := ignoreCaseF f; multiline := multilineF f; dotAll := dotAllF f |}.

Record RegExp := {
  source : regex;
  flags : Flags;
  lastIndex : nat
}.

(** A RegExp as a literal or the constructor creates it *)
Definition mkRegExp (r : regex) (f : Flags) : RegExp :=
  {| source := r; flags := f; lastIndex := 0 |}.

Definition flag_i : Flags := Build_Flags false false true false false false false false.

Definition set_lastIndex (R : RegExp) (i : nat) : RegExp :=
  {| source := source R; flags := flags R; lastIndex := i |}.

Record MatchResult := {
  index : nat;
  matched : list ascii;
  groupsOf : list (nat * list ascii)
}.

(** RegExpBuiltinExec: the match, if any, and the RegExp object with its
    [lastIndex] as the call leaves it. *)
Definition RegExpBuiltinExec (R : RegExp) (str : list ascii)
    : option MatchResult * RegExp :=
  let f := flags R in
  let tracked := global f || sticky f in
  let start := if tracked then lastIndex R else 0 in
  if (length str <? start)%nat then
    (None, if tracked then set_lastIndex R 0 else R)
  else
    let bef := rev (firstn start str) in
    let aft := skipn start str in
    let r :=
      if sticky f then matchAt (matcher_flags f) (source R) bef aft
      else scan (matcher_flags f) (source R) bef aft in
    match r with
    | None => (None, if tracked then set_lastIndex R 0 else R)
    | Some (i, y) =>
        (Some {| index := i;
                 matched := firstn (endIndex y - i) (skipn i str);
                 groupsOf := captures y |},
         if tracked then set_lastIndex R (endIndex y) else R)
    end.

(** [RegExp.prototype.test] *)
Definition test (R : RegExp) (str : string) : bool * RegExp :=
  let '(r, R') := RegExpBuiltinExec R (Str.chars str) in
  (match r with Some _ => true | None => false end, R').

End Regex.

(** ** scripts/validators.js

    In the comments a blank separates a star from a closing parenthesis
    that follows it in the source; the blank is not part of the pattern. *)

Module Validators.

Import Regex.

Definition seqs (l : list regex) : regex := fold_right Seq Empty l.

Definition range (lo hi : string) : class_atom :=
  match lo, hi with
  | String a _, String b _ => CRange a b
  | _, _ => CRange zero zero
  end.

Definition lit (s : string) : regex :=
  match s with
  | String a _ => Char a
  | _ => Empty
  end.

(** [patterns.amount] without its leading [^] *)
Definition amount_body : regex :=
  seqs [ Group 1 (Alt (lit "0") (Seq (Class false [range "1" "9"]) (Star (Esc CDigit))));
         Opt (Group 2 (Seq (lit ".") (Repeat 1 (Some 2) true (Esc CDigit))));
         AssertEnd ].

(** [patterns.description]: [/^\S(?:.*\S)?$/] *)
Definition re_description : RegExp :=
  mkRegExp (seqs [ AssertStart; Esc CNotSpace;
                   Opt (Seq (Star Dot) (Esc CNotSpace)); AssertEnd ]) noFlags.

(** [patterns.amount]: [/^(0|[1-9]\d* )(\.\d{1,2})?$/] *)
Definition re_amount : RegExp := mkRegExp (Seq AssertStart amount_body) noFlags.

(** [patterns.date]: [/^\d{4}-(0[1-9]|1[0-2])-(0[1-9]|[12]\d|3[01])$/] *)
Definition re_date : RegExp :=
  mkRegExp (seqs [ AssertStart; Repeat 4 (Some 4) true (Esc CDigit); lit "-";
                   Group 1 (Alt (Seq (lit "0") (Class false [range "1" "9"]))
                                (Seq (lit "1") (Class false [range "0" "2"])));
                   lit "-";
                   Group 2 (Alt (Seq (lit "0") (Class false [range "1" "9"]))
                           (Alt (Seq (Class false [CChar "1"; CChar "2"]) (Esc CDigit))
                                (Seq (lit "3") (Class false [CChar "0"; CChar "1"]))));
                   AssertEnd ]) noFlags.

(** [patterns.category]: [/^[A-Za-z]+(?:[ -][A-Za-z]+)*$/] *)
Definition re_category : RegExp :=
  mkRegExp (seqs [ AssertStart; Plus (Class false [range "A" "Z"; range "a" "z"]);
                   Star (Seq (Class false [CChar " "; CChar "-"])
                             (Plus (Class false [range "A" "Z"; range "a" "z"])));
                   AssertEnd ]) noFlags.

(** [patterns.duplicateWord]: [/\b(\w+)\s+\1\b/i] *)
Definition re_duplicateWord : RegExp :=
  mkRegExp (seqs [ WordBoundary false; Group 1 (Plus (Esc CWord)); Plus (Esc CSpace);
                   Backref 1; WordBoundary false ]) flag_i.

(** [patterns.nonZeroAmount]: [/^(?=.*[1-9])(0|[1-9]\d* )(\.\d{1,2})?$/] *)
Definition re_nonZeroAmount : RegExp :=
  mkRegExp (seqs [ AssertStart;
                   Lookahead false (Seq (Star Dot) (Class false [range "1" "9"]));
                   amount_body ]) noFlags.

(** The [patterns] object: its own keys. *)
Definition patterns (field : string) : option RegExp :=
  if String.eqb field "description" then Some re_description
  else if String.eqb field "amount" then Some re_amount
  else if String.eqb field "date" then Some re_date
  else if String.eqb field "category" then Some re_category
  else if String.eqb field "duplicateWord" then Some re_duplicateWord
  else if String.eqb field "nonZeroAmount" then Some re_nonZeroAmount
  else None.

(** [validate(field, value)], for a field that is a key of [patterns] or
    a name that no object has.  (For a property name of
    [Object.prototype] the code reads the inherited value, which has no
    [test] method, and throws; the module and the handlers pass the six
    keys only.)  None of the catalogued patterns is global or sticky, so
    [test] leaves them as they are (see [test_stateless]). *)
Definition validate (field value : string) : bool :=
  match patterns field with
  | None => true
  | Some re => fst (test re value)
  end.

(** *** parseFloat

    [parseFloat] reads the longest prefix of the left-trimmed text that is
    a StrDecimalLiteral.  The result is kept as the exact decimal value of
    that prefix; the Number is the double nearest to it. *)

Inductive parsed_number :=
| NaN
| Infinite (negative : bool)
| Decimal (negative : bool) (mantissa : N) (exponent : Z).

Fixpoint span_digits (l : list ascii) : list ascii * list ascii :=
  match l with
  | c :: l' =>
      if Chars.isDigit c
      then let '(ds, rest) := span_digits l' in (c :: ds, rest)
      else ([], l)
  | [] => ([], [])
  end.

Definition digit_value (c : ascii) : N := (Chars.code c - 48)%N.

Definition digits_value (ds : list ascii) : N :=
  fold_left (fun acc c => (10 * acc + digit_value c)%N) ds 0%N.

Fixpoint starts_with (p l : list ascii) : bool :=
  match p, l with
  | [], _ => true
  | a :: p', b :: l' => (Chars.code a =? Chars.code b)%N && starts_with p' l'
  | _ :: _, [] => false
  end.

(** ExponentPart: [e] or [E], an optional sign, at least one digit; when
    the digits are missing the exponent is not part of the prefix. *)
Definition exponent_part (l : list ascii) : Z :=
  match l with
  | e :: l1 =>
      if (Chars.code e =? 101)%N || (Chars.code e =? 69)%N then
        let '(neg, l2) :=
          match l1 with
          | s :: l2 =>
              if (Chars.code s =? 45)%N then (true, l2)
              else if (Chars.code s =? 43)%N then (false, l2)
              else (false, l1)
          | [] => (false, l1)
          end in
        let '(ds, _) := span_digits l2 in
        match ds with
        | [] => 0%Z
        | _ => if neg then (- Z.of_N (digits_value ds))%Z else Z.of_N (digits_value ds)
        end
      else 0%Z
  | [] => 0%Z
  end.

Definition unsigned_decimal (neg : bool) (l : list ascii) : parsed_number :=
  if starts_with (Str.chars "Infinity") l then Infinite neg
  else
    let '(ip, l1) := span_digits l in
    match l1 with
    | dot :: l2 =>
        if (Chars.code dot =? 46)%N then
          let '(fp, l3) := span_digits l2 in
          match ip, fp with
          | [], [] => NaN
          | _, _ =>
              Decimal neg (digits_value (ip ++ fp))
                      (exponent_part l3 - Z.of_nat (length fp))
          end
        else
          match ip with
          | [] => NaN
          | _ => Decimal neg (digits_value ip) (exponent_part l1)
          end
    | [] =>
        match ip with
        | [] => NaN
        | _ => Decimal neg (digits_value ip) 0
        end
    end.

Definition parseFloat (s : string) : parsed_number :=
  match Str.trimStart (Str.chars s) with
  | c :: l =>
      if (Chars.code c =? 45)%N then unsigned_decimal true l
      else if (Chars.code c =? 43)%N then unsigned_decimal false l
      else unsigned_decimal false (c :: l)
  | [] => NaN
  end.

(** [x === 0] for the Number [x] nearest to the parsed value: the double
    nearest to a decimal value is a zero exactly when the value is at most
    2^-1075 in magnitude (half the smallest subnormal; the tie goes to the
    even significand, zero). *)
Definition strictly_equals_zero (x : parsed_number) : bool :=
  match x with
  | NaN | Infinite _ => false
  | Decimal _ m e =>
      (m =? 0)%N ||
      ((e <? 0)%Z && (Z.of_N m * 2 ^ 1075 <=? 10 ^ (- e))%Z)
  end.

(** *** validateForm *)

Record form := { desc : string; amount : string; category : string; date : string }.

Definition err_description : string :=
  "Description must not be empty or start/end with spaces.".
Definition err_amount : string :=
  "Amount must be a positive number with at most 2 decimal places.".
Definition err_zero : string := "Amount must be greater than zero.".
Definition err_category : string :=
  "Category: letters only, words separated by a space or hyphen.".
Definition err_date : string := "Date must be in YYYY-MM-DD format.".
Definition err_duplicate : string :=
  "Description contains a repeated word (e.g. " +:+ String "034" "lunch lunch" +:+
  String "034" ").".

(** [validateForm]: the first error, or [None] for JavaScript's [null]. *)
Definition validateForm (f : form) : option string :=
  if negb (validate "description" (desc f)) then Some err_description
  else if negb (validate "amount" (amount f)) then Some err_amount
  else if strictly_equals_zero (parseFloat (amount f)) then Some err_zero
  else if negb (validate "category" (category f)) then Some err_category
  else if negb (validate "date" (date f)) then Some err_date
  else if validate "duplicateWord" (desc f) then Some err_duplicate
  else None.

(** The same checks with the catalogued [nonZeroAmount] pattern in the
    place of the [parseFloat] comparison. *)
Definition validateForm_catalogued (f : form) : option string :=
  if negb (validate "description" (desc f)) then Some err_description
  else if negb (validate "amount" (amount f)) then Some err_amount
  else if negb (validate "nonZeroAmount" (amount f)) then Some err_zero
  else if negb (validate "category" (category f)) then Some err_category
  else if negb (validate "date" (date f)) then Some err_date
  else if validate "duplicateWord" (desc f) then Some err_duplicate
  else None.

End Validators.


(** ** JavaScript values *)

Module JS.

(** Numbers are IEEE 754 doubles. *)
Definition number : Type := spec_float.

Definition prec : Z := 53.
Definition emax : Z := 1024.

Definition nan : number := S754_nan.
Definition zero : number := S754_zero false.
Definition one : number := S754_finite false 4503599627370496 (-52).
Definition add (a b : number) : number := SFadd prec emax a b.
Definition gtb (a b : number) : bool := SFltb b a.
Definition number_eqb (a b : number) : bool := SFeqb a b.

(** The values of the store and of the import: [undefined] and what
    [JSON.parse] returns.  An object is the map of its own properties (no
    accessors, no methods of its own).  The order in which an object lists
    its properties is not kept: the code depends on it only through the
    text that [JSON.stringify] prints, which is taken from the host. *)
#[warnings="-register-all"]
Inductive value :=
| VUndefined
| VNull
| VBool (b : bool)
| VNum (n : number)
| VStr (s : string)
| VArr (l : list value)
| VObj (props : gmap string value).

Inductive error := TypeError | SyntaxError | RangeError.

(** The outcome of evaluating an expression or a call. *)
Inductive completion (A : Type) :=
| Normal (a : A)
| Throw (e : error).
Arguments Normal {A} a.
Arguments Throw {A} e.

Definition ToBoolean (v : value) : bool :=
  match v with
  | VUndefined | VNull => false
  | VBool b => b
  | VNum n =>
      match n with
      | S754_nan | S754_zero _ => false
      | _ => true
      end
  | VStr s => negb (Str.isEmpty s)
  | VArr _ | VObj _ => true
  end.

(** [a || b] on values *)
Definition or_else (a b : value) : value := if ToBoolean a then a else b.

(** A value that is not an object: [undefined], [null], a boolean, a
    number or a text. *)
Definition is_primitive (v : value) : bool :=
  match v with
  | VArr _ | VObj _ => false
  | _ => true
  end.

(** [a === b], where at least one operand is a primitive value.  Two
    objects are strictly equal only when they are the same object, and
    that is not a matter of their contents: values here are contents, so
    the comparison of two objects lies outside the model.  What is stated
    below about identifiers is stated for primitive identifiers (the
    handlers pass texts). *)
Definition strict_equals (a b : value) : bool :=
  match a, b with
  | VUndefined, VUndefined => true
  | VNull, VNull => true
  | VBool x, VBool y => eqb x y
  | VNum x, VNum y => number_eqb x y
  | VStr x, VStr y => String.eqb x y
  | _, _ => false
  end.

(** The part of the host that is taken as given: the conversions between
    numbers and decimal text, [JSON.parse] (with [None] for a SyntaxError)
    and [JSON.stringify], the clock, and the local time zone. *)
Record Host := {
  StringToNumber : string -> number;
  NumberToString : number -> string;
  JSON_parse : string -> option value;
  JSON_stringify : value -> string;
  (** the successive readings of the system clock, in milliseconds *)
  clock : nat -> Z;
  (** LocalTZA(t, isUTC) *)
  LocalTZA : Z -> bool -> Z
}.

Section Coercions.

Variable h : Host.

Definition join (sep : string) (parts : list string) : string :=
  match parts with
  | [] => ""
  | p :: ps => fold_left (fun acc q => acc +:+ sep +:+ q) ps p
  end.

(** Whether the object has a property [toString] of its own.  The values
    hold no functions, so such a property is not callable. *)
Definition own_toString (props : gmap string value) : bool :=
  match props !! "toString" with
  | Some _ => true
  | None => false
  end.

(** [ToString], as [String(v)] and [re.test(v)] apply it.  An array joins
    the texts of its elements.  An object prints as [[object Object]]
    through the method that it inherits; with a [toString] of its own,
    which is not callable, OrdinaryToPrimitive falls back on [valueOf],
    which is not callable either or returns the object itself, and throws
    a TypeError. *)
Fixpoint ToString (v : value) : completion string :=
  match v with
  | VUndefined => Normal "undefined"
  | VNull => Normal "null"
  | VBool true => Normal "true"
  | VBool false => Normal "false"
  | VNum n => Normal (NumberToString h n)
  | VStr s => Normal s
  | VArr l =>
      match (fix elements (l : list value) : completion (list string) :=
               match l with
               | [] => Normal []
               | e :: l' =>
                   match match e with
                         | VUndefined | VNull => Normal ""
                         | _ => ToString e
                         end with
                   | Throw err => Throw err
                   | Normal s =>
                       match elements l' with
                       | Throw err => Throw err
                       | Normal ss => Normal (s :: ss)
                       end
                   end
               end) l with
      | Throw err => Throw err
      | Normal parts => Normal (join "," parts)
      end
  | VObj props => if own_toString props then Throw TypeError else Normal "[object Object]"
  end.

(** [ToNumber], as [Number(v)] applies it: an object is first converted
    to a primitive value, which is its text or a TypeError as above. *)
Definition ToNumber (v : value) : completion number :=
  match v with
  | VUndefined => Normal nan
  | VNull => Normal zero
  | VBool true => Normal one
  | VBool false => Normal zero
  | VNum n => Normal n
  | VStr s => Normal (StringToNumber h s)
  | VArr _ | VObj _ =>
      match ToString v with
      | Throw err => Throw err
      | Normal s => Normal (StringToNumber h s)
      end
  end.

End Coercions.

(** [v.k] for a property name [k] that no built-in prototype defines and
    that is neither [length] nor an index (the record fields). *)
Definition Get (v : value) (k : string) : completion value :=
  match v with
  | VUndefined | VNull => Throw TypeError
  | VObj props => Normal (default VUndefined (props !! k))
  | _ => Normal VUndefined
  end.

Definition isArray (v : value) : bool :=
  match v with VArr _ => true | _ => false end.

(** [typeof v === 'object'] *)
Definition typeof_object (v : value) : bool :=
  match v with VNull | VArr _ | VObj _ => true | _ => false end.

Fixpoint decimal_digits (fuel : nat) (n : N) (acc : list ascii) : list ascii :=
  match fuel with
  | 0 => acc
  | S fuel' =>
      let acc' := ascii_of_N (48 + n mod 10) :: acc in
      if (n <? 10)%N then acc' else decimal_digits fuel' (n / 10) acc'
  end.

(** The decimal text of a natural number. *)
Definition decimal (n : N) : string :=
  Str.of_chars (decimal_digits (S (N.to_nat (N.log2 n))) n []).

Fixpoint indexed (i : N) (l : list value) : list (string * value) :=
  match l with
  | [] => []
  | v :: l' => (decimal i, v) :: indexed (i + 1) l'
  end.

(** CopyDataProperties, the source of a spread [{...v}]: the own
    enumerable properties of [v]. *)
Definition own_properties (v : value) : gmap string value :=
  match v with
  | VObj props => props
  | VArr l => list_to_map (indexed 0 l)
  | VStr s => list_to_map (indexed 0 (map (fun c => VStr (String c EmptyString)) (Str.chars s)))
  | _ => ∅
  end.

End JS.

(** ** scripts/search.js *)

Module Search.

Import Regex JS.

Section Compile.

(** The parser of the Pattern grammar is taken as given: the syntax tree
    of a pattern text under the given flags, or [None] for a syntax
    error. *)
Variable parsePattern : string -> Flags -> option regex.

(** The flags text of the RegExp constructor: each of [dgimsuvy] at most
    once, nothing else. *)
Fixpoint parseFlags (l : list ascii) (f : Flags) : option Flags :=
  match l with
  | [] => Some f
  | c :: l' =>
      let set (already : bool) (f' : Flags) :=
        if already then None else parseFlags l' f' in
      match Chars.code c with
      | 100%N => set (hasIndices f)
          (Build_Flags true (global f) (ignoreCaseF f) (multilineF f) (dotAllF f)
                       (unicode f) (unicodeSets f) (sticky f))
      | 103%N => set (global f)
          (Build_Flags (hasIndices f) true (ignoreCaseF f) (multilineF f) (dotAllF f)
                       (unicode f) (unicodeSets f) (sticky f))
      | 105%N => set (ignoreCaseF f)
          (Build_Flags (hasIndices f) (global f) true (multilineF f) (dotAllF f)
                       (unicode f) (unicodeSets f) (sticky f))
      | 109%N => set (multilineF f)
          (Build_Flags (hasIndices f) (global f) (ignoreCaseF f) true (dotAllF f)
                       (unicode f) (unicodeSets f) (sticky f))
      | 115%N => set (dotAllF f)
          (Build_Flags (hasIndices f) (global f) (ignoreCaseF f) (multilineF f) true
                       (unicode f) (unicodeSets f) (sticky f))
      | 117%N => set (unicode f)
          (Build_Flags (hasIndices f) (global f) (ignoreCaseF f) (multilineF f) (dotAllF f)
                       true (unicodeSets f) (sticky f))
      | 118%N => set (unicodeSets f)
          (Build_Flags (hasIndices f) (global f) (ignoreCaseF f) (multilineF f) (dotAllF f)
                       (unicode f) true (sticky f))
      | 121%N => set (sticky f)
          (Build_Flags (hasIndices f) (global f) (ignoreCaseF f) (multilineF f) (dotAllF f)
                       (unicode f) (unicodeSets f) true)
      | _ => None
      end
  end.

(** [new RegExp(pattern, flags)] *)
Definition RegExpCreate (pattern flags : string) : completion RegExp :=
  match parseFlags (Str.chars flags) noFlags with
  | None => Throw SyntaxError
  | Some f =>
      match parsePattern pattern f with
      | None => Throw SyntaxError
      | Some r => Normal (mkRegExp r f)
      end
  end.

(** [try { body } catch { handler }] *)
Definition try_catch {A} (body : completion A) (handler : error -> completion A)
    : completion A :=
  match body with
  | Normal a => Normal a
  | Throw e => handler e
  end.

(** [compileRegex(input, flags = 'i')]; [None] is JavaScript's [null],
    for the result and for an omitted [flags]. *)
Definition compileRegex (input : string) (flags : option string)
    : completion (option RegExp) :=
  let flags := default "i" flags in
  if Str.isEmpty input || Str.isEmpty (Str.trim input) then Normal None
  else
    try_catch
      (match RegExpCreate (Str.trim input) flags with
       | Normal re => Normal (Some re)
       | Throw e => Throw e
       end)
      (fun _ => Normal None).

End Compile.

(** The matches [RegExp.prototype[Symbol.replace]] collects: one when the
    pattern is not global, otherwise all of them, stepping over an empty
    match. *)
Fixpoint collect (fuel : nat) (R : RegExp) (str : list ascii)
    : list MatchResult * RegExp :=
  match fuel with
  | 0 => ([], R)
  | S fuel' =>
      match RegExpBuiltinExec R str with
      | (None, R') => ([], R')
      | (Some res, R') =>
          if negb (global (flags R)) then ([res], R')
          else
            let R'' :=
              match matched res with
              | [] => set_lastIndex R' (S (lastIndex R'))
              | _ => R'
              end in
            let '(rs, Rf) := collect fuel' R'' str in
            (res :: rs, Rf)
      end
  end.

(** The text with each collected match replaced by [fn] of it. *)
Fixpoint substitute (fn : list ascii -> list ascii) (str : list ascii)
    (results : list MatchResult) (nextSourcePosition : nat) (acc : list ascii)
    : list ascii :=
  match results with
  | [] => acc ++ skipn nextSourcePosition str
  | res :: results' =>
      let position := Nat.min (index res) (length str) in
      if (nextSourcePosition <=? position)%nat then
        substitute fn str results' (position + length (matched res))
          (acc ++ firstn (position - nextSourcePosition) (skipn nextSourcePosition str)
               ++ fn (matched res))
      else substitute fn str results' nextSourcePosition acc
  end.

(** [str.replace(R, fn)] for a RegExp [R] and a function [fn] of the match *)
Definition replace (str : string) (R : RegExp) (fn : list ascii -> list ascii)
    : string * RegExp :=
  let R0 := if global (flags R) then set_lastIndex R 0 else R in
  let '(results, R') := collect (length (Str.chars str) + 2) R0 (Str.chars str) in
  (Str.of_chars (substitute fn (Str.chars str) results 0 []), R').

Definition mark_open : string :=
  "<mark class=" +:+ String "034" "search-hit" +:+ String "034" ">".
Definition mark_close : string := "</mark>".

Definition mark (m : list ascii) : list ascii :=
  Str.chars mark_open ++ m ++ Str.chars mark_close.

(** [highlight(text, re)]: the text, and the RegExp as the call leaves it *)
Definition highlight (text : string) (re : option RegExp) : string * option RegExp :=
  match re with
  | None => (text, None)
  | Some R =>
      if Str.isEmpty text then (text, Some R)
      else let '(s, R') := replace text R mark in (s, Some R')
  end.

Section Filter.

Variable h : Host.

(** [re.test(r.k || '')] *)
Definition test_field (R : RegExp) (r : value) (k : string)
    : completion bool * RegExp :=
  match Get r k with
  | Throw e => (Throw e, R)
  | Normal v =>
      match ToString h (or_else v (VStr "")) with
      | Throw e => (Throw e, R)
      | Normal s => let '(b, R') := test R s in (Normal b, R')
      end
  end.

(** The callback of [filterRecords] *)
Definition matches_record (R : RegExp) (r : value) : completion bool * RegExp :=
  match test_field R r "description" with
  | (Normal false, R1) =>
      match test_field R1 r "category" with
      | (Normal false, R2) => test_field R2 r "date"
      | other => other
      end
  | other => other
  end.

Fixpoint filter_with (R : RegExp) (records : list value)
    : completion (list value) * RegExp :=
  match records with
  | [] => (Normal [], R)
  | r :: records' =>
      match matches_record R r with
      | (Throw e, R') => (Throw e, R')
      | (Normal b, R') =>
          match filter_with R' records' with
          | (Normal kept, R'') => (Normal (if b then r :: kept else kept), R'')
          | other => other
          end
      end
  end.

(** [filterRecords(records, re)] *)
Definition filterRecords (records : list value) (re : option RegExp)
    : completion (list value) * option RegExp :=
  match re with
  | None => (Normal records, None)
  | Some R => let '(res, R') := filter_with R records in (res, Some R')
  end.

End Filter.

End Search.

(** ** Dates

    Time values are milliseconds since 1970-01-01T00:00:00Z, within the
    range of [Date]. *)

Module Date.

Definition msPerDay : Z := 86400000.

(** Year, month (1..12) and day of the month of a day number counted from
    1970-01-01, in the proleptic Gregorian calendar. *)
Definition civil_from_days (days : Z) : Z * Z * Z :=
  let z := (days + 719468)%Z in
  let era := (z / 146097)%Z in
  let doe := (z - era * 146097)%Z in
  let yoe := ((doe - doe / 1460 + doe / 36524 - doe / 146096) / 365)%Z in
  let doy := (doe - (365 * yoe + yoe / 4 - yoe / 100))%Z in
  let mp := ((5 * doy + 2) / 153)%Z in
  let d := (doy - (153 * mp + 2) / 5 + 1)%Z in
  let m := (if (mp <? 10)%Z then mp + 3 else mp - 9)%Z in
  let y := (yoe + era * 400 + (if (m <=? 2)%Z then 1 else 0))%Z in
  (y, m, d).

Definition pad_left (width : nat) (l : list ascii) : list ascii :=
  repeat "0"%char (width - length l) ++ l.

Definition padded (width : nat) (n : Z) : string :=
  Str.of_chars (pad_left width (Str.chars (JS.decimal (Z.to_N n)))).

(** [Date.prototype.toISOString] of a time value *)
Definition toISOString (t : Z) : string :=
  let '(y, m, d) := civil_from_days (t / msPerDay) in
  let ms := (t mod msPerDay)%Z in
  let year :=
    if ((0 <=? y) && (y <=? 9999))%Z then padded 4 y
    else if (y <? 0)%Z then "-" +:+ padded 6 (- y)
    else "+" +:+ padded 6 y in
  year +:+ "-" +:+ padded 2 m +:+ "-" +:+ padded 2 d +:+ "T" +:+
  padded 2 (ms / 3600000) +:+ ":" +:+ padded 2 (ms / 60000 mod 60) +:+ ":" +:+
  padded 2 (ms / 1000 mod 60) +:+ "." +:+ padded 3 (ms mod 1000) +:+ "Z".

(** [s.slice(0, 10)] *)
Definition slice10 (s : string) : string := String.substring 0 10 s.

End Date.

(** ** scripts/storage.js *)

Module Storage.

Import JS.

(** The local store of the browser: the text kept under each key. *)
Definition localStorage : Type := gmap string string.

Definition KEY_records : string := "sft:records".
Definition KEY_cap : string := "sft:cap".
Definition KEY_rates : string := "sft:rates".
Definition KEY_currency : string := "sft:currency".
Definition KEY_theme : string := "sft:theme".

(** [Object.values(KEYS)] *)
Definition KEYS : list string :=
  [KEY_records; KEY_cap; KEY_rates; KEY_currency; KEY_theme].

(** [localStorage.getItem(k)]; [None] is [null]. *)
Definition getItem (ls : localStorage) (k : string) : option string := ls !! k.

Definition removeItem (k : string) (ls : localStorage) : localStorage := delete k ls.

(** The Numbers 500, 0.92, 0.79 and 1460 *)
Definition n500 : number := S754_finite false 8796093022208000 (-44).
Definition n0_92 : number := S754_finite false 8286623314361713 (-53).
Definition n0_79 : number := S754_finite false 7115687411245384 (-53).
Definition n1460 : number := S754_finite false 6421147906211840 (-42).

Definition DEFAULT_RATES : value :=
  VObj (<["base" := VStr "USD"]>
       (<["EUR" := VNum n0_92]>
       (<["GBP" := VNum n0_79]>
       (<["RWF" := VNum n1460]> ∅)))).

Section Storage.

Variable h : Host.

(** Whether the store can hold the given contents; [setItem] throws a
    QuotaExceededError when it cannot. *)
Variable quota : localStorage -> bool.

(** [localStorage.setItem(k, v)]; [None] when it throws. *)
Definition setItem (k v : string) (ls : localStorage) : option localStorage :=
  if quota (<[k := v]> ls) then Some (<[k := v]> ls) else None.

(** [safeParse(raw, fallback)] *)
Definition safeParse (raw : string) (fallback : value) : value :=
  match JSON_parse h raw with
  | Some parsed =>
      if negb (strict_equals parsed VNull) && negb (strict_equals parsed VUndefined)
      then parsed else fallback
  | None => fallback
  end.

(** [loadRecords()] *)
Definition loadRecords (ls : localStorage) : value :=
  match getItem ls KEY_records with
  | None => VArr []
  | Some raw =>
      if Str.isEmpty raw then VArr []
      else
        let parsed := safeParse raw (VArr []) in
        if isArray parsed then parsed else VArr []
  end.

(** [saveRecords(data)]: a failed write is logged, nothing is thrown. *)
Definition saveRecords (data : value) (ls : localStorage) : localStorage :=
  default ls
    (setItem KEY_records (JSON_stringify h (if isArray data then data else VArr [])) ls).

(** [getCap()] *)
Definition getCap (ls : localStorage) : number :=
  match getItem ls KEY_cap with
  | None => n500
  | Some raw => if Str.isEmpty raw then n500 else StringToNumber h raw
  end.

(** [getRates()] *)
Definition getRates (ls : localStorage) : value :=
  match getItem ls KEY_rates with
  | None => DEFAULT_RATES
  | Some raw => if Str.isEmpty raw then DEFAULT_RATES else safeParse raw DEFAULT_RATES
  end.

(** [setRates(obj)] *)
Definition setRates (obj : value) (ls : localStorage) : localStorage :=
  default ls (setItem KEY_rates (JSON_stringify h obj) ls).

(** [getDisplayCurrency()] *)
Definition getDisplayCurrency (ls : localStorage) : string :=
  match getItem ls KEY_currency with
  | None => "USD"
  | Some code => if Str.isEmpty code then "USD" else code
  end.

(** [setDisplayCurrency(code)]; [None] when [String(code)] or the write
    throws. *)
Definition setDisplayCurrency (code : value) (ls : localStorage) : option localStorage :=
  match ToString h code with
  | Throw _ => None
  | Normal text => setItem KEY_currency text ls
  end.

(** [getTheme()] *)
Definition getTheme (ls : localStorage) : string :=
  match getItem ls KEY_theme with
  | None => "light"
  | Some theme => if Str.isEmpty theme then "light" else theme
  end.

(** [setTheme(theme)]; [None] when the conversion of [theme] to a text
    or the write throws. *)
Definition setTheme (theme : value) (ls : localStorage) : option localStorage :=
  match ToString h theme with
  | Throw _ => None
  | Normal text => setItem KEY_theme text ls
  end.

(** [clearAll()] *)
Definition clearAll (ls : localStorage) : localStorage :=
  fold_left (fun acc k => removeItem k acc) KEYS ls.

End Storage.

End Storage.

(** ** scripts/state.js *)

Module State.

Import JS Storage.

(** The module state: [_records], [_counter], the number of clock readings
    taken so far, and the local store of the browser, which [saveRecords]
    writes and from which [_records] was read when the module was
    loaded. *)
Record store := {
  records : list value;
  counter : N;
  ticks : nat;
  storage : localStorage
}.

(** A computation on the module state that returns or throws. *)
Definition M (A : Type) : Type := store -> completion A * store.

Definition ret {A} (a : A) : M A := fun st => (Normal a, st).
Definition throw {A} (e : error) : M A := fun st => (Throw e, st).
Definition bind {A B} (m : M A) (k : A -> M B) : M B :=
  fun st =>
    match m st with
    | (Normal a, st') => k a st'
    | (Throw e, st') => (Throw e, st')
    end.
Definition lift {A} (c : completion A) : M A := fun st => (c, st).

Notation "x <- c1 ;; c2" := (bind c1 (fun x => c2))
  (at level 100, c1 at next level, right associativity).
Notation "c1 ;; c2" := (bind c1 (fun _ => c2))
  (at level 100, right associativity).

Definition get_records : M (list value) := fun st => (Normal (records st), st).
Definition set_records (rs : list value) : M unit :=
  fun st => (Normal tt, {| records := rs; counter := counter st;
                           ticks := ticks st; storage := storage st |}).

Section Store.

Variable h : Host.

(** Whether the local store can hold the given contents;
    [localStorage.setItem] throws when the quota is exceeded. *)
Variable storageAccepts : localStorage -> bool.

(** [_records = loadRecords(); _counter = _records.length], for the
    contents of the local store when the module is loaded. *)
Definition initial (ls : localStorage) : store :=
  let loaded := match loadRecords h ls with VArr l => l | _ => [] end in
  {| records := loaded;
     counter := N.of_nat (length loaded);
     ticks := 0; storage := ls |}.

(** [Date.now()], and the time value of [new Date()] *)
Definition Date_now : M Z :=
  fun st => (Normal (clock h (ticks st)),
             {| records := records st; counter := counter st;
                ticks := S (ticks st); storage := storage st |}).

(** [new Date().toISOString()] *)
Definition now_iso : M value :=
  t <- Date_now ;; ret (VStr (Date.toISOString t)).

(** [++_counter] on a double: past 2^53 adding one rounds back. *)
Definition increment (c : N) : N := if (c <? 2 ^ 53)%N then (c + 1)%N else c.

Definition pre_increment_counter : M N :=
  fun st => (Normal (increment (counter st)),
             {| records := records st; counter := increment (counter st);
                ticks := ticks st; storage := storage st |}).

Definition digit36 (d : N) : ascii :=
  if (d <? 10)%N then ascii_of_N (48 + d) else ascii_of_N (87 + d).

Fixpoint digits36 (fuel : nat) (n : N) (acc : list ascii) : list ascii :=
  match fuel with
  | 0 => acc
  | S fuel' =>
      let acc' := digit36 (n mod 36) :: acc in
      if (n <? 36)%N then acc' else digits36 fuel' (n / 36) acc'
  end.

(** [n.toString(36)] for an integer [n] *)
Definition toString36 (n : N) : string :=
  Str.of_chars (digits36 (S (N.to_nat (N.log2 n))) n []).

(** The text of an integer time value in a template literal *)
Definition time_text (t : Z) : string :=
  if (t <? 0)%Z then "-" +:+ decimal (Z.to_N (- t)) else decimal (Z.to_N t).

Definition make_id (t : Z) (c : N) : string :=
  "rec_" +:+ time_text t +:+ "_" +:+ toString36 c.

(** [genId()] *)
Definition genId : M string :=
  t <- Date_now ;;
  c <- pre_increment_counter ;;
  ret (make_id t c).

(** [x || f()] where [f] is only called when [x] is falsy *)
Definition or_else_call (x : value) (f : M value) : M value :=
  if ToBoolean x then ret x else f.

Definition number_or_zero (n : number) : number :=
  if ToBoolean (VNum n) then n else zero.

(** [normalise(r)]: the fields are evaluated in the order in which they
    are written; [String(...)] and [Number(...)] may throw. *)
Definition normalise (r : value) : M value :=
  r_id <- lift (Get r "id") ;;
  id <- or_else_call r_id (s <- genId ;; ret (VStr s)) ;;
  r_description <- lift (Get r "description") ;;
  description <- lift (ToString h (or_else r_description (VStr ""))) ;;
  r_amount <- lift (Get r "amount") ;;
  amount <- lift (ToNumber h r_amount) ;;
  r_category <- lift (Get r "category") ;;
  category <- lift (ToString h (or_else r_category (VStr "Other"))) ;;
  r_date <- lift (Get r "date") ;;
  date <- or_else_call r_date
            (t <- Date_now ;; ret (VStr (Date.slice10 (Date.toISOString t)))) ;;
  r_createdAt <- lift (Get r "createdAt") ;;
  createdAt <- or_else_call r_createdAt now_iso ;;
  r_updatedAt <- lift (Get r "updatedAt") ;;
  updatedAt <- or_else_call r_updatedAt now_iso ;;
  ret (VObj (<["id" := id]>
            (<["description" := VStr (Str.trim description)]>
            (<["amount" := VNum (number_or_zero amount)]>
            (<["category" := VStr (Str.trim category)]>
            (<["date" := date]>
            (<["createdAt" := createdAt]>
            (<["updatedAt" := updatedAt]> ∅)))))))).

(** [saveRecords(_records)], the function of [storage.js] on the local
    store: it writes the JSON text of the array; a write that fails is
    logged and nothing is thrown. *)
Definition saveRecords : M unit :=
  fun st =>
    (Normal tt,
     {| records := records st; counter := counter st; ticks := ticks st;
        storage := Storage.saveRecords h storageAccepts (VArr (records st)) (storage st) |}).

(** [getRecords()]: a copy of the array *)
Definition getRecords : M (list value) := get_records.

Fixpoint find_by_id (id : value) (rs : list value) : completion (option value) :=
  match rs with
  | [] => Normal None
  | r :: rs' =>
      match Get r "id" with
      | Throw e => Throw e
      | Normal v => if strict_equals v id then Normal (Some r) else find_by_id id rs'
      end
  end.

(** [getRecord(id)] *)
Definition getRecord (id : value) : M value :=
  rs <- get_records ;;
  found <- lift (find_by_id id rs) ;;
  ret (or_else (default VUndefined found) VNull).

(** [addRecord(data)] *)
Definition addRecord (data : value) : M value :=
  if negb (ToBoolean data) || negb (typeof_object data) then ret VNull
  else
    id <- genId ;;
    createdAt <- now_iso ;;
    updatedAt <- now_iso ;;
    record <- normalise
      (VObj (<["updatedAt" := updatedAt]>
            (<["createdAt" := createdAt]>
            (<["id" := VStr id]> (own_properties data))))) ;;
    rs <- get_records ;;
    set_records (rs ++ [record]) ;;
    saveRecords ;;
    ret record.

Fixpoint findIndex_by_id (id : value) (rs : list value) (i : nat)
    : completion (option nat) :=
  match rs with
  | [] => Normal None
  | r :: rs' =>
      match Get r "id" with
      | Throw e => Throw e
      | Normal v =>
          if strict_equals v id then Normal (Some i) else findIndex_by_id id rs' (S i)
      end
  end.

(** [updateRecord(id, updates = {})]; an omitted [updates] is
    [VUndefined]. *)
Definition updateRecord (id : value) (updates : value) : M value :=
  let updates := match updates with VUndefined => VObj ∅ | u => u end in
  rs <- get_records ;;
  idx <- lift (findIndex_by_id id rs 0) ;;
  match idx with
  | None => ret VNull
  | Some i =>
      let old := default VUndefined (rs !! i) in
      createdAt <- lift (Get old "createdAt") ;;
      updatedAt <- now_iso ;;
      updated <- normalise
        (VObj (<["updatedAt" := updatedAt]>
              (<["createdAt" := createdAt]>
              (<["id" := id]> (own_properties updates ∪ own_properties old))))) ;;
      rs' <- get_records ;;
      set_records (<[i := updated]> rs') ;;
      saveRecords ;;
      ret updated
  end.

Fixpoint remove_by_id (id : value) (rs : list value) : completion (list value) :=
  match rs with
  | [] => Normal []
  | r :: rs' =>
      match Get r "id" with
      | Throw e => Throw e
      | Normal v =>
          match remove_by_id id rs' with
          | Throw e => Throw e
          | Normal kept =>
              Normal (if negb (strict_equals v id) then r :: kept else kept)
          end
      end
  end.

(** [deleteRecord(id)] *)
Definition deleteRecord (id : value) : M bool :=
  rs <- get_records ;;
  let before := length rs in
  kept <- lift (remove_by_id id rs) ;;
  set_records kept ;;
  if negb (length kept =? before)%nat then saveRecords ;; ret true
  else ret false.

Fixpoint mapM {A B} (f : A -> M B) (l : list A) : M (list B) :=
  match l with
  | [] => ret []
  | a :: l' => b <- f a ;; bs <- mapM f l' ;; ret (b :: bs)
  end.

(** [replaceAll(recordsArray)] *)
Definition replaceAll (recordsArray : value) : M bool :=
  match recordsArray with
  | VArr elements =>
      rs <- mapM normalise elements ;;
      set_records rs ;;
      saveRecords ;;
      ret true
  | _ => ret false
  end.

(** *** computeStats *)

(** A value of [categoryMap]: a count, or the source text of a function
    of [Object.prototype] followed by so many digits 1 (see
    [count_category]). *)
Inductive tally :=
| Count (n : nat)
| Text (ones : nat).

Record stats := {
  total : nat;
  sum : number;
  topCategory : string;
  categoryMap : list (string * tally);
  last7Count : nat;
  last7Sum : number;
  dayBuckets : list string;
  dailyTotals : list number
}.

(** [records.reduce((acc, r) => acc + Number(r.amount || 0), acc0)] *)
Fixpoint sum_amounts (rs : list value) (acc : number) : completion number :=
  match rs with
  | [] => Normal acc
  | r :: rs' =>
      match Get r "amount" with
      | Throw e => Throw e
      | Normal v =>
          match ToNumber h (or_else v (VNum zero)) with
          | Throw e => Throw e
          | Normal n => sum_amounts rs' (add acc n)
          end
      end
  end.

(** The property names of [Object.prototype], which the object literal
    [{}] inherits. *)
Definition inherited (k : string) : bool :=
  existsb (String.eqb k)
    ["constructor"; "hasOwnProperty"; "isPrototypeOf"; "propertyIsEnumerable";
     "toLocaleString"; "toString"; "valueOf"; "__proto__";
     "__defineGetter__"; "__defineSetter__"; "__lookupGetter__"; "__lookupSetter__"].

(** [v + 1] for a truthy value [v] of the map: the next count, or the
    text with one more digit 1. *)
Definition plus_one (v : tally) : tally :=
  match v with
  | Count n => Count (S n)
  | Text ones => Text (S ones)
  end.

(** [categoryMap[cat] = (categoryMap[cat] || 0) + 1] on the own properties
    of the object, kept in the order in which they were created.  For a
    name that the object does not have yet and [Object.prototype] defines,
    the value read is the inherited function: the sum is its source text
    followed by 1, and becomes an own property.  For [__proto__] the
    assignment calls the inherited setter, which ignores a text, and the
    object is left as it was. *)
Fixpoint count_category (cat : string) (m : list (string * tally)) : list (string * tally) :=
  match m with
  | [] =>
      if String.eqb cat "__proto__" then []
      else if inherited cat then [(cat, Text 1)]
      else [(cat, Count 1)]
  | (k, v) :: m' =>
      if String.eqb k cat then (k, plus_one v) :: m' else (k, v) :: count_category cat m'
  end.

(** The [forEach] over the records; the property key is the text of
    [r.category || 'Uncategorized']. *)
Fixpoint count_categories (rs : list value) (m : list (string * tally))
    : completion (list (string * tally)) :=
  match rs with
  | [] => Normal m
  | r :: rs' =>
      match Get r "category" with
      | Throw e => Throw e
      | Normal v =>
          match ToString h (or_else v (VStr "Uncategorized")) with
          | Throw e => Throw e
          | Normal cat => count_categories rs' (count_category cat m)
          end
      end
  end.

(** An array index as a property key: the canonical decimal text of an
    integer below 2^32 - 1. *)
Definition array_index (k : string) : option N :=
  let ds := Str.chars k in
  match ds with
  | [] => None
  | d :: ds' =>
      if forallb Chars.isDigit ds &&
         (negb (Chars.code d =? 48)%N || match ds' with [] => true | _ => false end)
      then
        let n := fold_left (fun acc c => (10 * acc + (Chars.code c - 48))%N) ds 0%N in
        if (n <? 4294967295)%N then Some n else None
      else None
  end.

Fixpoint insert_index (e : N * (string * tally)) (l : list (N * (string * tally)))
    : list (N * (string * tally)) :=
  match l with
  | [] => [e]
  | e' :: l' => if (fst e <=? fst e')%N then e :: l else e' :: insert_index e l'
  end.

(** [Object.entries(m)]: index keys in ascending order, then the other
    keys in the order of their creation. *)
Definition entries (m : list (string * tally)) : list (string * tally) :=
  let indices :=
    fold_right
      (fun kv acc =>
         match array_index (fst kv) with
         | Some i => insert_index (i, kv) acc
         | None => acc
         end) [] m in
  map snd indices ++
  List.filter (fun kv => match array_index (fst kv) with Some _ => false | None => true end) m.

(** Whether the entry [a], which comes before [b], stays before it under
    the comparison [(a, b) => b[1] - a[1]]: the difference of two counts
    is not positive.  With a text the difference is NaN (the source text
    of a function is no numeral), which the sort takes for +0. *)
Definition stays_before (a b : string * tally) : bool :=
  match snd a, snd b with
  | Count n, Count n' => (n' <=? n)%nat
  | _, _ => true
  end.

(** [.sort((a, b) => b[1] - a[1])]: on counts a stable sort, larger
    counts first.  With a text among the values the comparison is not
    consistent and the standard leaves the order to the implementation;
    the insertion below is one such order. *)
Fixpoint insert_by_count (e : string * tally) (l : list (string * tally))
    : list (string * tally) :=
  match l with
  | [] => [e]
  | e' :: l' => if stays_before e e' then e :: l else e' :: insert_by_count e l'
  end.

Definition sort_by_count (l : list (string * tally)) : list (string * tally) :=
  fold_right insert_by_count [] l.

(** [...[0]?.[0] || 'None'] *)
Definition top_of (sorted : list (string * tally)) : string :=
  match sorted with
  | [] => "None"
  | (k, _) :: _ => if Str.isEmpty k then "None" else k
  end.

(** The date text of [d] after [d.setDate(d.getDate() - k)], for [d] a
    copy of [today]. *)
Definition day_bucket (today : Z) (k : Z) : string :=
  let local := (today + LocalTZA h today true)%Z in
  let newDate := (local - k * Date.msPerDay)%Z in
  Date.slice10 (Date.toISOString (newDate - LocalTZA h newDate false)).

Fixpoint records_on (day : string) (rs : list value) : completion (list value) :=
  match rs with
  | [] => Normal []
  | r :: rs' =>
      match Get r "date" with
      | Throw e => Throw e
      | Normal v =>
          match records_on day rs' with
          | Throw e => Throw e
          | Normal kept =>
              Normal (if strict_equals v (VStr day) then r :: kept else kept)
          end
      end
  end.

Fixpoint daily_totals (days : list string) (rs : list value) : completion (list number) :=
  match days with
  | [] => Normal []
  | day :: days' =>
      match records_on day rs with
      | Throw e => Throw e
      | Normal on_day =>
          match sum_amounts on_day zero with
          | Throw e => Throw e
          | Normal t =>
              match daily_totals days' rs with
              | Throw e => Throw e
              | Normal ts => Normal (t :: ts)
              end
          end
      end
  end.

(** [computeStats(records = _records)]; [None] is an omitted argument. *)
Definition computeStats (arg : option (list value)) : M stats :=
  stored <- get_records ;;
  let rs := default stored arg in
  s <- lift (sum_amounts rs zero) ;;
  cm <- lift (count_categories rs []) ;;
  today <- Date_now ;;
  let buckets := map (fun i => day_bucket today (6 - Z.of_nat i)) (seq 0 7) in
  totals <- lift (daily_totals buckets rs) ;;
  ret {| total := length rs;
         sum := s;
         topCategory := top_of (sort_by_count (entries cm));
         categoryMap := cm;
         last7Count := fold_left (fun c v => c + (if gtb v zero then 1 else 0)) totals 0;
         last7Sum := fold_left add totals zero;
         dayBuckets := buckets;
         dailyTotals := totals |}.

(** *** init *)

(** [try { body } catch { handler }] on the module state: what the body
    did before it threw stays done. *)
Definition catch {A} (body handler : M A) : M A :=
  fun st =>
    match body st with
    | (Throw _, st') => handler st'
    | done => done
    end.

(** [init()], for the outcome of reading [seed.json]: [None] when the
    request fails, the response is not ok or its body is not JSON,
    otherwise the value of the body.  The function is asynchronous; the
    handlers that change the store are bound after it has settled
    ([app.js]), so nothing runs between its steps. *)
Definition init (seed : option value) : M unit :=
  rs <- get_records ;;
  if (0 <? length rs)%nat then ret tt
  else
    match seed with
    | None => set_records []
    | Some data =>
        catch
          (match data with
           | VArr (e :: l) =>
               rs' <- mapM normalise (e :: l) ;;
               set_records rs' ;;
               saveRecords
           | _ => ret tt
           end)
          (set_records [])
    end.

End Store.

End State.

(** ** scripts/ui.js: escaping and import *)

Module Ui.

Import Chars Regex JS Search State.

Definition flag_g : Flags := Build_Flags false true false false false false false false.

(** The pattern of [esc]: the class of the ampersand, the angle brackets,
    the double quote, the quote, the backquote, the equals sign and the
    slash, with the flag [g]; the literal is evaluated at every call. *)
Definition re_esc : RegExp :=
  mkRegExp (Class false [CChar "&"; CChar "<"; CChar ">"; CChar "034"; CChar "'";
                         CChar "`"; CChar "="; CChar "/"]) flag_g.

(** The replacement function of [esc]: the entity of a matched character,
    the match itself when the table has no entry for it. *)
Definition entity (m : list ascii) : list ascii :=
  match m with
  | [c] =>
      if (code c =? 38)%N then Str.chars "&amp;"
      else if (code c =? 60)%N then Str.chars "&lt;"
      else if (code c =? 62)%N then Str.chars "&gt;"
      else if (code c =? 34)%N then Str.chars "&quot;"
      else if (code c =? 39)%N then Str.chars "&#39;"
      else if (code c =? 47)%N then Str.chars "&#x2F;"
      else if (code c =? 96)%N then Str.chars "&#x60;"
      else if (code c =? 61)%N then Str.chars "&#x3D;"
      else m
  | _ => m
  end.

Section Ui.

Variable h : Host.
Variable storageAccepts : Storage.localStorage -> bool.
Variable parsePattern : string -> Flags -> option regex.

(** [renderRecords(current); renderDashboard(current)] and the display of
    the success message: the rendering is code on the document that is not
    embedded here; whether it returns or throws, and what it does to the
    module state ([computeStats] reads the clock), is taken as given. *)
Variable render : list value -> M unit.

(** The Number that [parseFloat] returns for the value it reads (the
    double nearest to it) is taken as given. *)
Variable toNumber : Validators.parsed_number -> number.

(** [esc(str)]; [String(...)] may throw. *)
Definition esc (str : value) : completion string :=
  match ToString h (match str with VUndefined | VNull => VStr "" | v => v end) with
  | Throw e => Throw e
  | Normal text => Normal (fst (replace text re_esc entity))
  end.

(** How the handler of the import file ends: with the number of records
    in the success message, with the message of an error it threw
    itself, or with an error raised by the calls it made (the handler
    catches both kinds and shows them as an import error). *)
Inductive import_outcome :=
| Imported (n : nat)
| Rejected (message : string)
| Raised (e : error).

(** The body of the [forEach] callback; [None] when the item passes. *)
Definition check_item (r : value) (i : N) : option import_outcome :=
  if negb (typeof_object r) || strict_equals r VNull
  then Some (Rejected ("Item " +:+ decimal i +:+ " is not an object"))
  else
    match Get r "amount" with
    | Throw e => Some (Raised e)
    | Normal a =>
        if strict_equals a VUndefined then
          match Get r "description" with
          | Throw e => Some (Raised e)
          | Normal d =>
              if strict_equals d VUndefined
              then Some (Rejected ("Item " +:+ decimal i +:+ " missing required fields"))
              else None
          end
        else None
    end.

Fixpoint check_items (items : list value) (i : N) : option import_outcome :=
  match items with
  | [] => None
  | r :: items' =>
      match check_item r i with
      | Some o => Some o
      | None => check_items items' (i + 1)
      end
  end.

(** The [onload] handler of the import, for the text of the file: what it
    reports and the module state as it leaves it. *)
Definition importFile (text : string) (st : store) : import_outcome * store :=
  match JSON_parse h text with
  | None => (Raised SyntaxError, st)
  | Some data =>
      match data with
      | VArr items =>
          match check_items items 0 with
          | Some o => (o, st)
          | None =>
              match replaceAll h storageAccepts data st with
              | (Normal true, st1) =>
                  match (current <- getRecords ;; render current) st1 with
                  | (Normal _, st2) => (Imported (length items), st2)
                  | (Throw e, st2) => (Raised e, st2)
                  end
              | (Normal false, st1) => (Rejected "Import failed", st1)
              | (Throw e, st1) => (Raised e, st1)
              end
          end
      | _ => (Rejected "Root must be an array", st)
      end
  end.

(** How the submit handler of the record form ends: with the message of
    [validateForm], or with one of its two success messages. *)
Inductive form_status :=
| FormError (message : string)
| RecordUpdated
| RecordAdded.

(** The object that the handler passes to [addRecord] and to
    [updateRecord]. *)
Definition form_data (f : Validators.form) : value :=
  VObj (<["description" := VStr (Str.trim (Validators.desc f))]>
       (<["amount" := VNum (toNumber (Validators.parseFloat (Validators.amount f)))]>
       (<["category" := VStr (Str.trim (Validators.category f))]>
       (<["date" := VStr (Validators.date f)]> ∅)))).

(** The submit handler of the record form, for the values of the four
    inputs and the [editId] of the form ([None] when it has none). *)
Definition submitForm (f : Validators.form) (editId : option string) : M form_status :=
  match Validators.validateForm
          {| Validators.desc := Str.trim (Validators.desc f);
             Validators.amount := Validators.amount f;
             Validators.category := Str.trim (Validators.category f);
             Validators.date := Validators.date f |} with
  | Some message => ret (FormError message)
  | None =>
      match editId with
      | Some id =>
          if Str.isEmpty id then addRecord h storageAccepts (form_data f) ;; ret RecordAdded
          else updateRecord h storageAccepts (VStr id) (form_data f) ;; ret RecordUpdated
      | None => addRecord h storageAccepts (form_data f) ;; ret RecordAdded
      end
  end.

(** How the input handler of the search box ends: with the message
    "Invalid regex pattern." and the table left as it was, or with the
    status text set and [renderRecords] called with the records found and
    the matcher (the rendering itself is not embedded). *)
Inductive search_outcome :=
| InvalidPattern
| Rendered (results : list value) (re : option RegExp) (status : string).

(** The input handler of the search box, for the text of the box and the
    records that [getRecords] returns. *)
Definition searchInput (text : string) (all : list value) : completion search_outcome :=
  match compileRegex parsePattern text (Some "i") with
  | Throw e => Throw e
  | Normal re =>
      match filterRecords h all re with
      | (Throw e, _) => Throw e
      | (Normal results, re') =>
          if negb (Str.isEmpty text) && match re with None => true | Some _ => false end
          then Normal InvalidPattern
          else
            Normal (Rendered results re'
              (match re with
               | Some _ =>
                   decimal (N.of_nat (length results)) +:+ " of " +:+
                   decimal (N.of_nat (length all)) +:+ " records match."
               | None => ""
               end))
      end
  end.

End Ui.

End Ui.

(** * Properties *)

(** ** The matcher *)

Module RegexFacts.

Import Chars Regex.

Definition step (ch : ascii) (rest : list ascii) (x : mstate) : mstate :=
  MState (ch :: before x) rest (captures x).

Section Sound.
Variable fl : mflags.

Inductive matches : regex -> mstate -> mstate -> Prop :=
| M_empty x : matches Empty x x
| M_char c x ch rest :
    after x = ch :: rest ->
    found_in fl (fun a => (code a =? code c)%N) ch = true ->
    matches (Char c) x (step ch rest x)
| M_dot x ch rest :
    after x = ch :: rest ->
    found_in fl (fun a => dotAll fl || negb (isLineTerminator a)) ch = true ->
    matches Dot x (step ch rest x)
| M_esc e x ch rest :
    after x = ch :: rest ->
    found_in fl (escape_mem e) ch = true ->
    matches (Esc e) x (step ch rest x)
| M_class invert atoms x ch rest :
    after x = ch :: rest ->
    found_in fl (set_mem atoms) ch = negb invert ->
    matches (Class invert atoms) x (step ch rest x)
| M_seq r1 r2 x y z :
    matches r1 x y -> matches r2 y z -> matches (Seq r1 r2) x z
| M_alt_l r1 r2 x y : matches r1 x y -> matches (Alt r1 r2) x y
| M_alt_r r1 r2 x y : matches r2 x y -> matches (Alt r1 r2) x y
| M_rep_done min max greedy r x :
    min = 0 \/ max = Some 0 -> matches (Repeat min max greedy r) x x
| M_rep_step min max greedy r x y z :
    max <> Some 0 ->
    matches r (clear_captures (groups r) x) y ->
    (min = 0 -> endIndex y <> endIndex x) ->
    matches (Repeat (Nat.pred min) (option_map Nat.pred max) greedy r) y z ->
    matches (Repeat min max greedy r) x z
| M_group n r x y :
    matches r x y ->
    matches (Group n r) x
      (set_capture n (firstn (endIndex y - endIndex x) (after x)) y)
| M_backref_unset n x :
    lookup_capture n (captures x) = None -> matches (Backref n) x x
| M_backref n s x y :
    lookup_capture n (captures x) = Some s ->
    match_captured fl s x = Some y -> matches (Backref n) x y
| M_lookahead r x y :
    matcher fl r x Some = Some y ->
    matches (Lookahead false r) x (MState (before x) (after x) (captures y))
| M_lookahead_not r x :
    matcher fl r x Some = None -> matches (Lookahead true r) x x
| M_start x :
    match before x with
    | [] => true
    | p :: _ => multiline fl && isLineTerminator p
    end = true ->
    matches AssertStart x x
| M_end x :
    match after x with
    | [] => true
    | n :: _ => multiline fl && isLineTerminator n
    end = true ->
    matches AssertEnd x x
| M_boundary negative x :
    xorb (isWordCharAt (head (before x))) (isWordCharAt (head (after x)))
      = negb negative ->
    matches (WordBoundary negative) x x.

Definition sound_for (m : mstate -> (mstate -> option mstate) -> option mstate)
    (R : mstate -> mstate -> Prop) : Prop :=
  forall x c z, m x c = Some z -> exists y, R x y /\ c y = Some z.

Lemma charSetMatcher_inv A invert x c z :
  charSetMatcher fl A invert x c = Some z ->
  exists ch rest, after x = ch :: rest /\ found_in fl A ch = negb invert /\
    c (step ch rest x) = Some z.
Proof.
  unfold charSetMatcher. destruct (after x) as [|ch rest]; [discriminate|].
  destruct (eqb invert (found_in fl A ch)) eqn:E; [discriminate|].
  intros H. exists ch, rest. split; [reflexivity|]. split; [|exact H].
  destruct invert, (found_in fl A ch); simpl in *; congruence.
Qed.

Lemma orElse_inv a b z :
  orElse a b = Some z -> a = Some z \/ (a = None /\ b tt = Some z).
Proof. destruct a; simpl; intros H; [left; exact H | right; auto]. Qed.

Lemma repeatMatcher_sound r greedy c :
  sound_for (matcher fl r) (matches r) ->
  forall fuel min max x z,
    repeatMatcher (matcher fl r) (groups r) greedy c fuel min max x = Some z ->
    exists y, matches (Repeat min max greedy r) x y /\ c y = Some z.
Proof.
  intros IHr. induction fuel as [|fuel IH]; intros min max x z H.
  - simpl in H. destruct max as [[|k]|]; try discriminate.
    exists x. split; [constructor; auto | exact H].
  - cbn [repeatMatcher] in H.
    assert (Hdone : c x = Some z ->
      min = 0 \/ max = Some 0 ->
      exists y, matches (Repeat min max greedy r) x y /\ c y = Some z).
    { intros Hc Hm. exists x. split; [constructor; exact Hm | exact Hc]. }
    assert (Hstep : max <> Some 0 ->
      matcher fl r (clear_captures (groups r) x)
        (fun y => if (min =? 0)%nat && (endIndex y =? endIndex x)%nat then None
                  else repeatMatcher (matcher fl r) (groups r) greedy c fuel
                         (Nat.pred min) (option_map Nat.pred max) y) = Some z ->
      exists y, matches (Repeat min max greedy r) x y /\ c y = Some z).
    { intros Hmax Hm. apply IHr in Hm as (y & Hy & Hd).
      destruct ((min =? 0)%nat && (endIndex y =? endIndex x)%nat) eqn:E; [discriminate|].
      apply IH in Hd as (y' & Hy' & Hc). exists y'. split; [|exact Hc].
      eapply M_rep_step; eauto.
      intros -> Heq. simpl in E. apply Nat.eqb_neq in E. contradiction. }
    destruct max as [[|k]|].
    + apply Hdone; auto.
    + destruct (min =? 0)%nat eqn:Emin; cbn [negb] in H.
      * apply Nat.eqb_eq in Emin. destruct greedy.
        -- apply orElse_inv in H as [H|[_ H]]; [apply Hstep; [discriminate|]|apply Hdone; auto].
           rewrite Emin in *. exact H.
        -- apply orElse_inv in H as [H|[_ H]]; [apply Hdone; auto|apply Hstep; [discriminate|]].
           rewrite Emin in *. exact H.
      * apply Hstep; [discriminate|]. exact H.
    + destruct (min =? 0)%nat eqn:Emin; cbn [negb] in H.
      * apply Nat.eqb_eq in Emin. destruct greedy.
        -- apply orElse_inv in H as [H|[_ H]]; [apply Hstep; [discriminate|]|apply Hdone; auto].
           rewrite Emin in *. exact H.
        -- apply orElse_inv in H as [H|[_ H]]; [apply Hdone; auto|apply Hstep; [discriminate|]].
           rewrite Emin in *. exact H.
      * apply Hstep; [discriminate|]. exact H.
Qed.

Theorem matcher_sound r : sound_for (matcher fl r) (matches r).
Proof.
  induction r as [|ch0| |e|inv atoms|r1 IHr1 r2 IHr2|r1 IHr1 r2 IHr2|min max greedy r IHr
                  |n r IHr|n|negative r IHr| | |negative];
    intros x c z H; cbn [matcher] in H.
  - exists x. split; [constructor | exact H].
  - apply charSetMatcher_inv in H as (ch & rest & Ha & Hf & Hc).
    exists (step ch rest x). split; [econstructor; eauto | exact Hc].
  - apply charSetMatcher_inv in H as (ch & rest & Ha & Hf & Hc).
    exists (step ch rest x). split; [econstructor; eauto | exact Hc].
  - apply charSetMatcher_inv in H as (ch & rest & Ha & Hf & Hc).
    exists (step ch rest x). split; [econstructor; eauto | exact Hc].
  - apply charSetMatcher_inv in H as (ch & rest & Ha & Hf & Hc).
    exists (step ch rest x). split; [econstructor; eauto | exact Hc].
  - apply IHr1 in H as (y & Hy & H). apply IHr2 in H as (y' & Hy' & H).
    exists y'. split; [econstructor; eauto | exact H].
  - apply orElse_inv in H as [H|[_ H]].
    + apply IHr1 in H as (y & Hy & H). exists y. split; [apply M_alt_l; exact Hy | exact H].
    + apply IHr2 in H as (y & Hy & H). exists y. split; [apply M_alt_r; exact Hy | exact H].
  - eapply repeatMatcher_sound; eauto.
  - apply IHr in H as (y & Hy & H). eexists. split; [apply M_group; exact Hy | exact H].
  - destruct (lookup_capture n (captures x)) eqn:E.
    + destruct (match_captured fl l x) as [y|] eqn:E2; [|discriminate].
      exists y. split; [eapply M_backref; eauto | exact H].
    + exists x. split; [apply M_backref_unset; exact E | exact H].
  - destruct (matcher fl r x Some) eqn:E.
    + destruct negative; [discriminate|].
      eexists. split; [apply M_lookahead; exact E | exact H].
    + destruct negative; [|discriminate].
      exists x. split; [apply M_lookahead_not; exact E | exact H].
  - exists x. split; [|destruct (before x) as [|p ?]; [exact H|destruct (multiline fl && isLineTerminator p); [exact H|discriminate]]].
    constructor. destruct (before x) as [|p ?]; [reflexivity|].
    destruct (multiline fl && isLineTerminator p); [reflexivity|discriminate].
  - exists x. split; [|destruct (after x) as [|p ?]; [exact H|destruct (multiline fl && isLineTerminator p); [exact H|discriminate]]].
    constructor. destruct (after x) as [|p ?]; [reflexivity|].
    destruct (multiline fl && isLineTerminator p); [reflexivity|discriminate].
  - destruct (eqb _ negative) eqn:E in H; [discriminate|].
    exists x. split; [|exact H]. constructor.
    destruct (xorb _ _), negative; simpl in *; congruence.
Qed.

End Sound.

Lemma code_inj a b : (code a =? code b)%N = true -> a = b.
Proof.
  intros H. apply N.eqb_eq in H. unfold code in H.
  rewrite <- (ascii_N_embedding a), <- (ascii_N_embedding b). congruence.
Qed.

Section Inversion.
Variable fl : mflags.

Lemma matches_seq_inv r1 r2 x z :
  matches fl (Seq r1 r2) x z -> exists y, matches fl r1 x y /\ matches fl r2 y z.
Proof. inversion 1; subst; eauto. Qed.

Lemma matches_alt_inv r1 r2 x y :
  matches fl (Alt r1 r2) x y -> matches fl r1 x y \/ matches fl r2 x y.
Proof. inversion 1; subst; auto. Qed.

Lemma matches_empty_inv x y : matches fl Empty x y -> y = x.
Proof. inversion 1; subst; auto. Qed.

Lemma matches_char_inv c x y :
  matches fl (Char c) x y ->
  exists ch rest, after x = ch :: rest /\
    found_in fl (fun a => (code a =? code c)%N) ch = true /\ y = step ch rest x.
Proof. inversion 1; subst; eauto. Qed.

Lemma matches_dot_inv x y :
  matches fl Dot x y ->
  exists ch rest, after x = ch :: rest /\
    found_in fl (fun a => dotAll fl || negb (isLineTerminator a)) ch = true /\
    y = step ch rest x.
Proof. inversion 1; subst; eauto. Qed.

Lemma matches_esc_inv e x y :
  matches fl (Esc e) x y ->
  exists ch rest, after x = ch :: rest /\
    found_in fl (escape_mem e) ch = true /\ y = step ch rest x.
Proof. inversion 1; subst; eauto. Qed.

Lemma matches_class_inv invert atoms x y :
  matches fl (Class invert atoms) x y ->
  exists ch rest, after x = ch :: rest /\
    found_in fl (set_mem atoms) ch = negb invert /\ y = step ch rest x.
Proof. inversion 1; subst; eauto. Qed.

Lemma matches_group_inv n r x z :
  matches fl (Group n r) x z ->
  exists y, matches fl r x y /\
    z = set_capture n (firstn (endIndex y - endIndex x) (after x)) y.
Proof. inversion 1; subst; eauto. Qed.

Lemma matches_repeat_inv min max greedy r x z :
  matches fl (Repeat min max greedy r) x z ->
  ((min = 0 \/ max = Some 0) /\ z = x) \/
  (max <> Some 0 /\
   exists y, matches fl r (clear_captures (groups r) x) y /\
     (min = 0 -> endIndex y <> endIndex x) /\
     matches fl (Repeat (Nat.pred min) (option_map Nat.pred max) greedy r) y z).
Proof. inversion 1; subst; [left; auto | right; eauto]. Qed.

Lemma matches_end_inv x y :
  matches fl AssertEnd x y ->
  y = x /\ match after x with
           | [] => true
           | n :: _ => multiline fl && isLineTerminator n
           end = true.
Proof. inversion 1; subst; auto. Qed.

Lemma matches_start_inv x y :
  matches fl AssertStart x y ->
  y = x /\ match before x with
           | [] => true
           | p :: _ => multiline fl && isLineTerminator p
           end = true.
Proof. inversion 1; subst; auto. Qed.

End Inversion.

Lemma matches_star_esc fl greedy e x y :
  matches fl (Repeat 0 None greedy (Esc e)) x y ->
  exists ds, after x = ds ++ after y /\ forallb (found_in fl (escape_mem e)) ds = true.
Proof.
  intros H. remember (Repeat 0 None greedy (Esc e)) as r eqn:Er.
  induction H as [| | | | | | | | |min max g r x y z Hmax Hr _ Hne Hrest IH| | | | | | | |];
    try discriminate.
  - exists []. auto.
  - injection Er as -> -> -> ->. specialize (IH eq_refl) as (ds & Hds & Hall).
    apply matches_esc_inv in Hr as (ch & rest & Ha & Hf & ->).
    destruct x as [bef aft caps]. simpl in *. subst aft.
    exists (ch :: ds). simpl. rewrite Hds, Hf, Hall. auto.
Qed.

Lemma after_clear gs x : after (clear_captures gs x) = after x.
Proof. reflexivity. Qed.

Lemma forallb_pointwise {A} (f g : A -> bool) l :
  (forall a, f a = g a) -> forallb f l = forallb g l.
Proof. intros H. induction l; simpl; congruence. Qed.

Lemma scan_after_start fl r : multiline fl = false ->
  forall aft bef, bef <> [] -> scan fl (Seq AssertStart r) bef aft = None.
Proof.
  intros Hm aft. induction aft as [|a aft IH]; intros bef Hb.
  - simpl. destruct bef; [congruence|]. rewrite Hm. reflexivity.
  - simpl. destruct bef; [congruence|]. rewrite Hm. simpl. apply IH. congruence.
Qed.

Lemma scan_anchored fl r aft : multiline fl = false ->
  scan fl (Seq AssertStart r) [] aft =
  match matcher fl r (MState [] aft []) Some with
  | Some y => Some (0, y) | None => None end.
Proof.
  intros Hm. destruct aft as [|a aft]; simpl.
  - destruct (matcher fl r _ _); reflexivity.
  - destruct (matcher fl r _ _); [reflexivity|]. apply scan_after_start; [assumption|congruence].
Qed.

Lemma test_anchored r (f : Flags) s :
  global f = false -> sticky f = false -> multilineF f = false ->
  fst (test (mkRegExp (Seq AssertStart r) f) s) =
  match matcher (matcher_flags f) r (MState [] (Str.chars s) []) Some with
  | Some _ => true | None => false end.
Proof.
  intros Hg Hs Hm. unfold test, RegExpBuiltinExec. simpl. rewrite Hg, Hs. simpl.
  rewrite scan_anchored by assumption.
  destruct (matcher _ r _ _); reflexivity.
Qed.

(** star over a single-character matcher *)
Fixpoint star_run (fl : mflags) (A : ascii -> bool) (c : mstate -> option mstate)
    (bef aft : list ascii) (caps : list (nat * list ascii)) : option mstate :=
  match aft with
  | ch :: rest =>
      if found_in fl A ch
      then orElse (star_run fl A c (ch :: bef) rest caps) (fun _ => c (MState bef aft caps))
      else c (MState bef aft caps)
  | [] => c (MState bef [] caps)
  end.

Lemma filter_all {A} (l : list A) : List.filter (fun _ => true) l = l.
Proof. induction l; simpl; congruence. Qed.

Lemma clear_captures_nil x : clear_captures [] x = x.
Proof. destruct x. unfold clear_captures. simpl. rewrite filter_all. reflexivity. Qed.

Lemma star_charset fl A c : forall fuel bef aft caps,
  length aft < fuel ->
  repeatMatcher (charSetMatcher fl A false) [] true c fuel 0 None (MState bef aft caps)
  = star_run fl A c bef aft caps.
Proof.
  induction fuel as [|fuel IH]; intros bef aft caps Hlen; [lia|].
  cbn [repeatMatcher]. rewrite clear_captures_nil.
  unfold charSetMatcher. cbn [after before captures Nat.eqb negb andb].
  destruct aft as [|ch rest]; [reflexivity|].
  cbn [star_run]. destruct (found_in fl A ch); cbn [eqb]; [|reflexivity].
  unfold endIndex. cbn [before length].
  replace (S (length bef) =? length bef)%nat with false
    by (symmetry; apply Nat.eqb_neq; lia).
  cbn [option_map]. rewrite IH by (simpl in Hlen; lia). reflexivity.
Qed.

Lemma star_run_sound fl A c : forall aft bef caps z,
  star_run fl A c bef aft caps = Some z ->
  exists pre rest, aft = pre ++ rest /\ forallb (found_in fl A) pre = true /\
    c (MState (rev pre ++ bef) rest caps) = Some z.
Proof.
  induction aft as [|ch rest IH]; intros bef caps z H; simpl in H.
  - exists [], []. auto.
  - destruct (found_in fl A ch) eqn:E.
    + destruct (star_run fl A c (ch :: bef) rest caps) eqn:E2; simpl in H.
      * inversion H; subst. apply IH in E2 as (pre & rest' & -> & Hp & Hc).
        exists (ch :: pre), rest'. simpl. rewrite E, Hp. split; [reflexivity|split;[reflexivity|]].
        rewrite <- app_assoc. exact Hc.
      * exists [], (ch :: rest). auto.
    + exists [], (ch :: rest). auto.
Qed.

Lemma star_run_complete fl A c : forall pre rest bef caps,
  forallb (found_in fl A) pre = true ->
  c (MState (rev pre ++ bef) rest caps) <> None ->
  star_run fl A c bef (pre ++ rest) caps <> None.
Proof.
  induction pre as [|ch pre IH]; intros rest bef caps Hp Hc; simpl in *.
  - destruct rest as [|ch rest]; simpl; [exact Hc|].
    destruct (found_in fl A ch); [|exact Hc].
    destruct (star_run fl A c (ch :: bef) rest caps); simpl; [congruence|exact Hc].
  - apply andb_true_iff in Hp as [E Hp]. rewrite E.
    rewrite <- app_assoc in Hc. specialize (IH rest (ch :: bef) caps Hp Hc).
    destruct (star_run fl A c (ch :: bef) (pre ++ rest) caps); simpl; congruence.
Qed.

Lemma existsb_split {A} (f : A -> bool) l :
  existsb f l = true -> exists pre a rest, l = pre ++ a :: rest /\ f a = true.
Proof.
  induction l as [|a l IH]; simpl; [discriminate|].
  destruct (f a) eqn:E.
  - intros _. exists [], a, l. auto.
  - simpl. intros H. apply IH in H as (pre & b & rest & -> & Hb).
    exists (a :: pre), b, rest. auto.
Qed.

Lemma matcher_lookahead_seq fl r r2 x :
  matcher fl (Seq (Lookahead false r) (Seq r2 Empty)) x Some =
  match matcher fl r x Some with
  | Some y => matcher fl r2 (MState (before x) (after x) (captures y)) Some
  | None => None
  end.
Proof. reflexivity. Qed.


(** *** The count of RepeatMatcher is never used up *)

(** [y] is at or after the position of [x] in the same text. *)
Definition ahead (x y : mstate) : Prop :=
  exists w, after x = w ++ after y /\ before y = rev w ++ before x.

Lemma ahead_refl x : ahead x x.
Proof. exists []. auto. Qed.

Lemma ahead_trans x y z : ahead x y -> ahead y z -> ahead x z.
Proof.
  intros (w1 & H1 & H2) (w2 & H3 & H4). exists (w1 ++ w2).
  rewrite H1, H3, H4, H2, rev_app_distr, !app_assoc. auto.
Qed.

Lemma ahead_step x ch rest : after x = ch :: rest -> ahead x (step ch rest x).
Proof. intros H. exists [ch]. simpl. auto. Qed.

Lemma ahead_same_text x y :
  before y = before x -> after y = after x -> ahead x y.
Proof. intros H1 H2. exists []. simpl. auto. Qed.

Lemma ahead_from_same x x' y :
  before x' = before x -> after x' = after x -> ahead x' y -> ahead x y.
Proof. intros H1 H2 (w & H3 & H4). exists w. rewrite <- H1, <- H2. auto. Qed.

Lemma ahead_length x y :
  ahead x y ->
  length (after y) <= length (after x) /\
  (endIndex y <> endIndex x -> length (after y) < length (after x)).
Proof.
  intros (w & H1 & H2). unfold endIndex. rewrite H1, H2, !length_app, length_rev.
  split; [lia|]. intros H. destruct w; simpl in *; lia.
Qed.

(** A matcher is local when its result depends on its continuation only
    at the states at or after the one it starts from. *)
Definition local (m : mstate -> (mstate -> option mstate) -> option mstate) : Prop :=
  forall x d d', (forall y, ahead x y -> d y = d' y) -> m x d = m x d'.

Section Fuel.
Variable fl : mflags.

Lemma charSetMatcher_local A invert : local (charSetMatcher fl A invert).
Proof.
  intros x d d' H. unfold charSetMatcher.
  destruct (after x) as [|ch rest] eqn:E; [reflexivity|].
  destruct (eqb invert (found_in fl A ch)); [reflexivity|].
  apply (H (step ch rest x)). apply ahead_step. exact E.
Qed.

Lemma match_captured_ahead s : forall x y,
  match_captured fl s x = Some y -> ahead x y.
Proof.
  induction s as [|a s IH]; intros x y H; simpl in H.
  - injection H as <-. apply ahead_refl.
  - destruct (after x) as [|ch rest] eqn:E; [discriminate|].
    destruct (_ =? _)%N; [|discriminate].
    apply IH in H. eapply ahead_trans; [|exact H].
    apply (ahead_step x ch rest E).
Qed.

Lemma repeatMatcher_local m gs greedy :
  local m ->
  forall fuel min max x c c',
    (forall y, ahead x y -> c y = c' y) ->
    repeatMatcher m gs greedy c fuel min max x =
    repeatMatcher m gs greedy c' fuel min max x.
Proof.
  intros Hm. induction fuel as [|fuel IH]; intros min max x c c' H.
  - simpl. destruct max as [[|k]|]; auto using ahead_refl.
  - cbn [repeatMatcher].
    assert (Hx : c x = c' x) by auto using ahead_refl.
    assert (Hd : m (clear_captures gs x)
        (fun y => if (min =? 0)%nat && (endIndex y =? endIndex x)%nat then None
                  else repeatMatcher m gs greedy c fuel (Nat.pred min)
                         (option_map Nat.pred max) y) =
      m (clear_captures gs x)
        (fun y => if (min =? 0)%nat && (endIndex y =? endIndex x)%nat then None
                  else repeatMatcher m gs greedy c' fuel (Nat.pred min)
                         (option_map Nat.pred max) y)).
    { apply Hm. intros y Hy.
      destruct ((min =? 0)%nat && (endIndex y =? endIndex x)%nat); [reflexivity|].
      apply IH. intros z Hz. apply H.
      eapply ahead_trans; [|exact Hz].
      eapply ahead_from_same; [| |exact Hy]; reflexivity. }
    rewrite Hd, Hx. reflexivity.
Qed.

Theorem matcher_local r : local (matcher fl r).
Proof.
  induction r as [|ch0| |e|inv atoms|r1 IHr1 r2 IHr2|r1 IHr1 r2 IHr2|min max greedy r IHr
                  |n r IHr|n|negative r IHr| | |negative];
    intros x d d' H; cbn [matcher]; try (apply charSetMatcher_local; exact H).
  - apply H, ahead_refl.
  - apply IHr1. intros y Hy. apply IHr2. intros z Hz. apply H.
    eapply ahead_trans; eauto.
  - rewrite (IHr1 x d d' H), (IHr2 x d d' H). reflexivity.
  - apply repeatMatcher_local; assumption.
  - apply IHr. intros y Hy. apply H.
    eapply ahead_trans; [exact Hy|]. apply ahead_same_text; reflexivity.
  - destruct (lookup_capture n (captures x)); [|apply H, ahead_refl].
    destruct (match_captured fl l x) as [y|] eqn:E; [|reflexivity].
    apply H. eapply match_captured_ahead. exact E.
  - destruct (matcher fl r x Some); destruct negative; try reflexivity.
    + apply H. apply ahead_same_text; reflexivity.
    + apply H, ahead_refl.
  - destruct (before x) as [|p ?]; [apply H, ahead_refl|].
    destruct (multiline fl && isLineTerminator p); [apply H, ahead_refl | reflexivity].
  - destruct (after x) as [|p ?]; [apply H, ahead_refl|].
    destruct (multiline fl && isLineTerminator p); [apply H, ahead_refl | reflexivity].
  - destruct (eqb _ negative); [reflexivity | apply H, ahead_refl].
Qed.

(** With a local matcher, any two counts that are at least the minimum
    plus the length of the rest of the text plus one give the same
    result. *)
Lemma repeatMatcher_fuel m gs greedy c :
  local m ->
  forall fuel1 fuel2 min max x,
    min + S (length (after x)) <= fuel1 ->
    min + S (length (after x)) <= fuel2 ->
    repeatMatcher m gs greedy c fuel1 min max x =
    repeatMatcher m gs greedy c fuel2 min max x.
Proof.
  intros Hm. induction fuel1 as [|fuel1 IH]; intros fuel2 min max x H1 H2; [lia|].
  destruct fuel2 as [|fuel2]; [lia|].
  cbn [repeatMatcher].
  assert (Hd : m (clear_captures gs x)
      (fun y => if (min =? 0)%nat && (endIndex y =? endIndex x)%nat then None
                else repeatMatcher m gs greedy c fuel1 (Nat.pred min)
                       (option_map Nat.pred max) y) =
    m (clear_captures gs x)
      (fun y => if (min =? 0)%nat && (endIndex y =? endIndex x)%nat then None
                else repeatMatcher m gs greedy c fuel2 (Nat.pred min)
                       (option_map Nat.pred max) y)).
  { apply Hm. intros y Hy.
    destruct ((min =? 0)%nat && (endIndex y =? endIndex x)%nat) eqn:E; [reflexivity|].
    assert (Hy' : ahead x y) by (eapply ahead_from_same; [| |exact Hy]; reflexivity).
    destruct (ahead_length x y Hy') as [Hle Hlt].
    destruct min as [|min'].
    - cbn [Nat.eqb andb] in E. apply Nat.eqb_neq in E. specialize (Hlt E).
      apply IH; simpl in *; lia.
    - apply IH; simpl in *; lia. }
  rewrite Hd. reflexivity.
Qed.

(** The count that [matcher] gives RepeatMatcher can be replaced by any
    larger one. *)
Corollary matcher_repeat_fuel min max greedy r x c fuel :
  min + S (length (after x)) <= fuel ->
  matcher fl (Repeat min max greedy r) x c =
  repeatMatcher (matcher fl r) (groups r) greedy c fuel min max x.
Proof.
  intros H. cbn [matcher]. apply repeatMatcher_fuel; [apply matcher_local | lia | exact H].
Qed.

End Fuel.

End RegexFacts.

(** ** The validators *)

Module ValidatorsFacts.

Import Chars Regex Validators RegexFacts.

Definition fl0 := matcher_flags noFlags.

Definition is19 (c : ascii) : bool := in_range 49 57 c.

Inductive frac_shape : list ascii -> Prop :=
| frac_none : frac_shape []
| frac_one d : isDigit d = true -> frac_shape ["."%char; d]
| frac_two d1 d2 : isDigit d1 = true -> isDigit d2 = true -> frac_shape ["."%char; d1; d2].

Inductive amount_shape : list ascii -> Prop :=
| amt_zero fp : frac_shape fp -> amount_shape ("0"%char :: fp)
| amt_pos d ds fp :
    is19 d = true -> forallb isDigit ds = true -> frac_shape fp ->
    amount_shape (d :: ds ++ fp).

Lemma found_in_fl0 A ch : found_in fl0 A ch = A ch.
Proof. unfold found_in. simpl. apply orb_false_r. Qed.

Lemma matches_end_nil x y :
  matches fl0 (Seq AssertEnd Empty) x y -> after x = [].
Proof.
  intros H. apply matches_seq_inv in H as (y' & H & _).
  apply matches_end_inv in H as [_ H]. destruct (after x); [reflexivity|discriminate].
Qed.

Definition frac_re : regex :=
  Opt (Group 2 (Seq (lit ".") (Repeat 1 (Some 2) true (Esc CDigit)))).

Lemma digit_step_inv x y :
  matches fl0 (Esc CDigit) x y ->
  exists d rest, after x = d :: rest /\ isDigit d = true /\ after y = rest.
Proof.
  intros H. apply matches_esc_inv in H as (ch & rest & Ha & Hf & ->).
  rewrite found_in_fl0 in Hf. exists ch, rest. auto.
Qed.

Lemma frac_re_shape x y :
  matches fl0 (Seq frac_re (Seq AssertEnd Empty)) x y -> frac_shape (after x).
Proof.
  intros H. apply matches_seq_inv in H as (y1 & H & Hend).
  apply matches_end_nil in Hend.
  apply matches_repeat_inv in H as [[_ ->]|(_ & y2 & Hg & _ & Hrest)].
  { rewrite Hend. constructor. }
  cbn [Nat.pred option_map] in Hrest.
  apply matches_repeat_inv in Hrest as [[_ ->]|(Hmax & _)]; [|congruence].
  apply matches_group_inv in Hg as (y3 & Hg & ->). cbn [set_capture after] in Hend.
  apply matches_seq_inv in Hg as (y4 & Hdot & Hds).
  apply matches_char_inv in Hdot as (ch & rest & Ha & Hf & ->).
  rewrite found_in_fl0 in Hf. apply code_inj in Hf. subst ch.
  rewrite after_clear in Ha. rewrite Ha.
  apply matches_repeat_inv in Hds as [[[?|?] _]|(_ & y5 & Hd1 & _ & Hrest)];
    [discriminate|discriminate|].
  apply digit_step_inv in Hd1 as (d1 & rest1 & Ha1 & Hd1 & Hy5).
  cbn in Ha1. subst rest.
  cbn [Nat.pred option_map] in Hrest.
  apply matches_repeat_inv in Hrest as [[_ ->]|(_ & y6 & Hd2 & _ & Hrest)].
  { rewrite Hend in Hy5. subst rest1. apply frac_one. exact Hd1. }
  apply digit_step_inv in Hd2 as (d2 & rest2 & Ha2 & Hd2 & Hy6).
  rewrite after_clear, Hy5 in Ha2. subst rest1.
  cbn [Nat.pred option_map] in Hrest.
  apply matches_repeat_inv in Hrest as [[_ ->]|(Hmax & _)]; [|congruence].
  rewrite Hend in Hy6. subst rest2. rewrite Ha2. apply frac_two; assumption.
Qed.

Lemma amount_body_shape x y :
  matches fl0 amount_body x y -> amount_shape (after x).
Proof.
  intros H. unfold amount_body in H. cbn [seqs fold_right] in H.
  apply matches_seq_inv in H as (y1 & Hg & Htail).
  apply frac_re_shape in Htail.
  apply matches_group_inv in Hg as (y2 & Hg & ->). cbn [set_capture after] in Htail.
  apply matches_alt_inv in Hg as [Hz|Hp].
  - apply matches_char_inv in Hz as (ch & rest & Ha & Hf & ->).
    rewrite found_in_fl0 in Hf. apply code_inj in Hf. subst ch.
    rewrite Ha. apply amt_zero. exact Htail.
  - apply matches_seq_inv in Hp as (y3 & Hd & Hds).
    apply matches_class_inv in Hd as (ch & rest & Ha & Hf & ->).
    rewrite found_in_fl0 in Hf. cbn in Hf. rewrite orb_false_r in Hf.
    apply matches_star_esc in Hds as (ds & Hds & Hall).
    cbn in Hds. rewrite Ha, Hds. apply amt_pos; [exact Hf| |exact Htail].
    rewrite <- Hall. apply forallb_pointwise. intros c. symmetry. apply found_in_fl0.
Qed.

(** parseFloat on amounts *)

Lemma digit_not_space d : isDigit d = true -> isWhiteSpace d = false.
Proof.
  unfold isDigit, isWhiteSpace, in_range. intros H.
  apply andb_true_iff in H as [H1 H2]. apply N.leb_le in H1, H2.
  repeat (apply orb_false_iff; split); try apply andb_false_iff;
    try (apply N.eqb_neq; lia).
  right. apply N.leb_gt. lia.
Qed.

Lemma is19_digit d : is19 d = true -> isDigit d = true.
Proof.
  unfold is19, isDigit, in_range. intros H.
  apply andb_true_iff in H as [H1 H2]. apply N.leb_le in H1, H2.
  apply andb_true_iff. split; apply N.leb_le; lia.
Qed.

Lemma is19_value d : isDigit d = true -> (is19 d = false <-> digit_value d = 0%N).
Proof.
  unfold is19, isDigit, in_range, digit_value. intros H.
  apply andb_true_iff in H as [H1 H2]. apply N.leb_le in H1, H2. split.
  - intros H. apply andb_false_iff in H as [H|H]; apply N.leb_gt in H; lia.
  - intros H. apply andb_false_iff. left. apply N.leb_gt. lia.
Qed.

Lemma span_digits_app ip fp :
  forallb isDigit ip = true ->
  match fp with [] => true | c :: _ => negb (isDigit c) end = true ->
  span_digits (ip ++ fp) = (ip, fp).
Proof.
  intros Hip Hfp. induction ip as [|d ip IH]; simpl in *.
  - destruct fp as [|c fp]; [reflexivity|]. simpl.
    apply negb_true_iff in Hfp. rewrite Hfp. reflexivity.
  - apply andb_true_iff in Hip as [Hd Hip]. rewrite Hd, (IH Hip). reflexivity.
Qed.

Lemma digits_value_zero ds : forallb isDigit ds = true ->
  forall acc, fold_left (fun a c => (10 * a + digit_value c)%N) ds acc = 0%N <->
              acc = 0%N /\ existsb is19 ds = false.
Proof.
  induction ds as [|d ds IH]; intros Hds acc; simpl in *.
  - intuition.
  - apply andb_true_iff in Hds as [Hd Hds]. rewrite (IH Hds).
    pose proof (is19_value d Hd) as Hv. rewrite orb_false_iff. split.
    + intros [H1 H2]. split; [lia|]. split; [apply Hv; lia | exact H2].
    + intros [H1 [H2 H3]]. apply Hv in H2. split; [lia | exact H3].
Qed.

Definition no_nonzero_digit (l : list ascii) : bool := negb (existsb is19 l).

Lemma digits_zero_test l :
  forallb isDigit l = true -> (digits_value l =? 0)%N = no_nonzero_digit l.
Proof.
  intros Hl. unfold digits_value, no_nonzero_digit.
  pose proof (digits_value_zero l Hl 0%N) as Hz.
  destruct (existsb is19 l); cbn [negb].
  - apply N.eqb_neq. intros H. apply Hz in H as [_ H]. discriminate.
  - apply N.eqb_eq. apply Hz. auto.
Qed.

Lemma strictly_equals_zero_small neg m e :
  (-2 <= e <= 0)%Z ->
  strictly_equals_zero (Decimal neg m e) = (m =? 0)%N.
Proof.
  intros He. unfold strictly_equals_zero.
  destruct (m =? 0)%N eqn:Em; [reflexivity|]. simpl.
  apply N.eqb_neq in Em.
  assert (Hp : (100 < 2 ^ 1075)%Z) by (apply Z.ltb_lt; vm_compute; reflexivity).
  assert (H10 : (10 ^ (- e) <= 100)%Z).
  { assert (e = 0 \/ e = -1 \/ e = -2)%Z as [->|[->| ->]] by lia; simpl; lia. }
  apply andb_false_iff. right. apply Z.leb_gt.
  generalize dependent (2 ^ 1075)%Z. intros p Hp. nia.
Qed.

Lemma unsigned_decimal_amount d ds fp :
  isDigit d = true -> forallb isDigit ds = true -> frac_shape fp ->
  strictly_equals_zero (unsigned_decimal false (d :: ds ++ fp))
  = no_nonzero_digit (d :: ds ++ fp).
Proof.
  intros Hd Hds Hfp.
  assert (Hc : (48 <= code d <= 57)%N).
  { unfold isDigit, in_range in Hd. apply andb_true_iff in Hd as [H1 H2].
    apply N.leb_le in H1, H2. lia. }
  unfold unsigned_decimal. cbn [starts_with Str.chars list_ascii_of_string].
  replace (code "I" =? code d)%N with false
    by (symmetry; apply N.eqb_neq; cbn; lia).
  cbn [andb].
  assert (Hip : forallb isDigit (d :: ds) = true) by (simpl; rewrite Hd, Hds; reflexivity).
  change (d :: ds ++ fp) with ((d :: ds) ++ fp).
  unfold no_nonzero_digit at 1. rewrite existsb_app.
  destruct Hfp as [|d1 Hd1|d1 d2 Hd1 Hd2].
  - rewrite span_digits_app by auto. cbn [app].
    rewrite strictly_equals_zero_small by lia. cbn [existsb]. rewrite orb_false_r.
    apply digits_zero_test. exact Hip.
  - rewrite span_digits_app by auto.
    change (code "." =? 46)%N with true. cbv iota.
    cbn [span_digits]. rewrite Hd1. cbn [span_digits exponent_part length].
    rewrite strictly_equals_zero_small by lia.
    rewrite digits_zero_test
      by (rewrite forallb_app, Hip; simpl; rewrite Hd1; reflexivity).
    unfold no_nonzero_digit. rewrite existsb_app. cbn [existsb].
    change (is19 ".") with false. reflexivity.
  - rewrite span_digits_app by auto.
    change (code "." =? 46)%N with true. cbv iota.
    cbn [span_digits]. rewrite Hd1, Hd2. cbn [span_digits exponent_part length].
    rewrite strictly_equals_zero_small by lia.
    rewrite digits_zero_test
      by (rewrite forallb_app, Hip; simpl; rewrite Hd1, Hd2; reflexivity).
    unfold no_nonzero_digit. rewrite existsb_app. cbn [existsb].
    change (is19 ".") with false. reflexivity.
Qed.

Lemma parseFloat_amount s :
  amount_shape (Str.chars s) ->
  strictly_equals_zero (parseFloat s) = no_nonzero_digit (Str.chars s).
Proof.
  unfold parseFloat. generalize (Str.chars s). intros l Hl.
  assert (Hparse : forall d ds fp, isDigit d = true -> forallb isDigit ds = true ->
    frac_shape fp -> l = d :: ds ++ fp ->
    strictly_equals_zero
      match Str.trimStart l with
      | [] => NaN
      | c :: l0 =>
          if (code c =? 45)%N then unsigned_decimal true l0
          else if (code c =? 43)%N then unsigned_decimal false l0
          else unsigned_decimal false (c :: l0)
      end = no_nonzero_digit l).
  { intros d ds fp Hd Hds Hfp ->. simpl Str.trimStart. rewrite (digit_not_space d Hd).
    assert (Hc : (48 <= code d <= 57)%N).
    { unfold isDigit, in_range in Hd. apply andb_true_iff in Hd as [H1 H2].
      apply N.leb_le in H1, H2. lia. }
    replace (code d =? 45)%N with false by (symmetry; apply N.eqb_neq; lia).
    replace (code d =? 43)%N with false by (symmetry; apply N.eqb_neq; lia).
    apply unsigned_decimal_amount; assumption. }
  destruct Hl as [fp Hfp|d ds fp Hd Hds Hfp].
  - apply (Hparse "0"%char [] fp); auto.
  - apply (Hparse d ds fp); auto. apply is19_digit. exact Hd.
Qed.

Definition is_some {A} (o : option A) : bool :=
  match o with Some _ => true | None => false end.

Definition start_state (s : string) : mstate := MState [] (Str.chars s) [].

Lemma validate_amount_run s :
  validate "amount" s = is_some (matcher fl0 amount_body (start_state s) Some).
Proof.
  unfold validate. change (patterns "amount") with (Some re_amount).
  unfold re_amount. rewrite test_anchored by reflexivity. reflexivity.
Qed.

Definition lookahead_body : regex := Seq (Star Dot) (Class false [range "1" "9"]).

Lemma validate_nonZeroAmount_run s :
  validate "nonZeroAmount" s =
  match matcher fl0 lookahead_body (start_state s) Some with
  | Some y => is_some (matcher fl0 amount_body (MState [] (Str.chars s) (captures y)) Some)
  | None => false
  end.
Proof.
  unfold validate. change (patterns "nonZeroAmount") with (Some re_nonZeroAmount).
  unfold re_nonZeroAmount. cbn [seqs fold_right]. rewrite test_anchored by reflexivity.
  fold lookahead_body. rewrite matcher_lookahead_seq. fold fl0. fold (start_state s).
  destruct (matcher fl0 lookahead_body (start_state s) Some); reflexivity.
Qed.

Lemma lookahead_body_run bef aft caps :
  matcher fl0 lookahead_body (MState bef aft caps) Some =
  star_run fl0 (fun a => dotAll fl0 || negb (isLineTerminator a))
    (fun y => charSetMatcher fl0 (set_mem [range "1" "9"]) false y Some) bef aft caps.
Proof.
  unfold lookahead_body, Star. cbn [matcher groups after Nat.add].
  apply (star_charset fl0 _ (fun y => charSetMatcher fl0 (set_mem [range "1" "9"]) false y Some)).
  lia.
Qed.

Lemma set_mem_19 ch : set_mem [range "1" "9"] ch = is19 ch.
Proof. cbn. apply orb_false_r. Qed.

Lemma lookahead_sound bef aft caps y :
  matcher fl0 lookahead_body (MState bef aft caps) Some = Some y ->
  captures y = caps /\ existsb is19 aft = true.
Proof.
  rewrite lookahead_body_run. intros H.
  apply star_run_sound in H as (pre & rest & -> & _ & H).
  unfold charSetMatcher in H. cbn [after before captures] in H.
  destruct rest as [|ch rest]; [discriminate|].
  rewrite found_in_fl0, set_mem_19 in H.
  destruct (is19 ch) eqn:E; cbn [eqb] in H; [|discriminate].
  injection H as <-. split; [reflexivity|].
  rewrite existsb_app. simpl. rewrite E. apply orb_true_iff. right. reflexivity.
Qed.

Lemma lookahead_complete bef aft caps :
  forallb (fun c => negb (isLineTerminator c)) aft = true ->
  existsb is19 aft = true ->
  matcher fl0 lookahead_body (MState bef aft caps) Some <> None.
Proof.
  intros Hlt Hex. rewrite lookahead_body_run.
  apply existsb_split in Hex as (pre & ch & rest & -> & Hch).
  apply star_run_complete.
  - rewrite forallb_app in Hlt. apply andb_true_iff in Hlt as [Hlt _].
    rewrite <- Hlt. apply forallb_pointwise. intros c. rewrite found_in_fl0. reflexivity.
  - unfold charSetMatcher. cbn [after]. rewrite found_in_fl0, set_mem_19, Hch.
    cbn. discriminate.
Qed.

Lemma digit_not_lt d : isDigit d = true -> isLineTerminator d = false.
Proof.
  unfold isDigit, isLineTerminator, in_range. intros H.
  apply andb_true_iff in H as [H1 H2]. apply N.leb_le in H1, H2.
  apply orb_false_iff. split; apply N.eqb_neq; lia.
Qed.

Lemma frac_shape_no_lt fp :
  frac_shape fp -> forallb (fun c => negb (isLineTerminator c)) fp = true.
Proof.
  intros [|d Hd|d1 d2 Hd1 Hd2]; simpl; [reflexivity| |].
  - rewrite (digit_not_lt d Hd). reflexivity.
  - rewrite (digit_not_lt d1 Hd1), (digit_not_lt d2 Hd2). reflexivity.
Qed.

Lemma amount_shape_no_lt l :
  amount_shape l -> forallb (fun c => negb (isLineTerminator c)) l = true.
Proof.
  intros [fp Hfp|d ds fp Hd Hds Hfp].
  - simpl. apply frac_shape_no_lt. exact Hfp.
  - cbn [forallb]. rewrite (digit_not_lt d (is19_digit d Hd)). cbn [negb andb].
    rewrite forallb_app, (frac_shape_no_lt fp Hfp), andb_true_r.
    apply forallb_forall. intros c Hc.
    rewrite forallb_forall in Hds. rewrite (digit_not_lt c (Hds c Hc)). reflexivity.
Qed.

Theorem nonZeroAmount_iff_parseFloat s :
  validate "amount" s = true ->
  validate "nonZeroAmount" s = negb (strictly_equals_zero (parseFloat s)).
Proof.
  intros Ha. rewrite validate_amount_run in Ha.
  destruct (matcher fl0 amount_body (start_state s) Some) as [z|] eqn:Erun; [|discriminate].
  pose proof Erun as Hshape.
  apply matcher_sound in Hshape as (y & Hshape & _).
  apply amount_body_shape in Hshape. cbn [start_state after] in Hshape.
  rewrite (parseFloat_amount s Hshape). unfold no_nonzero_digit. rewrite negb_involutive.
  rewrite validate_nonZeroAmount_run.
  destruct (matcher fl0 lookahead_body (start_state s) Some) as [y'|] eqn:El.
  - apply lookahead_sound in El as [-> ->]. fold (start_state s). rewrite Erun. reflexivity.
  - destruct (existsb is19 (Str.chars s)) eqn:E; [|reflexivity].
    exfalso. revert El. apply lookahead_complete; [|exact E].
    apply amount_shape_no_lt. exact Hshape.
Qed.


(** [test] does not change a RegExp that is neither global nor sticky. *)
Lemma test_stateless R s :
  global (flags R) = false -> sticky (flags R) = false -> snd (test R s) = R.
Proof.
  intros Hg Hs. unfold test, RegExpBuiltinExec. rewrite Hg, Hs. cbn [orb].
  destruct (length (Str.chars s) <? 0)%nat; [reflexivity|].
  destruct (scan _ _ _ _) as [[i y]|]; reflexivity.
Qed.

Lemma patterns_stateless field re :
  patterns field = Some re ->
  global (flags re) = false /\ sticky (flags re) = false.
Proof.
  unfold patterns.
  repeat (destruct (String.eqb field _); [intros [= <-]; split; reflexivity|]).
  discriminate.
Qed.

(** The validation order of the specification: the rules in their order,
    each with the message of its failure. *)
Definition validation_rules : list ((form -> bool) * string) :=
  [ (fun f => validate "description" (desc f), err_description);
    (fun f => validate "amount" (amount f), err_amount);
    (fun f => negb (strictly_equals_zero (parseFloat (amount f))), err_zero);
    (fun f => validate "category" (category f), err_category);
    (fun f => validate "date" (date f), err_date);
    (fun f => negb (validate "duplicateWord" (desc f)), err_duplicate) ].

(** The message of the first rule that fails, if any. *)
Fixpoint first_failure (rules : list ((form -> bool) * string)) (f : form)
    : option string :=
  match rules with
  | [] => None
  | (passes, message) :: rules' =>
      if passes f then first_failure rules' f else Some message
  end.

Lemma validateForm_eq_first_failure f :
  validateForm f = first_failure validation_rules f.
Proof.
  unfold validateForm, validation_rules, first_failure.
  destruct (validate "description" (desc f)); [|reflexivity].
  destruct (validate "amount" (amount f)); [|reflexivity].
  destruct (strictly_equals_zero (parseFloat (amount f))); [reflexivity|].
  destruct (validate "category" (category f)); [|reflexivity].
  destruct (validate "date" (date f)); [|reflexivity].
  destruct (validate "duplicateWord" (desc f)); reflexivity.
Qed.

(** C4: [validateForm] applies the rules in the order description, amount
    format, amount greater than zero, category, date, duplicated word,
    and returns the message of the first rule that fails, or [None] when
    all pass; the six messages are pairwise distinct.  A description
    "tea tea" with the other fields valid gives the duplicate-word message,
    an amount "0.00" gives the greater-than-zero message, "2026-02-30"
    passes the date rule, "Food-Delivery" passes the category rule and
    " Food" fails it. *)
Theorem validateForm_first_failure (f : form) :
  validateForm f = first_failure validation_rules f /\
  NoDup (map snd validation_rules) /\
  (desc f = "tea tea" ->
   validate "amount" (amount f) = true ->
   strictly_equals_zero (parseFloat (amount f)) = false ->
   validate "category" (category f) = true ->
   validate "date" (date f) = true ->
   validateForm f = Some err_duplicate) /\
  (validate "description" (desc f) = true ->
   amount f = "0.00" ->
   validateForm f = Some err_zero) /\
  validate "date" "2026-02-30" = true /\
  validate "category" "Food-Delivery" = true /\
  validate "category" " Food" = false.
Proof.
  split; [apply validateForm_eq_first_failure|].
  split.
  { cbn [map snd validation_rules]. compute_done. }
  split.
  { intros Hd Ha Hz Hc Hdt. unfold validateForm.
    rewrite Hd, Ha, Hz, Hc, Hdt. reflexivity. }
  split.
  { intros Hd Ha. unfold validateForm. rewrite Hd, Ha. reflexivity. }
  repeat split; reflexivity.
Qed.

Lemma validateForm_first_failure_witness :
  validateForm {| desc := "tea tea"; amount := "12.50";
                  category := "Food-Delivery"; date := "2026-02-30" |}
    = Some err_duplicate /\
  validateForm {| desc := "tea"; amount := "0.00";
                  category := " Food"; date := "2026-02-30" |}
    = Some err_zero.
Proof.
  split.
  - apply (validateForm_first_failure
             {| desc := "tea tea"; amount := "12.50";
                category := "Food-Delivery"; date := "2026-02-30" |});
      reflexivity.
  - apply (validateForm_first_failure
             {| desc := "tea"; amount := "0.00";
                category := " Food"; date := "2026-02-30" |});
      reflexivity.
Defined.

(** The check of [validateForm] and the catalogued pattern agree on every
    form. *)
Lemma validateForm_eq_catalogued f :
  validateForm f = validateForm_catalogued f.
Proof.
  unfold validateForm, validateForm_catalogued.
  destruct (validate "description" (desc f)); [|reflexivity]. cbn [negb].
  destruct (validate "amount" (amount f)) eqn:Ha; [|reflexivity]. cbn [negb].
  rewrite (nonZeroAmount_iff_parseFloat _ Ha), negb_involutive. reflexivity.
Qed.

(** C10: on every text that matches the amount pattern, the catalogued
    [nonZeroAmount] pattern matches exactly when [parseFloat] of the text
    is not zero; so [validateForm], which compares [parseFloat(amount)]
    with zero, returns what it would return with the catalogued pattern
    in that place. *)
Theorem nonZeroAmount_refines_parseFloat (s : string) :
  validate "amount" s = true ->
  (validate "nonZeroAmount" s = true <->
   strictly_equals_zero (parseFloat s) = false) /\
  (forall f, amount f = s -> validateForm f = validateForm_catalogued f).
Proof.
  intros Ha. split.
  - rewrite (nonZeroAmount_iff_parseFloat s Ha).
    destruct (strictly_equals_zero (parseFloat s)); simpl; split; congruence.
  - intros f _. apply validateForm_eq_catalogued.
Qed.

Lemma nonZeroAmount_refines_parseFloat_witness :
  validate "amount" "0.00" = true /\
  validate "nonZeroAmount" "0.00" = false /\
  (validate "nonZeroAmount" "0.00" = true <->
   strictly_equals_zero (parseFloat "0.00") = false).
Proof.
  split; [reflexivity|]. split; [reflexivity|].
  apply (nonZeroAmount_refines_parseFloat "0.00"). reflexivity.
Defined.

End ValidatorsFacts.

(** ** The search compiler *)

Module SearchFacts.

Import Chars Regex JS Search RegexFacts.

Lemma trimStart_whitespace l :
  forallb isWhiteSpace l = true -> Str.trimStart l = [].
Proof.
  induction l as [|c l IH]; simpl; [reflexivity|].
  intros H. apply andb_true_iff in H as [Hc Hl]. rewrite Hc. exact (IH Hl).
Qed.

Lemma trim_whitespace s :
  forallb isWhiteSpace (Str.chars s) = true -> Str.trim s = "".
Proof.
  intros H. unfold Str.trim. rewrite (trimStart_whitespace _ H). reflexivity.
Qed.

(** A sample parser: it accepts the patterns without syntax characters,
    which stand for themselves, and rejects every other text. *)
Definition isSyntaxCharacter (c : ascii) : bool :=
  existsb (fun d => (code c =? code d)%N) (Str.chars "^$\.*+?()[]{}|/").

Definition literal_pattern (p : string) (f : Flags) : option regex :=
  if existsb isSyntaxCharacter (Str.chars p) then None
  else Some (fold_right (fun c r => Seq (Char c) r) Empty (Str.chars p)).

Section Compile.

Variable parsePattern : string -> Flags -> option regex.

Lemma compileRegex_total input flags :
  exists r, compileRegex parsePattern input flags = Normal r.
Proof.
  unfold compileRegex.
  destruct (Str.isEmpty input || Str.isEmpty (Str.trim input)); [eauto|].
  destruct (RegExpCreate parsePattern (Str.trim input) (default "i" flags));
    simpl; eauto.
Qed.

(** A text that compiles gives a matcher with the flags asked for; the
    default is [i] alone, so the matcher is not global. *)
Lemma compileRegex_matcher input flags re :
  compileRegex parsePattern input flags = Normal (Some re) ->
  Str.isEmpty (Str.trim input) = false /\
  lastIndex re = 0 /\
  parseFlags (Str.chars (default "i" flags)) noFlags = Some (Regex.flags re) /\
  parsePattern (Str.trim input) (Regex.flags re) = Some (source re).
Proof.
  unfold compileRegex.
  destruct (Str.isEmpty input); [discriminate|]. cbn [orb].
  destruct (Str.isEmpty (Str.trim input)); [discriminate|].
  unfold RegExpCreate.
  destruct (parseFlags _ noFlags) as [f|]; [|discriminate].
  destruct (parsePattern (Str.trim input) f) as [r|] eqn:E; [|discriminate].
  cbn. intros [= <-]. cbn. auto.
Qed.

Lemma compileRegex_default_not_global input re :
  compileRegex parsePattern input None = Normal (Some re) ->
  Regex.flags re = flag_i.
Proof.
  intros H. apply compileRegex_matcher in H as (_ & _ & H & _).
  change (parseFlags (Str.chars (default "i" None)) noFlags) with (Some flag_i) in H.
  congruence.
Qed.

(** C3: [compileRegex] returns for every text and never throws; a text
    that is empty or all white space gives no matcher; a text that the
    RegExp constructor rejects (its pattern or its flags) gives no
    matcher; and [filterRecords] without a matcher returns the records it
    was given, in their order. *)
Theorem compileRegex_never_throws (input : string) (flags : option string) :
  (exists r, compileRegex parsePattern input flags = Normal r) /\
  (forallb isWhiteSpace (Str.chars input) = true ->
   compileRegex parsePattern input flags = Normal None) /\
  (forall f, parseFlags (Str.chars (default "i" flags)) noFlags = Some f ->
             parsePattern (Str.trim input) f = None ->
             compileRegex parsePattern input flags = Normal None) /\
  (forall e, RegExpCreate parsePattern (Str.trim input) (default "i" flags) = Throw e ->
             compileRegex parsePattern input flags = Normal None) /\
  (forall h records, filterRecords h records None = (Normal records, None)).
Proof.
  split; [apply compileRegex_total|].
  split.
  { intros H. unfold compileRegex. rewrite (trim_whitespace _ H).
    cbn. rewrite orb_true_r. reflexivity. }
  assert (Hthrow : forall e,
    RegExpCreate parsePattern (Str.trim input) (default "i" flags) = Throw e ->
    compileRegex parsePattern input flags = Normal None).
  { intros e H. unfold compileRegex. rewrite H.
    destruct (Str.isEmpty input || Str.isEmpty (Str.trim input)); reflexivity. }
  split; [|split; [exact Hthrow | reflexivity]].
  intros f Hf Hp. apply (Hthrow SyntaxError). unfold RegExpCreate.
  rewrite Hf, Hp. reflexivity.
Qed.

End Compile.

Lemma compileRegex_never_throws_witness :
  compileRegex literal_pattern "  " None = Normal None /\
  compileRegex literal_pattern "(tea" None = Normal None /\
  compileRegex literal_pattern "tea" (Some "ii") = Normal None.
Proof.
  split; [|split].
  - apply (compileRegex_never_throws literal_pattern "  " None). reflexivity.
  - apply (compileRegex_never_throws literal_pattern "(tea" None) with (f := flag_i);
      reflexivity.
  - apply (compileRegex_never_throws literal_pattern "tea" (Some "ii"))
      with (e := SyntaxError); reflexivity.
Defined.

Lemma scan_index fl r : forall aft bef i y,
  scan fl r bef aft = Some (i, y) -> i <= length bef + length aft.
Proof.
  induction aft as [|a aft IH]; intros bef i y H; simpl in H.
  - destruct (matcher fl r _ Some); [|discriminate].
    injection H as <- _. lia.
  - destruct (matcher fl r _ Some).
    + injection H as <- _. lia.
    + apply IH in H. simpl in *. lia.
Qed.

Lemma split_at_match (l : list ascii) i k :
  i <= length l ->
  l = firstn i l ++ firstn k (skipn i l) ++ skipn (i + length (firstn k (skipn i l))) l.
Proof.
  intros Hi. rewrite <- (firstn_skipn i l) at 1. f_equal.
  rewrite <- (firstn_skipn k (skipn i l)) at 1. f_equal.
  rewrite Nat.add_comm, <- skipn_skipn. 
  rewrite length_firstn.
  destruct (Nat.le_ge_cases k (length (skipn i l))) as [H|H].
  - rewrite Nat.min_l by exact H. reflexivity.
  - rewrite Nat.min_r by exact H.
    rewrite skipn_all, skipn_all2; [reflexivity | exact H].
Qed.

Lemma chars_of_chars s : Str.of_chars (Str.chars s) = s.
Proof. apply string_of_list_ascii_of_string. Qed.

(** With a matcher that is neither global nor sticky, [highlight] leaves
    the text as it is or wraps one occurrence. *)
Lemma highlight_not_global text R :
  global (Regex.flags R) = false -> sticky (Regex.flags R) = false ->
  fst (highlight text (Some R)) = text \/
  exists pre m post,
    Str.chars text = pre ++ m ++ post /\
    fst (highlight text (Some R)) = Str.of_chars (pre ++ mark m ++ post).
Proof.
  intros Hg Hs. unfold highlight.
  destruct (Str.isEmpty text); [left; reflexivity|].
  unfold replace. rewrite Hg. rewrite Nat.add_comm. cbn [Nat.add collect].
  unfold RegExpBuiltinExec. rewrite Hg, Hs. cbn [orb].
  cbn [Nat.ltb Nat.leb].
  change (rev (firstn 0 (Str.chars text))) with (@nil ascii).
  change (skipn 0 (Str.chars text)) with (Str.chars text).
  destruct (scan _ _ [] (Str.chars text)) as [[i y]|] eqn:E.
  - right. cbn [negb fst substitute index matched app].
    apply scan_index in E. cbn [length Nat.add] in E.
    rewrite Nat.min_l by exact E. cbn [Nat.leb]. rewrite Nat.sub_0_r.
    set (m := firstn (endIndex y - i) (skipn i (Str.chars text))).
    exists (firstn i (Str.chars text)), m,
           (skipn (i + length m) (Str.chars text)).
    split; [apply split_at_match; exact E|].
    rewrite <- app_assoc. reflexivity.
  - left. cbn. apply chars_of_chars.
Qed.

Lemma highlight_unchanged text re :
  re = None \/ text = "" -> fst (highlight text re) = text.
Proof.
  intros [->| ->]; [reflexivity|]. destruct re; reflexivity.
Qed.

(** C1: the matcher that [compileRegex] makes of the text "a" with its
    default flags is [/a/i], which is not global; [highlight] of "aa" with
    it wraps the first "a" only. *)
Theorem highlight_first_occurrence_only :
  compileRegex literal_pattern "a" None = Normal (Some (mkRegExp (Seq (Char "a") Empty) flag_i)) /\
  fst (highlight "aa" (Some (mkRegExp (Seq (Char "a") Empty) flag_i)))
    = mark_open +:+ "a" +:+ mark_close +:+ "a".
Proof. split; reflexivity. Qed.

End SearchFacts.

(** ** The record store *)

Module StateFacts.

Import Chars JS State.

(** *** Texts and identifiers *)

Lemma chars_append a b : Str.chars (a +:+ b) = Str.chars a ++ Str.chars b.
Proof. induction a as [|c a IH]; simpl; [reflexivity|]. f_equal. exact IH. Qed.

Lemma chars_of_chars_list l : Str.chars (Str.of_chars l) = l.
Proof. apply list_ascii_of_string_of_list_ascii. Qed.

Lemma isEmpty_append_r a b : Str.isEmpty b = false -> Str.isEmpty (a +:+ b) = false.
Proof. destruct a; simpl; auto. Qed.

Lemma toISOString_nonempty t : Str.isEmpty (Date.toISOString t) = false.
Proof.
  unfold Date.toISOString. destruct (Date.civil_from_days _) as [[y m] d].
  apply isEmpty_append_r. reflexivity.
Qed.

Lemma slice10_nonempty s : Str.isEmpty s = false -> Str.isEmpty (Date.slice10 s) = false.
Proof. destruct s; [discriminate|]. reflexivity. Qed.

Lemma make_id_nonempty t c : Str.isEmpty (make_id t c) = false.
Proof. reflexivity. Qed.

Definition digit36_value (ch : ascii) : N :=
  if (code ch <? 58)%N then (code ch - 48)%N else (code ch - 87)%N.

Lemma code_ascii_of_N n : (n < 256)%N -> code (ascii_of_N n) = n.
Proof. intros H. apply N_ascii_embedding. exact H. Qed.

Lemma digit36_value_digit36 d : (d < 36)%N -> digit36_value (digit36 d) = d.
Proof.
  intros H. unfold digit36_value, digit36.
  destruct (d <? 10)%N eqn:E.
  - apply N.ltb_lt in E. rewrite code_ascii_of_N by lia.
    replace (48 + d <? 58)%N with true by (symmetry; apply N.ltb_lt; lia). lia.
  - apply N.ltb_ge in E. rewrite code_ascii_of_N by lia.
    replace (87 + d <? 58)%N with false by (symmetry; apply N.ltb_ge; lia). lia.
Qed.

Lemma digit36_not_underscore d : (d < 36)%N -> digit36 d <> "_"%char.
Proof.
  intros H E. apply (f_equal code) in E. unfold digit36 in E.
  destruct (d <? 10)%N eqn:E10.
  - apply N.ltb_lt in E10. rewrite code_ascii_of_N in E by lia. cbn in E. lia.
  - apply N.ltb_ge in E10. rewrite code_ascii_of_N in E by lia. cbn in E. lia.
Qed.

Definition value36 (l : list ascii) (start : N) : N :=
  fold_left (fun a ch => (36 * a + digit36_value ch)%N) l start.

Lemma digits36_value : forall fuel n acc,
  (n < 2 ^ N.of_nat fuel)%N ->
  value36 (digits36 fuel n acc) 0 = value36 acc n.
Proof.
  induction fuel as [|fuel IH]; intros n acc Hn.
  - simpl in Hn. assert (n = 0%N) by lia. subst. reflexivity.
  - cbn [digits36].
    assert (Hmod : (n mod 36 < 36)%N) by (apply N.mod_lt; lia).
    destruct (n <? 36)%N eqn:E.
    + apply N.ltb_lt in E. unfold value36. cbn [fold_left].
      rewrite digit36_value_digit36 by exact Hmod.
      rewrite N.mod_small by exact E. reflexivity.
    + apply N.ltb_ge in E. rewrite IH.
      * unfold value36. cbn [fold_left].
        rewrite digit36_value_digit36 by exact Hmod.
        f_equal. pose proof (N.div_mod n 36). lia.
      * rewrite Nat2N.inj_succ, N.pow_succ_r' in Hn.
        apply N.Div0.div_lt_upper_bound; lia.
Qed.

Lemma digits36_no_underscore : forall fuel n acc,
  Forall (fun ch => ch <> "_"%char) acc ->
  Forall (fun ch => ch <> "_"%char) (digits36 fuel n acc).
Proof.
  induction fuel as [|fuel IH]; intros n acc Hacc; [exact Hacc|].
  cbn [digits36].
  assert (Hd : Forall (fun ch => ch <> "_"%char) (digit36 (n mod 36) :: acc)).
  { constructor; [|exact Hacc]. apply digit36_not_underscore. apply N.mod_lt. lia. }
  destruct (n <? 36)%N; [exact Hd | apply IH; exact Hd].
Qed.

Lemma log2_fuel n : (n < 2 ^ N.of_nat (S (N.to_nat (N.log2 n))))%N.
Proof.
  rewrite Nat2N.inj_succ, N2Nat.id.
  destruct n as [|p]; [reflexivity|]. apply N.log2_spec. lia.
Qed.

Lemma toString36_inj c c' : toString36 c = toString36 c' -> c = c'.
Proof.
  unfold toString36. intros H. apply (f_equal Str.chars) in H.
  rewrite !chars_of_chars_list in H.
  apply (f_equal (fun l => value36 l 0)) in H.
  rewrite !digits36_value in H by apply log2_fuel. exact H.
Qed.

Lemma suffix_after_last {A} (x : A) : forall l1 l1' l2 l2',
  l1 ++ x :: l2 = l1' ++ x :: l2' ->
  Forall (fun a => a <> x) l2 -> Forall (fun a => a <> x) l2' -> l2 = l2'.
Proof.
  induction l1 as [|a l1 IH]; intros [|a' l1'] l2 l2' H H2 H2'; simpl in H.
  - congruence.
  - injection H as <- ->. apply Forall_app in H2 as [_ H2].
    apply Forall_cons_iff in H2 as [H2 _]. congruence.
  - injection H as -> <-. apply Forall_app in H2' as [_ H2'].
    apply Forall_cons_iff in H2' as [H2' _]. congruence.
  - injection H as _ H. eapply IH; eauto.
Qed.

(** Identifiers with different counter parts differ, whatever the times. *)
Lemma make_id_inj t c t' c' : make_id t c = make_id t' c' -> c = c'.
Proof.
  unfold make_id. intros H. apply (f_equal Str.chars) in H.
  rewrite !chars_append in H.
  change (Str.chars "_") with ["_"%char] in H.
  rewrite !app_assoc in H. rewrite <- !(app_assoc _ ["_"%char]) in H.
  cbn [app] in H.
  apply suffix_after_last in H.
  - apply toString36_inj. rewrite <- (string_of_list_ascii_of_string (toString36 c)),
      <- (string_of_list_ascii_of_string (toString36 c')).
    unfold Str.chars in H. congruence.
  - unfold toString36. rewrite chars_of_chars_list. apply digits36_no_underscore. constructor.
  - unfold toString36. rewrite chars_of_chars_list. apply digits36_no_underscore. constructor.
Qed.

(** *** Records *)

(** The value of a field of an object. *)
Definition prop (m : gmap string value) (k : string) : value :=
  default VUndefined (m !! k).

(** A record as [normalise] makes it. *)
Definition is_record (v : value) : bool :=
  match v with
  | VObj m =>
      ToBoolean (prop m "id") &&
      match prop m "description" with VStr _ => true | _ => false end &&
      match prop m "amount" with
      | VNum S754_nan => false
      | VNum _ => true
      | _ => false
      end &&
      match prop m "category" with VStr _ => true | _ => false end &&
      ToBoolean (prop m "date") &&
      ToBoolean (prop m "createdAt") &&
      ToBoolean (prop m "updatedAt")
  | _ => false
  end.

(** The store holds records only. *)
Definition well_formed (st : store) : Prop :=
  Forall (fun r => is_record r = true) (records st).

(** Neither [null] nor [undefined]: a value whose properties can be
    read. *)
Definition not_nullish (v : value) : bool :=
  match v with VUndefined | VNull => false | _ => true end.

(** Whether the record [r] has the identifier [id]. *)
Definition has_id (id : value) (r : value) : bool :=
  match Get r "id" with
  | Normal v => strict_equals v id
  | Throw _ => false
  end.

(** No stored identifier has the form of a generated one with a counter
    part above the counter. *)
Definition generated_ids_bounded (st : store) : Prop :=
  forall r t c, In r (records st) ->
    Get r "id" = Normal (VStr (make_id t c)) -> (c <= counter st)%N.

(** Whether a conversion returns. *)
Definition returns {A} (c : completion A) : bool :=
  match c with
  | Normal _ => true
  | Throw _ => false
  end.

(** Whether [String(...)] and [Number(...)] return on the description,
    the amount and the category of an object, as [normalise] converts
    them. *)
Definition convertible (h : Host) (m : gmap string value) : bool :=
  returns (ToString h (or_else (prop m "description") (VStr ""))) &&
  returns (ToNumber h (prop m "amount")) &&
  returns (ToString h (or_else (prop m "category") (VStr "Other"))).

(** The properties that [normalise] finds on a value: those of an object;
    none of the record fields on a number, a text, a boolean or an
    array. *)
Definition fields_of (r : value) : gmap string value :=
  match r with
  | VObj m => m
  | _ => ∅
  end.

(** The values of which [normalise] makes a record. *)
Definition normalisable (h : Host) (r : value) : bool :=
  not_nullish r && convertible h (fields_of r).

(** The fields from which [updateRecord] makes the new record: the own
    properties of the stored record, overwritten by those of the
    update. *)
Definition merged_fields (updates old : value) : gmap string value :=
  own_properties (match updates with VUndefined => VObj ∅ | u => u end) ∪
  own_properties old.

(** What a step of the store leaves alone. *)
Definition frame (st st' : store) : Prop :=
  records st' = records st /\ storage st' = storage st /\
  (counter st <= counter st')%N /\ ticks st <= ticks st'.

(** What a reading of the clock leaves alone. *)
Definition clock_only (st st' : store) : Prop :=
  records st' = records st /\ storage st' = storage st /\
  counter st' = counter st /\ ticks st <= ticks st'.

Lemma clock_only_refl st : clock_only st st.
Proof. unfold clock_only. repeat split; lia. Qed.

Lemma clock_only_trans st1 st2 st3 :
  clock_only st1 st2 -> clock_only st2 st3 -> clock_only st1 st3.
Proof.
  unfold clock_only. intros (H1 & H2 & H3 & H4) (H5 & H6 & H7 & H8).
  repeat split; try congruence; lia.
Qed.

Lemma clock_only_frame st st' : clock_only st st' -> frame st st'.
Proof. unfold clock_only, frame. intros (H1 & H2 & H3 & H4). repeat split; auto; lia. Qed.

Lemma frame_refl st : frame st st.
Proof. unfold frame. repeat split; lia. Qed.

Lemma frame_trans st1 st2 st3 : frame st1 st2 -> frame st2 st3 -> frame st1 st3.
Proof.
  unfold frame. intros (H1 & H2 & H3 & H4) (H5 & H6 & H7 & H8).
  repeat split; try congruence; lia.
Qed.

Lemma increment_ge c : (c <= increment c)%N.
Proof. unfold increment. destruct (c <? 2 ^ 53)%N; lia. Qed.

Lemma is_record_not_nullish r : is_record r = true -> exists m, r = VObj m.
Proof. destruct r; try discriminate. eauto. Qed.

(** *** Steps of a computation *)

Lemma bind_lift {A B} (v : A) (k : A -> M B) st : bind (lift (Normal v)) k st = k v st.
Proof. reflexivity. Qed.

Lemma bind_lift_throw {A B} (e : error) (k : A -> M B) st :
  bind (lift (Throw e)) k st = (Throw e, st).
Proof. reflexivity. Qed.

Lemma bind_ret {A B} (v : A) (k : A -> M B) st : bind (ret v) k st = k v st.
Proof. reflexivity. Qed.

Lemma bind_run {A B} (m : M A) (k : A -> M B) st a st1 :
  m st = (Normal a, st1) -> bind m k st = k a st1.
Proof. intros E. unfold bind. rewrite E. reflexivity. Qed.

Lemma bind_throw {A B} (m : M A) (k : A -> M B) st e st1 :
  m st = (Throw e, st1) -> bind m k st = (Throw e, st1).
Proof. intros E. unfold bind. rewrite E. reflexivity. Qed.

(** *** Conversions *)

Section Conversions.

Variable h : Host.

(** The conversions throw nothing but a TypeError. *)
Lemma ToString_TypeError : forall v e, ToString h v = Throw e -> e = TypeError.
Proof.
  fix IH 1. intros v e. destruct v as [| |b|n|s|l|props]; cbn [ToString].
  - discriminate.
  - discriminate.
  - destruct b; discriminate.
  - discriminate.
  - discriminate.
  - set (elements := fix elements (l : list value) {struct l} : completion (list string) := _).
    assert (Hl : forall err, elements l = Throw err -> err = TypeError).
    { clear e. revert l. fix IHl 1. intros l err. destruct l as [|x l]; cbn.
      - discriminate.
      - pose proof (IHl l) as Hrest. pose proof (IH x) as Hx.
        destruct x as [| |b|n|s|l'|props].
        1-5: try destruct b;
          (destruct (elements l) as [ss|err']; [discriminate|];
           intros E; injection E as <-; apply Hrest; reflexivity).
        + destruct (ToString h (VArr l')) as [s|err'].
          * destruct (elements l) as [ss|err'']; [discriminate|].
            intros E; injection E as <-; apply Hrest; reflexivity.
          * intros E; injection E as <-. apply Hx. reflexivity.
        + destruct (ToString h (VObj props)) as [s|err'].
          * destruct (elements l) as [ss|err'']; [discriminate|].
            intros E; injection E as <-; apply Hrest; reflexivity.
          * intros E; injection E as <-. apply Hx. reflexivity. }
    destruct (elements l) as [parts|err]; [discriminate|].
    intros E; injection E as <-. apply Hl. reflexivity.
  - destruct (own_toString props); [|discriminate]. intros E; injection E as <-. reflexivity.
Qed.

Lemma ToNumber_TypeError v e : ToNumber h v = Throw e -> e = TypeError.
Proof.
  destruct v as [| |b|n|s|l|props]; cbn [ToNumber]; try discriminate.
  - destruct b; discriminate.
  - destruct (ToString h (VArr l)) as [s|err] eqn:Es; [discriminate|].
    intros E; injection E as <-. eapply ToString_TypeError. exact Es.
  - destruct (ToString h (VObj props)) as [s|err] eqn:Es; [discriminate|].
    intros E; injection E as <-. eapply ToString_TypeError. exact Es.
Qed.

(** On a primitive value they return. *)
Lemma ToString_primitive v : is_primitive v = true -> returns (ToString h v) = true.
Proof. destruct v as [| |[]| | | |]; try discriminate; reflexivity. Qed.

Lemma ToNumber_primitive v : is_primitive v = true -> returns (ToNumber h v) = true.
Proof. destruct v as [| |[]| | | |]; try discriminate; reflexivity. Qed.

Lemma returns_Normal {A} (c : completion A) : returns c = true -> exists a, c = Normal a.
Proof. destruct c; [eauto | discriminate]. Qed.

Lemma convertible_true m :
  convertible h m = true ->
  exists d a c,
    ToString h (or_else (prop m "description") (VStr "")) = Normal d /\
    ToNumber h (prop m "amount") = Normal a /\
    ToString h (or_else (prop m "category") (VStr "Other")) = Normal c.
Proof.
  unfold convertible. intros H.
  apply andb_true_iff in H as [H Hc]. apply andb_true_iff in H as [Hd Ha].
  apply returns_Normal in Hd as [d Hd]. apply returns_Normal in Ha as [a Ha].
  apply returns_Normal in Hc as [c Hc]. eauto 7.
Qed.

Lemma convertible_empty : convertible h ∅ = true.
Proof. reflexivity. Qed.

End Conversions.

Lemma prop_insert_eq m k v : prop (<[k := v]> m) k = v.
Proof. unfold prop. rewrite lookup_insert_eq. reflexivity. Qed.

Lemma prop_insert_ne m k k' v : k <> k' -> prop (<[k := v]> m) k' = prop m k'.
Proof. intros H. unfold prop. rewrite lookup_insert_ne by exact H. reflexivity. Qed.

(** A property other than the three converted ones does not matter. *)
Lemma convertible_insert h m k v :
  k <> "description" -> k <> "amount" -> k <> "category" ->
  convertible h (<[k := v]> m) = convertible h m.
Proof.
  intros H1 H2 H3. unfold convertible. rewrite !prop_insert_ne by assumption. reflexivity.
Qed.

Section Store.

Variable h : Host.
Variable storageAccepts : Storage.localStorage -> bool.

Lemma genId_run st :
  genId h st =
  (Normal (make_id (clock h (ticks st)) (increment (counter st))),
   {| records := records st; counter := increment (counter st);
      ticks := S (ticks st); storage := storage st |}).
Proof. reflexivity. Qed.

Lemma now_iso_run st :
  now_iso h st =
  (Normal (VStr (Date.toISOString (clock h (ticks st)))),
   {| records := records st; counter := counter st;
      ticks := S (ticks st); storage := storage st |}).
Proof. reflexivity. Qed.

(** [x || f()]: the value is truthy when [f] returns truthy values, and
    it is [x] itself, with no effect, when [x] is truthy. *)
Lemma or_else_call_run (R : store -> store -> Prop) x (f : M value) st :
  R st st ->
  (exists v st', f st = (Normal v, st') /\ ToBoolean v = true /\ R st st') ->
  exists v st',
    or_else_call x f st = (Normal v, st') /\ ToBoolean v = true /\ R st st' /\
    (ToBoolean x = true -> v = x /\ st' = st) /\
    (ToBoolean x = false -> f st = (Normal v, st')).
Proof.
  intros Hrefl (v & st' & Hf & Hv & Hfr). unfold or_else_call.
  destruct (ToBoolean x) eqn:E.
  - exists x, st. split; [reflexivity|]. split; [exact E|].
    split; [exact Hrefl|]. split; [auto | discriminate].
  - exists v, st'. split; [exact Hf|]. split; [exact Hv|].
    split; [exact Hfr|]. split; [discriminate | auto].
Qed.

Lemma genId_value_run st :
  exists v st',
    (s <- genId h ;; ret (VStr s)) st = (Normal v, st') /\
    ToBoolean v = true /\ frame st st'.
Proof.
  eexists _, _. split; [reflexivity|]. split; [reflexivity|].
  unfold frame. cbn. repeat split; [apply increment_ge | lia].
Qed.

Lemma now_iso_truthy st :
  exists v st', now_iso h st = (Normal v, st') /\ ToBoolean v = true /\ clock_only st st'.
Proof.
  eexists _, _. split; [apply now_iso_run|]. split.
  - unfold ToBoolean. rewrite toISOString_nonempty. reflexivity.
  - unfold clock_only. cbn. repeat split; lia.
Qed.

Lemma today_truthy st :
  exists v st',
    (t <- Date_now h ;; ret (VStr (Date.slice10 (Date.toISOString t)))) st
      = (Normal v, st') /\
    ToBoolean v = true /\ clock_only st st'.
Proof.
  eexists _, _. split; [reflexivity|]. split.
  - unfold ToBoolean. rewrite slice10_nonempty; [reflexivity | apply toISOString_nonempty].
  - unfold clock_only. cbn. repeat split; lia.
Qed.

Definition record_of (id : value) (description : string) (amount : number)
    (category : string) (date createdAt updatedAt : value) : value :=
  VObj (<["id" := id]>
       (<["description" := VStr description]>
       (<["amount" := VNum amount]>
       (<["category" := VStr category]>
       (<["date" := date]>
       (<["createdAt" := createdAt]>
       (<["updatedAt" := updatedAt]> ∅))))))).

Lemma number_or_zero_not_nan n : number_or_zero n <> S754_nan.
Proof. unfold number_or_zero. destruct n; cbn; discriminate. Qed.

Lemma is_record_record_of id d a c dt cr up :
  ToBoolean id = true -> a <> S754_nan -> ToBoolean dt = true ->
  ToBoolean cr = true -> ToBoolean up = true ->
  is_record (record_of id d a c dt cr up) = true.
Proof.
  intros Hid Ha Hdt Hcr Hup. unfold is_record, record_of, prop.
  simplify_map_eq. rewrite Hid, Hdt, Hcr, Hup.
  destruct a; try reflexivity. congruence.
Qed.

Lemma Get_record_of id d a c dt cr up :
  let r := record_of id d a c dt cr up in
  Get r "id" = Normal id /\ Get r "description" = Normal (VStr d) /\
  Get r "amount" = Normal (VNum a) /\ Get r "category" = Normal (VStr c) /\
  Get r "date" = Normal dt /\ Get r "createdAt" = Normal cr /\
  Get r "updatedAt" = Normal up.
Proof.
  cbv zeta. unfold record_of. cbn [Get].
  repeat split; simplify_map_eq; reflexivity.
Qed.

(** [normalise] of an object whose fields convert: the record that it
    returns, with the converted fields, and the identifier and the times
    that it keeps or draws. *)
Lemma normalise_object_form m st d a c :
  ToString h (or_else (prop m "description") (VStr "")) = Normal d ->
  ToNumber h (prop m "amount") = Normal a ->
  ToString h (or_else (prop m "category") (VStr "Other")) = Normal c ->
  exists id dt cr up st',
    normalise h (VObj m) st =
      (Normal (record_of id (Str.trim d) (number_or_zero a) (Str.trim c) dt cr up), st') /\
    ToBoolean id = true /\ ToBoolean dt = true /\
    ToBoolean cr = true /\ ToBoolean up = true /\
    frame st st' /\
    (ToBoolean (prop m "id") = true -> id = prop m "id" /\ clock_only st st') /\
    (ToBoolean (prop m "id") = false ->
       id = VStr (make_id (clock h (ticks st)) (increment (counter st))) /\
       counter st' = increment (counter st)) /\
    (ToBoolean (prop m "date") = true -> dt = prop m "date") /\
    (ToBoolean (prop m "createdAt") = true -> cr = prop m "createdAt") /\
    (ToBoolean (prop m "updatedAt") = true -> up = prop m "updatedAt").
Proof.
  intros Ed Ea Ec.
  unfold normalise. cbn [Get]. rewrite bind_lift. fold (prop m "id").
  destruct (or_else_call_run frame (prop m "id") (s <- genId h ;; ret (VStr s)) st
              (frame_refl st) (genId_value_run st))
    as (id & st1 & E1 & Tid & F1 & Kid & Gid).
  rewrite (bind_run _ _ _ _ _ E1).
  rewrite bind_lift. fold (prop m "description"). rewrite Ed, bind_lift.
  rewrite bind_lift. fold (prop m "amount"). rewrite Ea, bind_lift.
  rewrite bind_lift. fold (prop m "category"). rewrite Ec, bind_lift.
  rewrite bind_lift. fold (prop m "date").
  destruct (or_else_call_run clock_only (prop m "date")
              (t <- Date_now h ;; ret (VStr (Date.slice10 (Date.toISOString t)))) st1
              (clock_only_refl st1) (today_truthy st1))
    as (dt & st2 & E2 & Tdt & F2 & Kdt & _).
  rewrite (bind_run _ _ _ _ _ E2).
  rewrite bind_lift. fold (prop m "createdAt").
  destruct (or_else_call_run clock_only (prop m "createdAt") (now_iso h) st2
              (clock_only_refl st2) (now_iso_truthy st2))
    as (cr & st3 & E3 & Tcr & F3 & Kcr & _).
  rewrite (bind_run _ _ _ _ _ E3).
  rewrite bind_lift. fold (prop m "updatedAt").
  destruct (or_else_call_run clock_only (prop m "updatedAt") (now_iso h) st3
              (clock_only_refl st3) (now_iso_truthy st3))
    as (up & st4 & E4 & Tup & F4 & Kup & _).
  rewrite (bind_run _ _ _ _ _ E4). unfold ret.
  assert (F14 : clock_only st1 st4) by eauto using clock_only_trans.
  exists id, dt, cr, up, st4. split; [reflexivity|].
  do 4 (split; [assumption|]).
  split; [eauto using frame_trans, clock_only_frame|].
  split; [|split; [|split; [|split]]].
  - intros T. destruct (Kid T) as [-> ->]. split; [reflexivity | exact F14].
  - intros T. specialize (Gid T). cbn in Gid. injection Gid as <- <-.
    split; [reflexivity|]. destruct F14 as (_ & _ & -> & _). reflexivity.
  - intros T. apply Kdt. exact T.
  - intros T. apply Kcr. exact T.
  - intros T. apply Kup. exact T.
Qed.

(** [normalise] of an object whose fields convert returns a record; a
    truthy [id], [createdAt] or [updatedAt] of the object is kept, a falsy
    [id] is replaced by a generated one. *)
Lemma normalise_object m st :
  convertible h m = true ->
  exists rec st',
    normalise h (VObj m) st = (Normal rec, st') /\
    is_record rec = true /\ frame st st' /\
    (ToBoolean (prop m "id") = true ->
       Get rec "id" = Normal (prop m "id") /\ clock_only st st') /\
    (ToBoolean (prop m "id") = false ->
       Get rec "id" = Normal (VStr (make_id (clock h (ticks st)) (increment (counter st)))) /\
       counter st' = increment (counter st)) /\
    (ToBoolean (prop m "createdAt") = true ->
       Get rec "createdAt" = Normal (prop m "createdAt")) /\
    (ToBoolean (prop m "updatedAt") = true ->
       Get rec "updatedAt" = Normal (prop m "updatedAt")).
Proof.
  intros Hc. destruct (convertible_true h m Hc) as (d & a & c & Ed & Ea & Ec).
  destruct (normalise_object_form m st d a c Ed Ea Ec)
    as (id & dt & cr & up & st' & E & Tid & Tdt & Tcr & Tup & F & Kid & Gid & _ & Kcr & Kup).
  destruct (Get_record_of id (Str.trim d) (number_or_zero a) (Str.trim c) dt cr up)
    as (G1 & _ & _ & _ & _ & G6 & G7).
  eexists _, st'. split; [exact E|].
  split; [apply is_record_record_of; auto using number_or_zero_not_nan|].
  split; [exact F|].
  split; [|split; [|split]].
  - intros T. destruct (Kid T) as [<- C]. auto.
  - intros T. destruct (Gid T) as [<- C]. auto.
  - intros T. rewrite <- (Kcr T). exact G6.
  - intros T. rewrite <- (Kup T). exact G7.
Qed.

(** [normalise] of an object with a field that does not convert throws a
    TypeError; it may have drawn an identifier before. *)
Lemma normalise_object_throws m st :
  convertible h m = false ->
  exists st', normalise h (VObj m) st = (Throw TypeError, st') /\ frame st st'.
Proof.
  intros Hc.
  unfold normalise. cbn [Get]. rewrite bind_lift. fold (prop m "id").
  destruct (or_else_call_run frame (prop m "id") (s <- genId h ;; ret (VStr s)) st
              (frame_refl st) (genId_value_run st))
    as (id & st1 & E1 & Tid & F1 & _).
  rewrite (bind_run _ _ _ _ _ E1).
  rewrite bind_lift. fold (prop m "description").
  unfold convertible in Hc.
  destruct (ToString h (or_else (prop m "description") (VStr ""))) as [d|e] eqn:Ed.
  2: { rewrite bind_lift_throw. rewrite (ToString_TypeError h _ _ Ed). eauto. }
  rewrite bind_lift, bind_lift. fold (prop m "amount").
  destruct (ToNumber h (prop m "amount")) as [a|e] eqn:Ea.
  2: { rewrite bind_lift_throw. rewrite (ToNumber_TypeError h _ _ Ea). eauto. }
  rewrite bind_lift, bind_lift. fold (prop m "category").
  destruct (ToString h (or_else (prop m "category") (VStr "Other"))) as [c|e] eqn:Ec.
  2: { rewrite bind_lift_throw. rewrite (ToString_TypeError h _ _ Ec). eauto. }
  discriminate Hc.
Qed.

Lemma normalise_not_object r :
  match r with VUndefined | VNull | VObj _ => False | _ => True end ->
  normalise h r = normalise h (VObj ∅).
Proof. destruct r; intros []; reflexivity. Qed.

Lemma normalise_nullish r st :
  r = VUndefined \/ r = VNull -> normalise h r st = (Throw TypeError, st).
Proof. intros [-> | ->]; reflexivity. Qed.

Lemma normalise_as_object r :
  not_nullish r = true -> normalise h r = normalise h (VObj (fields_of r)).
Proof. intros H. destruct r; try discriminate H; reflexivity. Qed.

(** [normalise] returns a record on a value that is neither [null] nor
    [undefined] and whose fields convert, and throws a TypeError on every
    other value; in both cases the collection and the local store are as
    they were. *)
Lemma normalise_run r st :
  normalisable h r = true ->
  exists rec st', normalise h r st = (Normal rec, st') /\
    is_record rec = true /\ frame st st'.
Proof.
  unfold normalisable. intros H. apply andb_true_iff in H as [Hn Hc].
  rewrite (normalise_as_object r Hn).
  destruct (normalise_object _ st Hc) as (rec & st' & E & Hrec & F & _).
  eauto.
Qed.

Lemma normalise_throws r st :
  normalisable h r = false ->
  exists st', normalise h r st = (Throw TypeError, st') /\ frame st st'.
Proof.
  unfold normalisable. intros H. destruct (not_nullish r) eqn:Hn.
  - rewrite (normalise_as_object r Hn). apply normalise_object_throws. exact H.
  - exists st. split; [|apply frame_refl]. apply normalise_nullish.
    destruct r; try discriminate Hn; auto.
Qed.

(** *** addRecord *)

Lemma saveRecords_run st :
  saveRecords h storageAccepts st =
  (Normal tt,
   {| records := records st; counter := counter st; ticks := ticks st;
      storage := Storage.saveRecords h storageAccepts (VArr (records st)) (storage st) |}).
Proof. reflexivity. Qed.

Lemma increment_small c : (c < 2 ^ 53)%N -> increment c = (c + 1)%N.
Proof.
  intros H. unfold increment.
  replace (c <? 2 ^ 53)%N with true by (symmetry; apply N.ltb_lt; exact H).
  reflexivity.
Qed.

(** The object that [addRecord] passes to [normalise]. *)
Lemma addRecord_unfold (data : value) (st : store) :
  ToBoolean data = true -> typeof_object data = true ->
  addRecord h storageAccepts data st =
  (record <- normalise h
     (VObj (<["updatedAt" := VStr (Date.toISOString (clock h (S (S (ticks st)))))]>
           (<["createdAt" := VStr (Date.toISOString (clock h (S (ticks st))))]>
           (<["id" := VStr (make_id (clock h (ticks st)) (increment (counter st)))]>
              (own_properties data))))) ;;
   rs <- get_records ;;
   set_records (rs ++ [record]) ;;
   saveRecords h storageAccepts ;;
   ret record)
    {| records := records st; counter := increment (counter st);
       ticks := S (S (S (ticks st))); storage := storage st |}.
Proof.
  intros Hdata Hobj. unfold addRecord. rewrite Hdata, Hobj. cbn [negb orb].
  rewrite (bind_run _ _ _ _ _ (genId_run st)).
  rewrite (bind_run _ _ _ _ _ (now_iso_run _)). cbn [ticks records counter storage].
  rewrite (bind_run _ _ _ _ _ (now_iso_run _)). cbn [ticks records counter storage].
  reflexivity.
Qed.

Lemma convertible_addRecord data id cr up :
  convertible h (<["updatedAt" := up]> (<["createdAt" := cr]> (<["id" := id]>
                   (own_properties data)))) = convertible h (own_properties data).
Proof. rewrite !convertible_insert by discriminate. reflexivity. Qed.

(** [addRecord] of an object whose fields convert: the record it appends
    and returns. *)
Lemma addRecord_run (data : value) (st : store) :
  ToBoolean data = true -> typeof_object data = true ->
  convertible h (own_properties data) = true ->
  exists rec st',
    addRecord h storageAccepts data st = (Normal rec, st') /\
    records st' = records st ++ [rec] /\
    counter st' = increment (counter st) /\
    Get rec "id" = Normal (VStr (make_id (clock h (ticks st)) (increment (counter st)))) /\
    Get rec "createdAt" = Normal (VStr (Date.toISOString (clock h (S (ticks st))))) /\
    Get rec "updatedAt" = Normal (VStr (Date.toISOString (clock h (S (S (ticks st)))))) /\
    is_record rec = true /\
    storage st' = Storage.saveRecords h storageAccepts (VArr (records st')) (storage st).
Proof.
  intros Hdata Hobj Hconv. rewrite (addRecord_unfold data st Hdata Hobj).
  set (id := make_id (clock h (ticks st)) (increment (counter st))).
  set (created := VStr (Date.toISOString (clock h (S (ticks st))))).
  set (updated := VStr (Date.toISOString (clock h (S (S (ticks st)))))).
  set (m := <["updatedAt" := updated]>
            (<["createdAt" := created]> (<["id" := VStr id]> (own_properties data)))).
  set (st3 := {| records := records st; counter := increment (counter st);
                 ticks := S (S (S (ticks st))); storage := storage st |}).
  assert (Hm : convertible h m = true).
  { unfold m. rewrite convertible_addRecord. exact Hconv. }
  destruct (normalise_object m st3 Hm) as (rec & st4 & E & Hrec & F & Kid & _ & Kcr & Kup).
  assert (Pid : prop m "id" = VStr id).
  { unfold m. rewrite !prop_insert_ne by discriminate. apply prop_insert_eq. }
  assert (Pcr : prop m "createdAt" = created).
  { unfold m. rewrite prop_insert_ne by discriminate. apply prop_insert_eq. }
  assert (Pup : prop m "updatedAt" = updated).
  { unfold m. apply prop_insert_eq. }
  rewrite Pid in Kid. rewrite Pcr in Kcr. rewrite Pup in Kup.
  destruct (Kid eq_refl) as [Gid (R4 & S4 & C4 & T4)].
  assert (Gcr : Get rec "createdAt" = Normal created).
  { apply Kcr. unfold created, ToBoolean. rewrite toISOString_nonempty. reflexivity. }
  assert (Gup : Get rec "updatedAt" = Normal updated).
  { apply Kup. unfold updated, ToBoolean. rewrite toISOString_nonempty. reflexivity. }
  rewrite (bind_run _ _ _ _ _ E).
  unfold bind at 1. unfold get_records at 1.
  unfold bind at 1. unfold set_records at 1.
  unfold bind at 1. rewrite saveRecords_run. unfold ret.
  cbn [records counter ticks storage].
  unfold st3 in R4, S4, C4. cbn [records counter storage] in R4, S4, C4.
  eexists rec, _. split; [reflexivity|]. cbn [records counter storage].
  rewrite R4, S4, C4. repeat split; auto.
Qed.

(** A field that does not convert: [addRecord] throws a TypeError, after
    it has drawn an identifier; the collection and the local store are as
    they were. *)
Lemma addRecord_throws (data : value) (st : store) :
  ToBoolean data = true -> typeof_object data = true ->
  convertible h (own_properties data) = false ->
  exists st',
    addRecord h storageAccepts data st = (Throw TypeError, st') /\
    records st' = records st /\ storage st' = storage st.
Proof.
  intros Hdata Hobj Hconv. rewrite (addRecord_unfold data st Hdata Hobj).
  match goal with |- context [bind (normalise h (VObj ?m)) _ ?s] =>
    destruct (normalise_object_throws m s) as (st' & E & (R & S & _)) end.
  { rewrite convertible_addRecord. exact Hconv. }
  rewrite (bind_throw _ _ _ _ _ E). exists st'. auto.
Qed.

Lemma addRecord_well_formed (data : value) (st : store) :
  ToBoolean data = true -> typeof_object data = true ->
  convertible h (own_properties data) = true -> well_formed st ->
  well_formed (snd (addRecord h storageAccepts data st)).
Proof.
  intros Hdata Hobj Hconv Hwf.
  destruct (addRecord_run data st Hdata Hobj Hconv)
    as (rec & st' & E & Hrs & _ & _ & _ & _ & Hrec & _).
  rewrite E. cbn [snd]. unfold well_formed. rewrite Hrs.
  apply Forall_app. split; [exact Hwf | constructor; [exact Hrec | constructor]].
Qed.

Lemma addRecord_rejects (data : value) (st : store) :
  ToBoolean data = false \/ typeof_object data = false ->
  addRecord h storageAccepts data st = (Normal VNull, st).
Proof.
  intros [H|H]; unfold addRecord; rewrite H; cbn [negb orb];
    [|rewrite orb_true_r]; reflexivity.
Qed.

(** In a store whose counter is below 2^53 and in which no stored
    identifier is a generated one with a counter part above the counter
    (as in a store filled by [addRecord] alone), the record that
    [addRecord] returns has an identifier that differs from every stored
    one, whatever the clock reads, and the store keeps the property. *)
Lemma addRecord_fresh (data : value) (st : store) :
  ToBoolean data = true -> typeof_object data = true ->
  convertible h (own_properties data) = true ->
  (counter st < 2 ^ 53)%N -> generated_ids_bounded st ->
  exists rec st',
    addRecord h storageAccepts data st = (Normal rec, st') /\
    records st' = records st ++ [rec] /\
    counter st' = (counter st + 1)%N /\
    Get rec "id" = Normal (VStr (make_id (clock h (ticks st)) (counter st + 1))) /\
    (forall r, In r (records st) -> Get r "id" <> Get rec "id") /\
    Get rec "createdAt" = Normal (VStr (Date.toISOString (clock h (S (ticks st))))) /\
    Get rec "updatedAt" = Normal (VStr (Date.toISOString (clock h (S (S (ticks st)))))) /\
    is_record rec = true /\
    generated_ids_bounded st'.
Proof.
  intros Hdata Hobj Hconv Hc Hinv.
  destruct (addRecord_run data st Hdata Hobj Hconv)
    as (rec & st' & E & Hrs & Hcnt & Gid & Gcr & Gup & Hrec & _).
  rewrite (increment_small _ Hc) in Hcnt, Gid.
  exists rec, st'. split; [exact E|]. split; [exact Hrs|]. split; [exact Hcnt|].
  split; [exact Gid|].
  split.
  { intros r Hr Heq. rewrite Gid in Heq.
    pose proof (Hinv r _ _ Hr Heq) as Hle. lia. }
  split; [exact Gcr|]. split; [exact Gup|].
  split; [exact Hrec|].
  intros r t c Hr Hg. rewrite Hcnt. rewrite Hrs in Hr.
  apply in_app_iff in Hr as [Hr|[<-|[]]].
  - specialize (Hinv r t c Hr Hg). lia.
  - rewrite Gid in Hg.
    assert (Hm : make_id (clock h (ticks st)) (counter st + 1) = make_id t c)
      by congruence.
    apply make_id_inj in Hm. lia.
Qed.

(** *** updateRecord *)

Lemma number_eqb_truthy x y :
  number_eqb x y = true -> ToBoolean (VNum x) = true -> x = y.
Proof.
  unfold number_eqb, SFeqb.
  destruct x as [s| s| |s m e], y as [s0| s0| |s0 m0 e0]; simpl;
    intros H T; try discriminate H; try discriminate T;
    try (destruct s; discriminate H); try (destruct s0; discriminate H).
  - destruct s, s0; try discriminate H; reflexivity.
  - destruct s, s0; try discriminate H.
    + destruct (e ?= e0)%Z eqn:Ee; try discriminate H.
      apply Z.compare_eq in Ee. subst e0.
      destruct (Pos.compare_cont Eq m m0) eqn:Em; try discriminate H.
      apply Pos.compare_eq in Em. subst. reflexivity.
    + destruct (e ?= e0)%Z eqn:Ee; try discriminate H.
      apply Z.compare_eq in Ee. subst e0.
      destruct (Pos.compare_cont Eq m m0) eqn:Em; try discriminate H.
      apply Pos.compare_eq in Em. subst. reflexivity.
Qed.

Lemma number_eqb_truthy_r x y :
  number_eqb x y = true -> ToBoolean (VNum y) = true -> x = y.
Proof.
  unfold number_eqb, SFeqb.
  destruct x as [s| s| |s m e], y as [s0| s0| |s0 m0 e0]; simpl;
    intros H T; try discriminate H; try discriminate T;
    try (destruct s; discriminate H); try (destruct s0; discriminate H).
  - destruct s, s0; try discriminate H; reflexivity.
  - destruct s, s0; try discriminate H.
    + destruct (e ?= e0)%Z eqn:Ee; try discriminate H.
      apply Z.compare_eq in Ee. subst e0.
      destruct (Pos.compare_cont Eq m m0) eqn:Em; try discriminate H.
      apply Pos.compare_eq in Em. subst. reflexivity.
    + destruct (e ?= e0)%Z eqn:Ee; try discriminate H.
      apply Z.compare_eq in Ee. subst e0.
      destruct (Pos.compare_cont Eq m m0) eqn:Em; try discriminate H.
      apply Pos.compare_eq in Em. subst. reflexivity.
Qed.

Lemma strict_equals_truthy a b :
  strict_equals a b = true -> ToBoolean a = true -> a = b.
Proof.
  destruct a, b; simpl; intros H T; try discriminate H; try discriminate T.
  - apply eqb_prop in H. congruence.
  - f_equal. apply number_eqb_truthy; assumption.
  - apply String.eqb_eq in H. congruence.
Qed.

Lemma strict_equals_truthy_r a b :
  strict_equals a b = true -> ToBoolean b = true -> a = b.
Proof.
  destruct a, b; simpl; intros H T; try discriminate H; try discriminate T.
  - apply eqb_prop in H. congruence.
  - f_equal. apply number_eqb_truthy_r; assumption.
  - apply String.eqb_eq in H. congruence.
Qed.

(** The index of the first element that satisfies [p]. *)
Fixpoint first_index {A} (p : A -> bool) (l : list A) : option nat :=
  match l with
  | [] => None
  | a :: l' => if p a then Some 0 else option_map S (first_index p l')
  end.

Lemma first_index_Some {A} (p : A -> bool) l i :
  first_index p l = Some i ->
  exists a, l !! i = Some a /\ p a = true /\
    forall j b, j < i -> l !! j = Some b -> p b = false.
Proof.
  revert i. induction l as [|a l IH]; intros i H; simpl in H; [discriminate|].
  destruct (p a) eqn:E.
  - injection H as <-. exists a. split; [reflexivity|]. split; [exact E|]. intros; lia.
  - destruct (first_index p l) as [k|]; [|discriminate]. injection H as <-.
    destruct (IH k eq_refl) as (b & Hb & Hp & Hlt). exists b.
    split; [exact Hb|]. split; [exact Hp|].
    intros [|j] c Hj Hc; simpl in Hc; [congruence|]. apply (Hlt j); [lia | exact Hc].
Qed.

Lemma first_index_existsb {A} (p : A -> bool) l :
  existsb p l = match first_index p l with Some _ => true | None => false end.
Proof.
  induction l as [|a l IH]; simpl; [reflexivity|].
  destruct (p a); [reflexivity|]. simpl. rewrite IH.
  destruct (first_index p l); reflexivity.
Qed.

Lemma record_Get r k : is_record r = true -> exists m, r = VObj m /\ Get r k = Normal (prop m k).
Proof. destruct r; try discriminate. intros _. eauto. Qed.

(** A property of a value that is neither [null] nor [undefined] can be
    read. *)
Lemma Get_not_nullish r k :
  not_nullish r = true -> Get r k = Normal (prop (fields_of r) k).
Proof. destruct r; try discriminate; reflexivity. Qed.

Lemma is_record_not_null r : is_record r = true -> not_nullish r = true.
Proof. destruct r; try discriminate; reflexivity. Qed.

Lemma well_formed_not_nullish st :
  well_formed st -> forallb not_nullish (records st) = true.
Proof.
  unfold well_formed. intros H. apply forallb_forall. intros r Hr.
  rewrite Forall_forall in H. apply is_record_not_null. apply H.
  apply list_elem_of_In. exact Hr.
Qed.

Lemma findIndex_by_id_run id rs : forall i0,
  forallb not_nullish rs = true ->
  findIndex_by_id id rs i0 =
  Normal (option_map (Nat.add i0) (first_index (has_id id) rs)).
Proof.
  induction rs as [|r rs IH]; intros i0 H; simpl; [reflexivity|].
  simpl in H. apply andb_true_iff in H as [Hr Hrs].
  unfold has_id. rewrite (Get_not_nullish r "id" Hr).
  destruct (strict_equals _ id).
  - simpl. f_equal. f_equal. lia.
  - rewrite (IH _ Hrs). fold (has_id id). destruct (first_index (has_id id) rs); simpl;
      [f_equal; f_equal; lia | reflexivity].
Qed.


Lemma forallb_lookup {A} (p : A -> bool) (l : list A) i a :
  forallb p l = true -> l !! i = Some a -> p a = true.
Proof.
  intros H Ha. rewrite forallb_forall in H. apply H.
  apply list_elem_of_In. eapply list_elem_of_lookup_2. exact Ha.
Qed.



(** *** deleteRecord and getRecord *)


Lemma find_by_id_run id rs :
  forallb not_nullish rs = true ->
  find_by_id id rs = Normal (List.find (has_id id) rs).
Proof.
  induction rs as [|r rs IH]; intros H; simpl; [reflexivity|].
  simpl in H. apply andb_true_iff in H as [Hr Hrs].
  unfold has_id at 1. rewrite (Get_not_nullish r "id" Hr).
  destruct (strict_equals _ id); [reflexivity | exact (IH Hrs)].
Qed.





Lemma Forall_filter_bool {A} (P : A -> Prop) (p : A -> bool) l :
  Forall P l -> Forall P (List.filter p l).
Proof.
  induction 1 as [|a l Ha Hl IH]; simpl; [constructor|].
  destruct (p a); [constructor; assumption | assumption].
Qed.



(** *** replaceAll *)

(** A record that [normalise] makes of a value, in some state of the
    counter and of the clock. *)
Definition normalised_from (e rec : value) : Prop :=
  exists s s', normalise h e s = (Normal rec, s').

Lemma mapM_normalise_run elements : forall st,
  forallb (normalisable h) elements = true ->
  exists rs st',
    mapM (normalise h) elements st = (Normal rs, st') /\
    Forall (fun r => is_record r = true) rs /\
    Forall2 normalised_from elements rs /\ frame st st'.
Proof.
  induction elements as [|e elements IH]; intros st H.
  - exists [], st. simpl. repeat split; auto using frame_refl.
  - simpl in H. apply andb_true_iff in H as [He Hes].
    destruct (normalise_run e st He) as (rec & st1 & E1 & Hrec & F1).
    destruct (IH st1 Hes) as (rs & st2 & E2 & Hrs & Hfrom & F2).
    exists (rec :: rs), st2. cbn [mapM].
    rewrite (bind_run _ _ _ _ _ E1), (bind_run _ _ _ _ _ E2). unfold ret.
    split; [reflexivity|]. split; [constructor; assumption|].
    split; [constructor; [exists st, st1; exact E1 | exact Hfrom]|].
    eauto using frame_trans.
Qed.

Lemma mapM_normalise_throws elements : forall st,
  forallb (normalisable h) elements = false ->
  exists st', mapM (normalise h) elements st = (Throw TypeError, st') /\ frame st st'.
Proof.
  induction elements as [|e elements IH]; intros st H; [discriminate|].
  simpl in H. cbn [mapM]. destruct (normalisable h e) eqn:He.
  - destruct (normalise_run e st He) as (rec & st1 & E1 & _ & F1).
    destruct (IH st1 H) as (st2 & E2 & F2).
    rewrite (bind_run _ _ _ _ _ E1), (bind_throw _ _ _ _ _ E2).
    eauto using frame_trans.
  - destruct (normalise_throws e st He) as (st1 & E1 & F1).
    rewrite (bind_throw _ _ _ _ _ E1). eauto.
Qed.

Lemma replaceAll_run (elements : list value) (st : store) :
  forallb (normalisable h) elements = true ->
  exists st',
    replaceAll h storageAccepts (VArr elements) st = (Normal true, st') /\
    Forall2 normalised_from elements (records st') /\
    well_formed st' /\
    storage st' =
      Storage.saveRecords h storageAccepts (VArr (records st')) (storage st).
Proof.
  unfold replaceAll. intros H.
  destruct (mapM_normalise_run elements st H) as (rs & st1 & E & Hrs & Hfrom & F).
  rewrite (bind_run _ _ _ _ _ E).
  unfold bind at 1. unfold set_records at 1. unfold bind at 1.
  rewrite saveRecords_run. unfold ret. cbn [records counter ticks storage].
  destruct F as (_ & S & _).
  eexists. split; [reflexivity|]. cbn [records storage]. rewrite S.
  repeat split; assumption.
Qed.

Lemma replaceAll_throws (elements : list value) (st : store) :
  forallb (normalisable h) elements = false ->
  exists st',
    replaceAll h storageAccepts (VArr elements) st = (Throw TypeError, st') /\
    records st' = records st /\ storage st' = storage st.
Proof.
  unfold replaceAll. intros H.
  destruct (mapM_normalise_throws elements st H) as (st1 & E & (R & S & _)).
  rewrite (bind_throw _ _ _ _ _ E). eauto.
Qed.

(** C2, amended: [replaceAll] of a list whose elements are neither [null]
    nor [undefined] and have a description, an amount and a category that
    convert (as all primitive values do) makes a record of every element,
    each by itself, replaces the collection, writes it to the local store
    and returns [true]; of any other list it throws a TypeError and the
    collection and the local store are as they were. *)
Theorem replaceAll_normalises (elements : list value) (st : store) :
  (forallb (normalisable h) elements = true ->
   exists st',
     replaceAll h storageAccepts (VArr elements) st = (Normal true, st') /\
     Forall2 normalised_from elements (records st') /\
     well_formed st' /\
     storage st' =
       Storage.saveRecords h storageAccepts (VArr (records st')) (storage st)) /\
  (forallb (normalisable h) elements = false ->
   exists st',
     replaceAll h storageAccepts (VArr elements) st = (Throw TypeError, st') /\
     records st' = records st /\ storage st' = storage st).
Proof.
  split; [apply replaceAll_run | apply replaceAll_throws].
Qed.

(** C7: [replaceAll] of a value that is not an array returns [false] and
    the module state (collection, counter, clock and local store) is as it
    was. *)
Theorem replaceAll_rejects_non_list (v : value) (st : store) :
  isArray v = false ->
  replaceAll h storageAccepts v st = (Normal false, st).
Proof. destruct v; try discriminate; reflexivity. Qed.

(** *** computeStats *)

(** C9: on the empty collection [computeStats] returns total 0, sum 0,
    the top category "None", no category counts, seven day totals that
    are all 0, and so a count and a sum of the last seven days of 0. *)
Theorem computeStats_empty (arg : option (list value)) (st : store) :
  default (records st) arg = [] ->
  exists s st',
    computeStats h arg st = (Normal s, st') /\
    total s = 0 /\ sum s = zero /\ topCategory s = "None" /\
    categoryMap s = [] /\ length (dayBuckets s) = 7 /\
    dailyTotals s = repeat zero 7 /\
    last7Count s = 0 /\ last7Sum s = zero /\
    records st' = records st.
Proof.
  intros H. unfold computeStats. unfold bind at 1. unfold get_records at 1.
  rewrite H. unfold bind at 1. cbn [lift sum_amounts].
  unfold bind at 1. cbn [lift count_categories].
  unfold bind at 1. unfold Date_now at 1.
  unfold bind at 1. cbn [lift seq map daily_totals records_on sum_amounts].
  unfold ret. eexists _, _. split; [reflexivity|].
  cbn [total sum topCategory categoryMap dayBuckets dailyTotals last7Count last7Sum
       records length].
  repeat split; reflexivity.
Qed.

Lemma initial_empty : initial h ∅ =
  {| records := []; counter := 0; ticks := 0; storage := ∅ |}.
Proof. reflexivity. Qed.

Lemma initial_well_formed : well_formed (initial h ∅).
Proof. constructor. Qed.

Lemma initial_ids_bounded : generated_ids_bounded (initial h ∅).
Proof. intros r t c []. Qed.

End Store.

(** *** Examples

    Two hosts for the examples: one whose clock stands still, one whose
    clock advances by a millisecond at every reading.  The examples
    convert no text to a number and no number to text; [JSON.parse] of
    the hosts reads the three texts that the examples load, and the text
    that [JSON.stringify] prints plays no part in them. *)

(** The double quote *)
Definition dq : string := String "034"%char EmptyString.

(** The JSON text of an array that holds one object with the identifier
    "a" and no other property: a record of an earlier format. *)
Definition legacy_text : string :=
  "[{" +:+ dq +:+ "id" +:+ dq +:+ ":" +:+ dq +:+ "a" +:+ dq +:+ "}]".

(** The JSON text of an array that holds one object with the identifier
    0 and no other property. *)
Definition zero_id_text : string :=
  "[{" +:+ dq +:+ "id" +:+ dq +:+ ":0}]".

Definition example_parse (text : string) : option value :=
  if String.eqb text "[null]" then Some (VArr [VNull])
  else if String.eqb text legacy_text then Some (VArr [VObj (<["id" := VStr "a"]> ∅)])
  else if String.eqb text zero_id_text then Some (VArr [VObj (<["id" := VNum zero]> ∅)])
  else None.

Definition frozen_host : Host :=
  {| StringToNumber := fun _ => nan;
     NumberToString := fun _ => "NaN";
     JSON_parse := example_parse;
     JSON_stringify := fun _ => "[]";
     clock := fun _ => 1700000000000%Z;
     LocalTZA := fun _ _ => 0%Z |}.

Definition ticking_host : Host :=
  {| StringToNumber := fun _ => nan;
     NumberToString := fun _ => "NaN";
     JSON_parse := example_parse;
     JSON_stringify := fun _ => "[]";
     clock := fun n => (1700000000000 + Z.of_nat n)%Z;
     LocalTZA := fun _ _ => 0%Z |}.

Definition accept_all : Storage.localStorage -> bool := fun _ => true.

(** The module state when the local store is empty. *)
Definition empty_store : store := initial frozen_host ∅.

(** The store after one [addRecord] on the empty store. *)
Definition one_record_store : store :=
  snd (addRecord frozen_host accept_all
         (VObj (<["description" := VStr "tea"]> ∅)) empty_store).

(** The store after the import of a record that brings its identifier. *)
Definition imported_store : store :=
  snd (replaceAll frozen_host accept_all
         (VArr [VObj (<["id" := VStr "rec_1700000000000_1"]>
                     (<["description" := VStr "tea"]>
                     (<["amount" := VNum one]> ∅)))]) empty_store).




(** An object whose description has a [toString] of its own. *)
Definition opaque_description : value :=
  VObj (<["description" := VObj (<["toString" := VNum one]> ∅)]> ∅).

(** The value of a field of the returned record. *)
Definition returned_field (r : completion value * store) (k : string) : completion value :=
  match fst r with
  | Normal v => Get v k
  | Throw e => Throw e
  end.

Lemma one_record_store_well_formed : well_formed one_record_store.
Proof.
  unfold one_record_store.
  apply addRecord_well_formed;
    [reflexivity | reflexivity | vm_compute; reflexivity | apply initial_well_formed].
Qed.

Lemma one_record_store_ids_bounded : generated_ids_bounded one_record_store.
Proof.
  unfold one_record_store.
  assert (Hconv : convertible frozen_host
                    (own_properties (VObj (<["description" := VStr "tea"]> ∅))) = true)
    by (vm_compute; reflexivity).
  destruct (addRecord_run frozen_host accept_all
              (VObj (<["description" := VStr "tea"]> ∅)) empty_store
              eq_refl eq_refl Hconv)
    as (rec & st' & E & Hrs & Hcnt & Gid & _).
  rewrite E. cbn [snd]. intros r t c Hr Hg.
  rewrite Hrs in Hr. apply in_app_iff in Hr as [[]|[<-|[]]].
  rewrite Gid in Hg.
  assert (Hm : make_id (clock frozen_host (ticks empty_store))
                       (increment (counter empty_store)) = make_id t c) by congruence.
  apply make_id_inj in Hm. rewrite Hcnt, Hm. apply N.le_refl.
Qed.

Lemma one_record_store_not_nullish : forallb not_nullish (records one_record_store) = true.
Proof. apply well_formed_not_nullish. apply one_record_store_well_formed. Qed.

(** C2 as stated fails: [replaceAll] of the list that holds [null] throws
    a TypeError (the property access [r.id] of [normalise]), and so does
    [replaceAll] of a list that holds an object whose description cannot
    be converted to a text. *)
Lemma replaceAll_element_throws :
  fst (replaceAll frozen_host accept_all (VArr [VNull]) empty_store) = Throw TypeError /\
  fst (replaceAll frozen_host accept_all (VArr [opaque_description]) empty_store)
    = Throw TypeError.
Proof. split; vm_compute; reflexivity. Qed.

(** C5: after the import of a record whose identifier is
    "rec_1700000000000_1", [addRecord] at the clock reading 1700000000000
    returns a record with that same identifier; and with a clock that
    advances between the readings, [createdAt] and [updatedAt] of the new
    record differ. *)
Theorem addRecord_id_collision :
  map (fun r => Get r "id") (records imported_store)
    = [Normal (VStr "rec_1700000000000_1")] /\
  returned_field (addRecord frozen_host accept_all
                    (VObj (<["description" := VStr "bus"]> (<["amount" := VNum one]> ∅)))
                    imported_store) "id"
    = Normal (VStr "rec_1700000000000_1") /\
  returned_field (addRecord ticking_host accept_all (VObj ∅) empty_store) "createdAt"
    = Normal (VStr "2023-11-14T22:13:20.001Z") /\
  returned_field (addRecord ticking_host accept_all (VObj ∅) empty_store) "updatedAt"
    = Normal (VStr "2023-11-14T22:13:20.002Z").
Proof. repeat split; vm_compute; reflexivity. Qed.





Lemma replaceAll_normalises_witness :
  exists st',
    replaceAll frozen_host accept_all
      (VArr [VStr "tea"; VObj (<["amount" := VStr "3"]> ∅)]) one_record_store
      = (Normal true, st') /\
    Forall2 (normalised_from frozen_host)
      [VStr "tea"; VObj (<["amount" := VStr "3"]> ∅)] (records st') /\
    well_formed st' /\
    storage st' =
      Storage.saveRecords frozen_host accept_all (VArr (records st'))
        (storage one_record_store).
Proof.
  apply (replaceAll_normalises frozen_host accept_all
           [VStr "tea"; VObj (<["amount" := VStr "3"]> ∅)] one_record_store).
  reflexivity.
Defined.

Lemma replaceAll_rejects_non_list_witness :
  replaceAll frozen_host accept_all (VObj (<["length" := VNum one]> ∅)) one_record_store
    = (Normal false, one_record_store).
Proof.
  apply (replaceAll_rejects_non_list frozen_host accept_all). reflexivity.
Defined.

Lemma computeStats_empty_witness :
  exists s st',
    computeStats frozen_host None empty_store = (Normal s, st') /\
    total s = 0 /\ sum s = zero /\ topCategory s = "None" /\
    categoryMap s = [] /\ length (dayBuckets s) = 7 /\
    dailyTotals s = repeat zero 7 /\
    last7Count s = 0 /\ last7Sum s = zero /\
    records st' = records empty_store.
Proof.
  apply (computeStats_empty frozen_host None empty_store). reflexivity.
Defined.

End StateFacts.

(** ** The store: invariants and round trips *)

Module StoreFacts.

Import Chars JS State StateFacts.

(** *** Trimming *)

Definition starts_clean (l : list ascii) : Prop :=
  match l with
  | [] => True
  | c :: _ => isWhiteSpace c = false
  end.

Lemma trimStart_suffix l : exists p, l = p ++ Str.trimStart l.
Proof.
  induction l as [|c l [p IH]]; [exists []; reflexivity|].
  simpl. destruct (isWhiteSpace c).
  - exists (c :: p). simpl. f_equal. exact IH.
  - exists []. reflexivity.
Qed.

Lemma trimStart_clean l : starts_clean (Str.trimStart l).
Proof.
  induction l as [|c l IH]; simpl; [exact I|].
  destruct (isWhiteSpace c) eqn:E; [exact IH | exact E].
Qed.

Lemma trimStart_fixed l : starts_clean l -> Str.trimStart l = l.
Proof. destruct l as [|c l]; simpl; [reflexivity|]. intros ->. reflexivity. Qed.

Lemma trimEnd_prefix l : exists q, l = Str.trimEnd l ++ q.
Proof.
  unfold Str.trimEnd. destruct (trimStart_suffix (rev l)) as [p Hp].
  exists (rev p). rewrite <- rev_app_distr, <- Hp, rev_involutive. reflexivity.
Qed.

Lemma trimEnd_clean l : starts_clean l -> starts_clean (Str.trimEnd l).
Proof.
  intros H. destruct (trimEnd_prefix l) as [q Hq].
  destruct (Str.trimEnd l) as [|c t]; [exact I|].
  rewrite Hq in H. exact H.
Qed.

Lemma trimEnd_idempotent l : Str.trimEnd (Str.trimEnd l) = Str.trimEnd l.
Proof.
  unfold Str.trimEnd. rewrite rev_involutive.
  rewrite (trimStart_fixed _ (trimStart_clean _)). reflexivity.
Qed.

Lemma trim_idempotent s : Str.trim (Str.trim s) = Str.trim s.
Proof.
  unfold Str.trim. rewrite chars_of_chars_list.
  rewrite (trimStart_fixed _ (trimEnd_clean _ (trimStart_clean _))).
  rewrite trimEnd_idempotent. reflexivity.
Qed.

(** *** The form of a record *)

Section Store.

Variable h : Host.
Variable storageAccepts : Storage.localStorage -> bool.

(** A record exactly as [normalise] builds it: the seven fields and no
    other, the texts trimmed, the amount a number that is not NaN and not
    a negative zero. *)
Definition normalised (v : value) : Prop :=
  exists id d a c dt cr up,
    v = record_of id (Str.trim d) (number_or_zero a) (Str.trim c) dt cr up /\
    ToBoolean id = true /\ ToBoolean dt = true /\
    ToBoolean cr = true /\ ToBoolean up = true.

Lemma normalised_is_record v : normalised v -> is_record v = true.
Proof.
  intros (id & d & a & c & dt & cr & up & -> & Hid & Hdt & Hcr & Hup).
  apply is_record_record_of; auto using number_or_zero_not_nan.
Qed.

Lemma or_else_call_truthy x f : ToBoolean x = true -> or_else_call x f = ret x.
Proof. intros H. unfold or_else_call. rewrite H. reflexivity. Qed.

(** What [normalise] does, for every value and every state: it returns a
    record of its own form exactly on the values whose fields can be read
    and convert, it throws a TypeError on every other value, and it
    leaves the collection and the local store alone. *)
Lemma normalise_outcome r st c st' :
  normalise h r st = (c, st') ->
  frame st st' /\
  match c with
  | Normal rec => normalised rec /\ normalisable h r = true
  | Throw e => e = TypeError /\ normalisable h r = false
  end.
Proof.
  intros E. destruct (normalisable h r) eqn:N.
  - pose proof N as N'. unfold normalisable in N'.
    apply andb_true_iff in N' as [Hn Hc].
    destruct (convertible_true h _ Hc) as (d & a & c0 & Ed & Ea & Ec).
    destruct (normalise_object_form h (fields_of r) st d a c0 Ed Ea Ec)
      as (id & dt & cr & up & st1 & E1 & Tid & Tdt & Tcr & Tup & F & _).
    rewrite (normalise_as_object h r Hn) in E. rewrite E1 in E. injection E as <- <-.
    split; [exact F|]. split; [|reflexivity]. unfold normalised. eauto 12.
  - destruct (normalise_throws h r st N) as (st1 & E1 & F).
    rewrite E1 in E. injection E as <- <-. auto.
Qed.

Lemma normalise_form r st rec st' :
  normalise h r st = (Normal rec, st') -> normalised rec.
Proof. intros E. apply (normalise_outcome _ _ _ _ E). Qed.

Lemma number_or_zero_idempotent a : number_or_zero (number_or_zero a) = number_or_zero a.
Proof. unfold number_or_zero. destruct a; reflexivity. Qed.

Lemma ToString_or_empty s : ToString h (or_else (VStr s) (VStr "")) = Normal s.
Proof. destruct s; reflexivity. Qed.

(** [normalise] leaves a record of its own making as it is, and draws
    neither an identifier nor a clock reading, when the category of the
    record is not empty. *)
Lemma normalise_fixed rec st :
  normalised rec -> Get rec "category" <> Normal (VStr "") ->
  normalise h rec st = (Normal rec, st).
Proof.
  intros (id & d & a & c & dt & cr & up & -> & Hid & Hdt & Hcr & Hup) Hcat.
  destruct (Get_record_of id (Str.trim d) (number_or_zero a) (Str.trim c) dt cr up)
    as (G1 & G2 & G3 & G4 & G5 & G6 & G7).
  rewrite G4 in Hcat.
  unfold normalise.
  rewrite G1, bind_lift, (or_else_call_truthy _ _ Hid), bind_ret.
  rewrite G2, bind_lift, ToString_or_empty, bind_lift.
  rewrite G3, bind_lift. cbn [ToNumber]. rewrite bind_lift.
  rewrite G4, bind_lift.
  assert (Hc : or_else (VStr (Str.trim c)) (VStr "Other") = VStr (Str.trim c)).
  { unfold or_else. cbn [ToBoolean]. destruct (Str.trim c); [congruence | reflexivity]. }
  rewrite Hc. cbn [ToString]. rewrite bind_lift.
  rewrite G5, bind_lift, (or_else_call_truthy _ _ Hdt), bind_ret.
  rewrite G6, bind_lift, (or_else_call_truthy _ _ Hcr), bind_ret.
  rewrite G7, bind_lift, (or_else_call_truthy _ _ Hup), bind_ret.
  unfold ret, record_of.
  rewrite !trim_idempotent, number_or_zero_idempotent. reflexivity.
Qed.

(** *** What the operations do to the collection and to the local store *)

Definition untouched (st st' : store) : Prop :=
  records st' = records st /\ storage st' = storage st.

(** The collection is [new] and [saveRecords] has been called on it. *)
Definition written (new : list value) (st st' : store) : Prop :=
  records st' = new /\
  storage st' = Storage.saveRecords h storageAccepts (VArr new) (storage st).

Lemma frame_untouched st st' : frame st st' -> untouched st st'.
Proof. unfold frame, untouched. tauto. Qed.

Lemma mapM_normalise_outcome elements : forall st c st',
  mapM (normalise h) elements st = (c, st') ->
  frame st st' /\
  match c with
  | Normal rs =>
      Forall normalised rs /\ length rs = length elements /\
      forallb (normalisable h) elements = true
  | Throw e => e = TypeError /\ forallb (normalisable h) elements = false
  end.
Proof.
  induction elements as [|e elements IH]; intros st c st' E.
  - cbn in E. injection E as <- <-. split; [apply frame_refl|]. auto.
  - cbn [mapM] in E.
    destruct (normalise h e st) as [[rec|err] st1] eqn:E1;
      destruct (normalise_outcome _ _ _ _ E1) as [F1 H1].
    + rewrite (bind_run _ _ _ _ _ E1) in E.
      destruct (mapM (normalise h) elements st1) as [[rs|err] st2] eqn:E2;
        destruct (IH _ _ _ E2) as [F2 H2].
      * rewrite (bind_run _ _ _ _ _ E2) in E. injection E as <- <-.
        destruct H1 as [H1 N1]. destruct H2 as (H2 & L2 & N2).
        split; [eauto using frame_trans|].
        split; [constructor; assumption|].
        split; [simpl; congruence|]. simpl. rewrite N1, N2. reflexivity.
      * rewrite (bind_throw _ _ _ _ _ E2) in E. injection E as <- <-.
        split; [eauto using frame_trans|]. destruct H2 as [-> H2].
        split; [reflexivity|]. simpl. rewrite H2. apply andb_false_r.
    + rewrite (bind_throw _ _ _ _ _ E1) in E. injection E as <- <-.
      split; [exact F1|]. destruct H1 as [-> H1].
      split; [reflexivity|]. simpl. rewrite H1. reflexivity.
Qed.

(** [set_records new ;; saveRecords ;; ret v] after steps that left the
    collection and the local store alone *)
Lemma write_through {A} (v : A) new st0 st c st' :
  untouched st0 st ->
  (set_records new ;; saveRecords h storageAccepts ;; ret v) st = (c, st') ->
  c = Normal v /\ written new st0 st'.
Proof.
  intros [U1 U2] E.
  unfold bind at 1 in E. unfold set_records at 1 in E.
  unfold bind at 1 in E. rewrite saveRecords_run in E. unfold ret in E.
  injection E as <- <-. split; [reflexivity|].
  unfold written. cbn [records storage]. rewrite U2. auto.
Qed.

Lemma write_unit new st0 st c st' :
  untouched st0 st ->
  (set_records new ;; saveRecords h storageAccepts) st = (c, st') ->
  c = Normal tt /\ written new st0 st'.
Proof.
  intros [U1 U2] E.
  unfold bind at 1 in E. unfold set_records at 1 in E.
  rewrite saveRecords_run in E.
  injection E as <- <-. split; [reflexivity|].
  unfold written. cbn [records storage]. rewrite U2. auto.
Qed.

Lemma addRecord_shape data st c st' :
  addRecord h storageAccepts data st = (c, st') ->
  (c = Normal VNull /\ st' = st) \/
  (c = Throw TypeError /\ untouched st st') \/
  exists rec, c = Normal rec /\ normalised rec /\ written (records st ++ [rec]) st st'.
Proof.
  unfold addRecord. destruct (negb (ToBoolean data) || negb (typeof_object data)).
  { intros E. injection E as <- <-. left. auto. }
  intros E. right.
  rewrite (bind_run _ _ _ _ _ (genId_run h st)) in E.
  rewrite (bind_run _ _ _ _ _ (now_iso_run h _)) in E.
  rewrite (bind_run _ _ _ _ _ (now_iso_run h _)) in E.
  cbn [records counter ticks storage] in E.
  match type of E with bind (normalise h ?r) _ ?s = _ =>
    destruct (normalise h r s) as [[rec|err] st1] eqn:E1;
    destruct (normalise_outcome _ _ _ _ E1) as [F1 H1] end.
  - rewrite (bind_run _ _ _ _ _ E1) in E.
    unfold bind at 1 in E. unfold get_records at 1 in E.
    destruct F1 as (R1 & S1 & _). cbn [records storage] in R1, S1.
    rewrite R1 in E.
    apply (write_through _ _ st) in E; [|split; assumption].
    destruct E as [-> W]. right. exists rec. split; [reflexivity|]. split; [apply H1 | exact W].
  - rewrite (bind_throw _ _ _ _ _ E1) in E. injection E as <- <-.
    destruct H1 as [-> _]. left. split; [reflexivity|].
    destruct F1 as (R1 & S1 & _). split; assumption.
Qed.

Lemma updateRecord_shape id updates st c st' :
  updateRecord h storageAccepts id updates st = (c, st') ->
  untouched st st' \/
  exists i rec, c = Normal rec /\ normalised rec /\
    written (<[i := rec]> (records st)) st st'.
Proof.
  unfold updateRecord. unfold bind at 1. unfold get_records at 1.
  unfold bind at 1. cbn [lift].
  destruct (findIndex_by_id id (records st) 0) as [[i|]|err].
  2: { intros E. injection E as <- <-. left. split; reflexivity. }
  2: { intros E. injection E as <- <-. left. split; reflexivity. }
  unfold bind at 1. cbn [lift].
  destruct (Get (default VUndefined (records st !! i)) "createdAt") as [cr|err].
  2: { intros E. injection E as <- <-. left. split; reflexivity. }
  intros E.
  rewrite (bind_run _ _ _ _ _ (now_iso_run h _)) in E.
  match type of E with bind (normalise h ?r) _ ?s = _ =>
    destruct (normalise h r s) as [[rec|err] st1] eqn:E1;
    destruct (normalise_outcome _ _ _ _ E1) as [F1 H1] end.
  - rewrite (bind_run _ _ _ _ _ E1) in E.
    unfold bind at 1 in E. unfold get_records at 1 in E.
    destruct F1 as (R1 & S1 & _). cbn [records storage] in R1, S1.
    rewrite R1 in E.
    apply (write_through _ _ st) in E; [|split; assumption].
    destruct E as [-> W]. right. exists i, rec.
    split; [reflexivity|]. split; [apply H1 | exact W].
  - rewrite (bind_throw _ _ _ _ _ E1) in E. injection E as <- <-.
    left. destruct F1 as (R1 & S1 & _). split; assumption.
Qed.

Lemma remove_by_id_length id rs : forall kept,
  remove_by_id id rs = Normal kept ->
  length kept <= length rs /\ (length kept = length rs -> kept = rs) /\
  (forall P : value -> Prop, Forall P rs -> Forall P kept).
Proof.
  induction rs as [|r rs IH]; intros kept E; simpl in E.
  - injection E as <-. auto.
  - destruct (Get r "id") as [v|err]; [|discriminate].
    destruct (remove_by_id id rs) as [kept'|err]; [|discriminate].
    injection E as <-. destruct (IH kept' eq_refl) as (L & Q & F).
    destruct (negb (strict_equals v id)); simpl.
    + split; [lia|]. split.
      * intros HL. f_equal. apply Q. lia.
      * intros P HP. apply Forall_cons_iff in HP as [HP1 HP2]. constructor; auto.
    + split; [lia|]. split; [lia|].
      intros P HP. apply Forall_cons_iff in HP as [HP1 HP2]. auto.
Qed.

Lemma deleteRecord_shape id st c st' :
  deleteRecord h storageAccepts id st = (c, st') ->
  untouched st st' \/
  exists kept, c = Normal true /\ remove_by_id id (records st) = Normal kept /\
    length kept < length (records st) /\ written kept st st'.
Proof.
  unfold deleteRecord. unfold bind at 1. unfold get_records at 1.
  unfold bind at 1. cbn [lift].
  destruct (remove_by_id id (records st)) as [kept|err] eqn:Ek.
  2: { intros E. injection E as <- <-. left. split; reflexivity. }
  destruct (remove_by_id_length _ _ _ Ek) as (L & Q & _).
  unfold bind at 1. unfold set_records at 1.
  destruct (length kept =? length (records st))%nat eqn:El; cbn [negb].
  - apply Nat.eqb_eq in El. intros E. injection E as <- <-. left.
    split; cbn; auto.
  - apply Nat.eqb_neq in El. intros E.
    unfold bind at 1 in E. rewrite saveRecords_run in E. unfold ret in E.
    injection E as <- <-.
    right. exists kept. split; [reflexivity|]. split; [reflexivity|].
    split; [lia|]. split; reflexivity.
Qed.

Lemma replaceAll_shape v st c st' :
  replaceAll h storageAccepts v st = (c, st') ->
  (untouched st st' /\ c <> Normal true) \/
  exists elements rs, v = VArr elements /\ c = Normal true /\
    Forall normalised rs /\ length rs = length elements /\ written rs st st'.
Proof.
  unfold replaceAll. destruct v as [| | | | |elements|];
    try (intros E; injection E as <- <-; left; split; [split; reflexivity | discriminate]).
  intros E.
  destruct (mapM (normalise h) elements st) as [[rs|err] st1] eqn:E1;
    destruct (mapM_normalise_outcome _ _ _ _ E1) as [F1 H1].
  - rewrite (bind_run _ _ _ _ _ E1) in E.
    apply (write_through _ _ st) in E; [|apply frame_untouched; exact F1].
    destruct E as [-> W]. right. exists elements, rs.
    destruct H1 as (H1 & L1 & _). auto.
  - rewrite (bind_throw _ _ _ _ _ E1) in E. injection E as <- <-.
    left. split; [apply frame_untouched; exact F1 | discriminate].
Qed.

Lemma init_shape seed st c st' :
  init h storageAccepts seed st = (c, st') ->
  c = Normal tt /\
  (untouched st st' \/
   exists elements rs, seed = Some (VArr elements) /\ records st = [] /\
     Forall normalised rs /\ length rs = length elements /\ written rs st st').
Proof.
  unfold init. unfold bind at 1. unfold get_records at 1.
  destruct (0 <? length (records st))%nat eqn:E0.
  { intros E. injection E as <- <-. split; [reflexivity|]. left. split; reflexivity. }
  assert (Hnil : records st = []).
  { apply Nat.ltb_ge in E0. destruct (records st); [reflexivity | simpl in E0; lia]. }
  assert (Hreset : forall st1 : store, frame st st1 ->
            forall c st', set_records [] st1 = (c, st') ->
            c = Normal tt /\ untouched st st').
  { intros st1 (R1 & S1 & _) c0 st0 E. injection E as <- <-.
    split; [reflexivity|]. split; cbn; congruence. }
  destruct seed as [data|].
  2: { intros E. apply (Hreset st (frame_refl st)) in E. tauto. }
  unfold catch.
  destruct data as [| | | | |[|e l]|];
    try (intros E; injection E as <- <-; split; [reflexivity|]; left; split; reflexivity).
  destruct (mapM (normalise h) (e :: l) st) as [[rs|err] st1] eqn:E1;
    destruct (mapM_normalise_outcome _ _ _ _ E1) as [F1 H1].
  - rewrite (bind_run _ _ _ _ _ E1).
    match goal with |- match ?b with _ => _ end = _ -> _ =>
      destruct b as [c1 st2] eqn:E2 end.
    apply (write_unit _ st) in E2; [|apply frame_untouched; exact F1].
    destruct E2 as [-> W]. intros E. injection E as <- <-. split; [reflexivity|].
    right. exists (e :: l), rs. destruct H1 as (H1 & L1 & _). auto 6.
  - rewrite (bind_throw _ _ _ _ _ E1). intros E.
    apply (Hreset st1 F1) in E. tauto.
Qed.

(** *** Invariants of the store *)

(** X1: [normalise] is idempotent up to the default category.  A record
    that [normalise] has returned is returned as it is by a second
    [normalise], which then reads no clock and draws no identifier, when
    its category is not empty; when its category is empty the second pass
    replaces it by "Other". *)
Theorem normalise_idempotent (r rec : value) (st st' : store) :
  normalise h r st = (Normal rec, st') ->
  (Get rec "category" <> Normal (VStr "") ->
   forall st2, normalise h rec st2 = (Normal rec, st2)) /\
  (Get rec "category" = Normal (VStr "") ->
   forall st2, exists rec2,
     normalise h rec st2 = (Normal rec2, st2) /\
     Get rec2 "category" = Normal (VStr "Other") /\
     forall k, k <> "category" -> Get rec2 k = Get rec k).
Proof.
  intros E. pose proof (normalise_form _ _ _ _ E) as Hn. split.
  - intros Hcat st2. apply normalise_fixed; assumption.
  - intros Hcat st2.
    destruct Hn as (id & d & a & c & dt & cr & up & -> & Hid & Hdt & Hcr & Hup).
    destruct (Get_record_of id (Str.trim d) (number_or_zero a) (Str.trim c) dt cr up)
      as (G1 & G2 & G3 & G4 & G5 & G6 & G7).
    rewrite G4 in Hcat. injection Hcat as Hcat.
    exists (record_of id (Str.trim d) (number_or_zero a) "Other" dt cr up).
    split; [|split].
    + unfold normalise.
      rewrite G1, bind_lift, (or_else_call_truthy _ _ Hid), bind_ret.
      rewrite G2, bind_lift, ToString_or_empty, bind_lift.
      rewrite G3, bind_lift. cbn [ToNumber]. rewrite bind_lift.
      rewrite G4, bind_lift.
      assert (Hc : ToString h (or_else (VStr (Str.trim c)) (VStr "Other")) = Normal "Other")
        by (rewrite Hcat; reflexivity).
      rewrite Hc, bind_lift.
      rewrite G5, bind_lift, (or_else_call_truthy _ _ Hdt), bind_ret.
      rewrite G6, bind_lift, (or_else_call_truthy _ _ Hcr), bind_ret.
      rewrite G7, bind_lift, (or_else_call_truthy _ _ Hup), bind_ret.
      unfold ret, record_of.
      rewrite trim_idempotent, number_or_zero_idempotent. reflexivity.
    + apply Get_record_of.
    + intros k Hk.
      destruct (Get_record_of id (Str.trim d) (number_or_zero a) "Other" dt cr up)
        as (G1' & G2' & G3' & _ & G5' & G6' & G7').
      destruct (decide (k = "id")) as [->|N1]; [congruence|].
      destruct (decide (k = "description")) as [->|N2]; [congruence|].
      destruct (decide (k = "amount")) as [->|N3]; [congruence|].
      destruct (decide (k = "date")) as [->|N4]; [congruence|].
      destruct (decide (k = "createdAt")) as [->|N5]; [congruence|].
      destruct (decide (k = "updatedAt")) as [->|N6]; [congruence|].
      unfold record_of. cbn [Get].
      apply (f_equal (fun o => Normal (default VUndefined o))).
      rewrite !lookup_insert_ne by (intros ?; subst k; congruence).
      reflexivity.
Qed.

(** X2: any property that every record made by [normalise] has is an
    invariant of the store: if all the records of the collection have it,
    they all have it after [addRecord], [updateRecord], [deleteRecord],
    [replaceAll] and [init], whatever the arguments and whether the call
    returns or throws. *)
Theorem store_invariant (P : value -> Prop) (st : store) :
  (forall v, normalised v -> P v) -> Forall P (records st) ->
  (forall data, Forall P (records (snd (addRecord h storageAccepts data st)))) /\
  (forall id updates,
     Forall P (records (snd (updateRecord h storageAccepts id updates st)))) /\
  (forall id, Forall P (records (snd (deleteRecord h storageAccepts id st)))) /\
  (forall v, Forall P (records (snd (replaceAll h storageAccepts v st)))) /\
  (forall seed, Forall P (records (snd (init h storageAccepts seed st)))).
Proof.
  intros HP Hst.
  assert (Hun : forall st', untouched st st' -> Forall P (records st')).
  { intros st' [-> _]. exact Hst. }
  split; [|split; [|split; [|split]]].
  - intros data. destruct (addRecord h storageAccepts data st) as [c st'] eqn:E; cbn [snd].
    destruct (addRecord_shape _ _ _ _ E)
      as [[_ ->]|[[_ U]|(rec & _ & Hr & [-> _])]]; [exact Hst | exact (Hun _ U) |].
    apply Forall_app. split; [exact Hst | constructor; auto].
  - intros id updates.
    destruct (updateRecord h storageAccepts id updates st) as [c st'] eqn:E; cbn [snd].
    destruct (updateRecord_shape _ _ _ _ _ E) as [U|(i & rec & _ & Hr & [-> _])];
      [exact (Hun _ U)|].
    apply Forall_insert; auto.
  - intros id. destruct (deleteRecord h storageAccepts id st) as [c st'] eqn:E; cbn [snd].
    destruct (deleteRecord_shape _ _ _ _ E) as [U|(kept & _ & Hk & _ & [-> _])];
      [exact (Hun _ U)|].
    apply (remove_by_id_length _ _ _ Hk). exact Hst.
  - intros v. destruct (replaceAll h storageAccepts v st) as [c st'] eqn:E; cbn [snd].
    destruct (replaceAll_shape _ _ _ _ E) as [[U _]|(l & rs & _ & _ & Hr & _ & [-> _])];
      [exact (Hun _ U)|].
    eapply Forall_impl; [exact Hr | exact HP].
  - intros seed. destruct (init h storageAccepts seed st) as [c st'] eqn:E; cbn [snd].
    destruct (init_shape _ _ _ _ E) as [_ [U|(l & rs & _ & _ & Hr & _ & [-> _])]];
      [exact (Hun _ U)|].
    eapply Forall_impl; [exact Hr | exact HP].
Qed.

(** The text that the local store keeps for the records is the JSON text
    of the collection. *)
Definition in_sync (st : store) : Prop :=
  storage st !! Storage.KEY_records = Some (JSON_stringify h (VArr (records st))).

Lemma written_in_sync new st st' :
  (forall ls, storageAccepts ls = true) -> written new st st' -> in_sync st'.
Proof.
  intros Hacc [W1 W2]. unfold in_sync. rewrite W1, W2.
  unfold Storage.saveRecords, Storage.setItem. cbn [isArray].
  rewrite Hacc. cbn [default from_option Datatypes.id].
  unfold Storage.localStorage. apply lookup_insert_eq.
Qed.

(** X3: when the local store accepts every write, the text that it keeps
    follows the collection: if it is the JSON text of the collection
    before one of [addRecord], [updateRecord], [deleteRecord],
    [replaceAll] and [init], it is the JSON text of the collection after
    it, whatever the arguments and whether the call returns or throws. *)
Theorem saved_copy_in_sync (st : store) :
  (forall ls, storageAccepts ls = true) -> in_sync st ->
  (forall data, in_sync (snd (addRecord h storageAccepts data st))) /\
  (forall id updates, in_sync (snd (updateRecord h storageAccepts id updates st))) /\
  (forall id, in_sync (snd (deleteRecord h storageAccepts id st))) /\
  (forall v, in_sync (snd (replaceAll h storageAccepts v st))) /\
  (forall seed, in_sync (snd (init h storageAccepts seed st))).
Proof.
  intros Hacc Hst.
  assert (Hun : forall st', untouched st st' -> in_sync st').
  { intros st' [U1 U2]. unfold in_sync. rewrite U1, U2. exact Hst. }
  assert (Hwr : forall new st', written new st st' -> in_sync st').
  { intros new st' W. eapply written_in_sync; eassumption. }
  split; [|split; [|split; [|split]]].
  - intros data. destruct (addRecord h storageAccepts data st) as [c st'] eqn:E; cbn [snd].
    destruct (addRecord_shape _ _ _ _ E) as [[_ ->]|[[_ U]|(rec & _ & _ & W)]]; eauto.
  - intros id updates.
    destruct (updateRecord h storageAccepts id updates st) as [c st'] eqn:E; cbn [snd].
    destruct (updateRecord_shape _ _ _ _ _ E) as [U|(i & rec & _ & _ & W)]; eauto.
  - intros id. destruct (deleteRecord h storageAccepts id st) as [c st'] eqn:E; cbn [snd].
    destruct (deleteRecord_shape _ _ _ _ E) as [U|(kept & _ & _ & _ & W)]; eauto.
  - intros v. destruct (replaceAll h storageAccepts v st) as [c st'] eqn:E; cbn [snd].
    destruct (replaceAll_shape _ _ _ _ E) as [[U _]|(l & rs & _ & _ & _ & _ & W)]; eauto.
  - intros seed. destruct (init h storageAccepts seed st) as [c st'] eqn:E; cbn [snd].
    destruct (init_shape _ _ _ _ E) as [_ [U|(l & rs & _ & _ & _ & _ & W)]]; eauto.
Qed.

(** X4: [addRecord] of an object whose fields convert returns the record
    and appends it to the collection whether or not the local store
    accepts the write; the JSON text of the whole collection is written
    when the store accepts it, and the local store stays as it was, with
    nothing thrown, when the write is refused.  With a field that does not
    convert the call throws a TypeError and changes neither. *)
Theorem addRecord_write_through (data : value) (st : store) :
  ToBoolean data = true -> typeof_object data = true ->
  (convertible h (own_properties data) = true ->
   exists rec st',
     addRecord h storageAccepts data st = (Normal rec, st') /\
     records st' = records st ++ [rec] /\
     let text := JSON_stringify h (VArr (records st')) in
     let wanted := <[Storage.KEY_records := text]> (storage st) in
     (storageAccepts wanted = true -> storage st' = wanted) /\
     (storageAccepts wanted = false -> storage st' = storage st)) /\
  (convertible h (own_properties data) = false ->
   exists st',
     addRecord h storageAccepts data st = (Throw TypeError, st') /\
     records st' = records st /\ storage st' = storage st).
Proof.
  intros Hdata Hobj. split; intros Hconv.
  - destruct (addRecord_run h storageAccepts data st Hdata Hobj Hconv)
      as (rec & st' & E & Hrs & _ & _ & _ & _ & _ & Hst).
    exists rec, st'. split; [exact E|]. split; [exact Hrs|]. cbv zeta.
    rewrite Hst. unfold Storage.saveRecords, Storage.setItem. cbn [isArray].
    split; intros ->; reflexivity.
  - apply addRecord_throws; assumption.
Qed.

Lemma find_app_last {A} (p : A -> bool) x l :
  (forall a, In a l -> p a = false) -> p x = true ->
  List.find p (l ++ [x]) = Some x.
Proof.
  intros Hl Hx. induction l as [|a l IH]; simpl; [rewrite Hx; reflexivity|].
  rewrite (Hl a) by (left; reflexivity). apply IH.
  intros b Hb. apply Hl. right. exact Hb.
Qed.

(** X5: in a collection without [null] and [undefined] elements whose
    counter is below 2^53 and bounds the generated identifiers,
    [getRecord] with the identifier of the record that [addRecord] has
    just returned (for an object whose fields convert) returns that
    record. *)
Theorem addRecord_then_getRecord (data : value) (st : store) :
  ToBoolean data = true -> typeof_object data = true ->
  convertible h (own_properties data) = true ->
  (counter st < 2 ^ 53)%N -> generated_ids_bounded st ->
  forallb not_nullish (records st) = true ->
  exists rec id st',
    addRecord h storageAccepts data st = (Normal rec, st') /\
    Get rec "id" = Normal id /\
    getRecord id st' = (Normal rec, st').
Proof.
  intros Hdata Hobj Hconv Hc Hinv Hnn.
  destruct (addRecord_run h storageAccepts data st Hdata Hobj Hconv)
    as (rec & st' & E & Hrs & Hcnt & Gid & _ & _ & Hrec & _).
  rewrite (increment_small _ Hc) in Gid.
  exists rec, (VStr (make_id (clock h (ticks st)) (counter st + 1))), st'.
  split; [exact E|]. split; [exact Gid|].
  assert (Hnn' : forallb not_nullish (records st') = true).
  { rewrite Hrs, forallb_app, Hnn. cbn. rewrite (is_record_not_null _ Hrec). reflexivity. }
  unfold getRecord. unfold bind at 1. unfold get_records at 1.
  unfold bind at 1. cbn [lift]. rewrite (find_by_id_run _ _ Hnn'), Hrs.
  set (id := VStr (make_id (clock h (ticks st)) (counter st + 1))).
  assert (Hfind : List.find (has_id id) (records st ++ [rec]) = Some rec).
  { assert (Hold : forall r, In r (records st) -> has_id id r = false).
    { intros r Hr. destruct (has_id id r) eqn:Eh; [|reflexivity]. exfalso.
      assert (Hrn : not_nullish r = true).
      { rewrite forallb_forall in Hnn. apply Hnn. exact Hr. }
      unfold has_id in Eh. pose proof (Get_not_nullish r "id" Hrn) as Hg.
      rewrite Hg in Eh.
      apply strict_equals_truthy_r in Eh; [|reflexivity].
      rewrite Eh in Hg. pose proof (Hinv _ _ _ Hr Hg). lia. }
    apply find_app_last; [exact Hold|].
    unfold has_id. rewrite Gid. unfold id. cbn [strict_equals].
    apply String.eqb_refl. }
  rewrite Hfind. cbn [default from_option Datatypes.id].
  destruct (is_record_not_nullish rec Hrec) as (m & ->). reflexivity.
Qed.

(** X6: [replaceAll] of the collection itself, each record as [normalise]
    makes it and with a category that is not empty, returns [true] and
    leaves the collection, the counter and the clock as they are. *)
Theorem replaceAll_own_records (st : store) :
  Forall (fun r => normalised r /\ Get r "category" <> Normal (VStr "")) (records st) ->
  exists st',
    replaceAll h storageAccepts (VArr (records st)) st = (Normal true, st') /\
    records st' = records st /\ counter st' = counter st /\ ticks st' = ticks st.
Proof.
  intros Hst.
  assert (Hmap : forall l s,
            Forall (fun r => normalised r /\ Get r "category" <> Normal (VStr "")) l ->
            mapM (normalise h) l s = (Normal l, s)).
  { induction l as [|r l IH]; intros s Hl; [reflexivity|].
    apply Forall_cons_iff in Hl as [[Hn Hc] Hl]. cbn [mapM].
    rewrite (bind_run _ _ _ _ _ (normalise_fixed r s Hn Hc)).
    rewrite (bind_run _ _ _ _ _ (IH s Hl)). reflexivity. }
  unfold replaceAll. rewrite (bind_run _ _ _ _ _ (Hmap _ st Hst)).
  unfold bind at 1. unfold set_records at 1.
  unfold bind at 1. rewrite saveRecords_run. unfold ret.
  eexists. split; [reflexivity|]. cbn. auto.
Qed.


(** X29: in a store whose counter is below 2^53 and in which no stored
    identifier is a generated one with a counter part above the counter
    (as in a store filled by [addRecord] alone), [addRecord] of an object
    whose fields convert returns a record whose identifier differs from
    every stored one, whatever the clock reads; the identifier is made of
    the first clock reading and the incremented counter, [createdAt] and
    [updatedAt] are the texts of the second and third readings; and the
    store keeps the property. *)
Theorem addRecord_fresh_id (data : value) (st : store) :
  ToBoolean data = true -> typeof_object data = true ->
  convertible h (own_properties data) = true ->
  (counter st < 2 ^ 53)%N -> generated_ids_bounded st ->
  exists rec st',
    addRecord h storageAccepts data st = (Normal rec, st') /\
    records st' = records st ++ [rec] /\
    counter st' = (counter st + 1)%N /\
    Get rec "id" = Normal (VStr (make_id (clock h (ticks st)) (counter st + 1))) /\
    (forall r, In r (records st) -> Get r "id" <> Get rec "id") /\
    Get rec "createdAt" = Normal (VStr (Date.toISOString (clock h (S (ticks st))))) /\
    Get rec "updatedAt" = Normal (VStr (Date.toISOString (clock h (S (S (ticks st)))))) /\
    is_record rec = true /\
    generated_ids_bounded st'.
Proof. apply addRecord_fresh. Qed.

End Store.

Lemma normalise_idempotent_witness :
  exists rec st',
    normalise frozen_host (VObj ∅) empty_store = (Normal rec, st') /\
    normalise frozen_host rec st' = (Normal rec, st').
Proof.
  assert (Ed : ToString frozen_host (or_else (prop ∅ "description") (VStr "")) = Normal "")
    by (vm_compute; reflexivity).
  assert (Ea : ToNumber frozen_host (prop ∅ "amount") = Normal nan)
    by (vm_compute; reflexivity).
  assert (Ec : ToString frozen_host (or_else (prop ∅ "category") (VStr "Other"))
               = Normal "Other") by (vm_compute; reflexivity).
  destruct (normalise_object_form frozen_host ∅ empty_store "" nan "Other" Ed Ea Ec)
    as (id & dt & cr & up & st' & E & _).
  eexists _, st'. split; [exact E|].
  apply (normalise_idempotent frozen_host (VObj ∅) _ empty_store st' E).
  rewrite (proj1 (proj2 (proj2 (proj2 (Get_record_of _ _ _ _ _ _ _))))).
  vm_compute. discriminate.
Defined.

Lemma store_invariant_witness :
  (forall data,
     well_formed (snd (addRecord frozen_host accept_all data one_record_store))) /\
  (forall id updates,
     well_formed (snd (updateRecord frozen_host accept_all id updates one_record_store))) /\
  (forall id, well_formed (snd (deleteRecord frozen_host accept_all id one_record_store))) /\
  (forall v, well_formed (snd (replaceAll frozen_host accept_all v one_record_store))) /\
  (forall seed, well_formed (snd (init frozen_host accept_all seed one_record_store))).
Proof.
  apply (store_invariant frozen_host accept_all (fun v => is_record v = true)
           one_record_store);
    [apply normalised_is_record | apply one_record_store_well_formed].
Defined.

Lemma one_record_store_in_sync : in_sync frozen_host one_record_store.
Proof. vm_compute. reflexivity. Qed.

Lemma saved_copy_in_sync_witness :
  (forall data,
     in_sync frozen_host (snd (addRecord frozen_host accept_all data one_record_store))) /\
  (forall id updates,
     in_sync frozen_host
       (snd (updateRecord frozen_host accept_all id updates one_record_store))) /\
  (forall id,
     in_sync frozen_host (snd (deleteRecord frozen_host accept_all id one_record_store))) /\
  (forall v,
     in_sync frozen_host (snd (replaceAll frozen_host accept_all v one_record_store))) /\
  (forall seed,
     in_sync frozen_host (snd (init frozen_host accept_all seed one_record_store))).
Proof.
  apply (saved_copy_in_sync frozen_host accept_all one_record_store);
    [intros ls; reflexivity | apply one_record_store_in_sync].
Defined.

Lemma addRecord_write_through_witness :
  (convertible frozen_host (own_properties (VObj ∅)) = true ->
   exists rec st',
     addRecord frozen_host accept_all (VObj ∅) empty_store = (Normal rec, st') /\
     records st' = records empty_store ++ [rec] /\
     let text := JSON_stringify frozen_host (VArr (records st')) in
     let wanted := <[Storage.KEY_records := text]> (storage empty_store) in
     (accept_all wanted = true -> storage st' = wanted) /\
     (accept_all wanted = false -> storage st' = storage empty_store)) /\
  (convertible frozen_host (own_properties (VObj ∅)) = false ->
   exists st',
     addRecord frozen_host accept_all (VObj ∅) empty_store = (Throw TypeError, st') /\
     records st' = records empty_store /\ storage st' = storage empty_store).
Proof.
  apply (addRecord_write_through frozen_host accept_all (VObj ∅) empty_store);
    reflexivity.
Defined.

Lemma addRecord_then_getRecord_witness :
  exists rec id st',
    addRecord frozen_host accept_all (VObj ∅) one_record_store = (Normal rec, st') /\
    Get rec "id" = Normal id /\
    getRecord id st' = (Normal rec, st').
Proof.
  apply (addRecord_then_getRecord frozen_host accept_all (VObj ∅) one_record_store);
    [reflexivity | reflexivity | reflexivity | reflexivity
    | apply one_record_store_ids_bounded | apply one_record_store_not_nullish].
Defined.

Lemma addRecord_fresh_id_witness :
  exists rec st',
    addRecord frozen_host accept_all (VObj ∅) one_record_store = (Normal rec, st') /\
    records st' = records one_record_store ++ [rec] /\
    counter st' = (counter one_record_store + 1)%N /\
    Get rec "id" = Normal (VStr (make_id (clock frozen_host (ticks one_record_store))
                                         (counter one_record_store + 1))) /\
    (forall r, In r (records one_record_store) -> Get r "id" <> Get rec "id") /\
    Get rec "createdAt" =
      Normal (VStr (Date.toISOString (clock frozen_host (S (ticks one_record_store))))) /\
    Get rec "updatedAt" =
      Normal (VStr (Date.toISOString (clock frozen_host (S (S (ticks one_record_store)))))) /\
    is_record rec = true /\
    generated_ids_bounded st'.
Proof.
  apply (addRecord_fresh_id frozen_host accept_all (VObj ∅) one_record_store);
    [reflexivity | reflexivity | reflexivity | reflexivity
    | apply one_record_store_ids_bounded].
Defined.

Lemma one_record_store_records :
  records one_record_store =
  [record_of (VStr "rec_1700000000000_1") "tea" zero "Other" (VStr "2023-11-14")
     (VStr "2023-11-14T22:13:20.000Z") (VStr "2023-11-14T22:13:20.000Z")].
Proof. vm_compute. reflexivity. Qed.

Lemma replaceAll_own_records_witness :
  exists st',
    replaceAll frozen_host accept_all (VArr (records one_record_store)) one_record_store
      = (Normal true, st') /\
    records st' = records one_record_store /\
    counter st' = counter one_record_store /\ ticks st' = ticks one_record_store.
Proof.
  apply (replaceAll_own_records frozen_host accept_all one_record_store).
  rewrite one_record_store_records. constructor; [|constructor]. split.
  - exists (VStr "rec_1700000000000_1"), "tea", zero, "Other", (VStr "2023-11-14"),
      (VStr "2023-11-14T22:13:20.000Z"), (VStr "2023-11-14T22:13:20.000Z").
    repeat split; reflexivity.
  - rewrite (proj1 (proj2 (proj2 (proj2 (Get_record_of _ _ _ _ _ _ _))))). discriminate.
Defined.

End StoreFacts.

(** ** Statistics *)

Module StatsFacts.

Import Chars JS State StateFacts.

(** The count that a value of the table stands for; a text stands for
    none. *)
Definition count_of (v : tally) : nat :=
  match v with
  | Count n => n
  | Text _ => 0
  end.

Definition is_count (v : tally) : bool :=
  match v with
  | Count _ => true
  | Text _ => false
  end.

(** The number of records counted in a table of categories. *)
Definition counted (m : list (string * tally)) : nat :=
  list_sum (map (fun kv => count_of (snd kv)) m).

(** Every value of the table is a count. *)
Definition all_counts (m : list (string * tally)) : bool :=
  forallb (fun kv => is_count (snd kv)) m.

(** The records that [computeStats] totals and counts as intended: values
    that are neither [null] nor [undefined], whose amount converts to a
    number and whose category has a text that is no property name of
    [Object.prototype]. *)
Definition countable (h : Host) (r : value) : bool :=
  not_nullish r &&
  returns (ToNumber h (or_else (prop (fields_of r) "amount") (VNum zero))) &&
  match ToString h (or_else (prop (fields_of r) "category") (VStr "Uncategorized")) with
  | Normal cat => negb (inherited cat)
  | Throw _ => false
  end.

Lemma not_inherited_not_proto cat : inherited cat = false -> String.eqb cat "__proto__" = false.
Proof.
  intros H. destruct (String.eqb cat "__proto__") eqn:E; [|reflexivity].
  apply String.eqb_eq in E. subst. discriminate H.
Qed.

Lemma count_category_counted cat m :
  inherited cat = false -> all_counts m = true ->
  counted (count_category cat m) = S (counted m) /\
  all_counts (count_category cat m) = true.
Proof.
  intros Hc. unfold counted, all_counts.
  induction m as [|[k v] m IH]; simpl.
  - intros _. rewrite (not_inherited_not_proto _ Hc), Hc. auto.
  - intros H. apply andb_true_iff in H as [Hv Hm].
    destruct v as [n|ones]; [|discriminate Hv].
    destruct (String.eqb k cat); simpl.
    + rewrite Hm. auto.
    + destruct (IH Hm) as [-> ->]. split; [lia | reflexivity].
Qed.

Lemma count_category_keys cat m :
  inherited cat = false ->
  forall k, In k (map fst (count_category cat m)) <-> k = cat \/ In k (map fst m).
Proof.
  intros Hc k. induction m as [|[k0 n] m IH]; simpl.
  - rewrite (not_inherited_not_proto _ Hc), Hc. simpl.
    split; [intros [<-|[]]; auto | intros [->|[]]; auto].
  - destruct (String.eqb k0 cat) eqn:E; simpl.
    + apply String.eqb_eq in E. subst. split; [intros [<-|H]; auto | intros [->|H]; auto].
    + rewrite IH. tauto.
Qed.

Lemma count_category_NoDup cat m :
  inherited cat = false ->
  List.NoDup (map fst m) -> List.NoDup (map fst (count_category cat m)).
Proof.
  intros Hc. induction m as [|[k n] m IH]; simpl; intros H.
  - rewrite (not_inherited_not_proto _ Hc), Hc. constructor; [intros [] | constructor].
  - apply List.NoDup_cons_iff in H as [H1 H2].
    destruct (String.eqb k cat) eqn:E; simpl.
    + constructor; assumption.
    + constructor; [|auto]. rewrite (count_category_keys _ _ Hc). intros [->|Hin]; [|auto].
      rewrite String.eqb_refl in E. discriminate.
Qed.

Section Stats.

Variable h : Host.

Lemma countable_parts r :
  countable h r = true ->
  not_nullish r = true /\
  (exists n, ToNumber h (or_else (prop (fields_of r) "amount") (VNum zero)) = Normal n) /\
  (exists cat,
     ToString h (or_else (prop (fields_of r) "category") (VStr "Uncategorized"))
       = Normal cat /\ inherited cat = false).
Proof.
  unfold countable. intros H.
  apply andb_true_iff in H as [H Hc]. apply andb_true_iff in H as [Hn Ha].
  split; [exact Hn|]. split; [apply returns_Normal; exact Ha|].
  destruct (ToString h _) as [cat|e]; [|discriminate].
  exists cat. split; [reflexivity|]. apply negb_true_iff. exact Hc.
Qed.

Lemma sum_amounts_total rs : forall acc,
  forallb (countable h) rs = true -> exists s, sum_amounts h rs acc = Normal s.
Proof.
  induction rs as [|r rs IH]; intros acc H; simpl; [eauto|].
  apply andb_true_iff in H as [Hr Hrs].
  destruct (countable_parts r Hr) as (Hn & [n Ha] & _).
  rewrite (Get_not_nullish r "amount" Hn), Ha. apply IH. exact Hrs.
Qed.

Lemma count_categories_total rs : forall m,
  forallb (countable h) rs = true -> all_counts m = true ->
  exists cm, count_categories h rs m = Normal cm /\
    all_counts cm = true /\
    counted cm = counted m + length rs /\
    (List.NoDup (map fst m) -> List.NoDup (map fst cm)).
Proof.
  induction rs as [|r rs IH]; intros m H Hm; simpl.
  - exists m. split; [reflexivity|]. split; [exact Hm|]. split; [lia | auto].
  - apply andb_true_iff in H as [Hr Hrs].
    destruct (countable_parts r Hr) as (Hn & _ & cat & Ec & Hc).
    rewrite (Get_not_nullish r "category" Hn), Ec.
    destruct (count_category_counted cat m Hc Hm) as [Hcount Hall].
    destruct (IH (count_category cat m) Hrs Hall) as (cm & E & Hcm & Hsum & Hnd).
    exists cm. split; [exact E|]. split; [exact Hcm|]. rewrite Hsum, Hcount.
    split; [lia|]. intros Hd. apply Hnd. apply count_category_NoDup; assumption.
Qed.

Lemma records_on_total day rs :
  forallb (countable h) rs = true ->
  exists on_day, records_on day rs = Normal on_day /\ forallb (countable h) on_day = true.
Proof.
  induction rs as [|r rs IH]; intros H; simpl; [eauto|].
  apply andb_true_iff in H as [Hr Hrs].
  destruct (countable_parts r Hr) as (Hn & _).
  rewrite (Get_not_nullish r "date" Hn).
  destruct (IH Hrs) as (on_day & -> & Hon).
  destruct (strict_equals _ (VStr day)); eexists; split; try reflexivity.
  - simpl. rewrite Hr, Hon. reflexivity.
  - exact Hon.
Qed.

Lemma daily_totals_total days rs :
  forallb (countable h) rs = true ->
  exists ts, daily_totals h days rs = Normal ts /\ length ts = length days.
Proof.
  intros H. induction days as [|day days (ts & IH & Hl)]; simpl; [eauto|].
  destruct (records_on_total day rs H) as (on_day & -> & Hon).
  destruct (sum_amounts_total on_day zero Hon) as [t ->].
  rewrite IH. exists (t :: ts). split; [reflexivity | simpl; congruence].
Qed.

Lemma count_positive_le (totals : list number) : forall c,
  fold_left (fun c v => c + (if gtb v zero then 1 else 0)) totals c <= c + length totals.
Proof.
  induction totals as [|t totals IH]; intros c; simpl; [lia|].
  specialize (IH (c + (if gtb t zero then 1 else 0))).
  destruct (gtb t zero); lia.
Qed.

(** *** The top category *)

Lemma insert_index_In e l x : In x (insert_index e l) <-> x = e \/ In x l.
Proof.
  induction l as [|e' l IH]; simpl.
  - split; [intros [<-|[]]; auto | intros [->|[]]; auto].
  - destruct (fst e <=? fst e')%N; simpl.
    + split; [intros [<-|H]; auto | intros [->|H]; auto].
    + rewrite IH. tauto.
Qed.

Lemma entries_In m kv : In kv (entries m) <-> In kv m.
Proof.
  unfold entries. rewrite in_app_iff, filter_In, in_map_iff.
  assert (Hidx : forall e,
    In e (fold_right
            (fun kv acc =>
               match array_index (fst kv) with
               | Some i => insert_index (i, kv) acc
               | None => acc
               end) [] m) <->
    In (snd e) m /\ array_index (fst (snd e)) = Some (fst e)).
  { induction m as [|kv0 m IH]; intros e; simpl; [tauto|].
    destruct (array_index (fst kv0)) as [i|] eqn:E.
    - rewrite insert_index_In, IH. split.
      + intros [->|[H1 H2]]; simpl; auto.
      + intros [[Hk|H1] H2].
        * left. destruct e as [i' kv']. simpl in *. subst kv'. congruence.
        * right. auto.
    - rewrite IH. split; [tauto|].
      intros [[Hk|H1] H2]; [rewrite <- Hk in H2; congruence | auto]. }
  split.
  - intros [(e & <- & He)|[H _]]; [apply Hidx in He; tauto | exact H].
  - intros H. destruct (array_index (fst kv)) as [i|] eqn:E.
    + left. exists (i, kv). split; [reflexivity|]. apply Hidx. simpl. auto.
    + right. auto.
Qed.

Lemma insert_by_count_In e l x : In x (insert_by_count e l) <-> x = e \/ In x l.
Proof.
  induction l as [|e' l IH]; simpl.
  - split; [intros [<-|[]]; auto | intros [->|[]]; auto].
  - destruct (stays_before e e'); simpl.
    + split; [intros [<-|H]; auto | intros [->|H]; auto].
    + rewrite IH. tauto.
Qed.

Lemma sort_by_count_In l x : In x (sort_by_count l) <-> In x l.
Proof.
  induction l as [|e l IH]; simpl; [tauto|].
  rewrite insert_by_count_In, IH. split; [intros [->|H]; auto | intros [<-|H]; auto].
Qed.

Lemma all_counts_In m : all_counts m = true <-> forall x, In x m -> is_count (snd x) = true.
Proof. unfold all_counts. apply forallb_forall. Qed.

Lemma stays_before_counts a b :
  is_count (snd a) = true -> is_count (snd b) = true ->
  stays_before a b = (count_of (snd b) <=? count_of (snd a))%nat.
Proof.
  unfold stays_before. destruct (snd a), (snd b); try discriminate. reflexivity.
Qed.

(** The head of the list has a largest count. *)
Definition headed (l : list (string * tally)) : Prop :=
  match l with
  | [] => True
  | e :: l' => forall x, In x l' -> count_of (snd x) <= count_of (snd e)
  end.

Lemma insert_by_count_headed e l :
  is_count (snd e) = true -> all_counts l = true ->
  headed l -> headed (insert_by_count e l).
Proof.
  destruct l as [|e' l]; simpl; [intros _ _ _ x []|].
  intros He Hl H. apply andb_true_iff in Hl as [He' Hl].
  rewrite (stays_before_counts e e' He He').
  destruct (count_of (snd e') <=? count_of (snd e))%nat eqn:E.
  - apply Nat.leb_le in E. intros x [<-|Hx]; [exact E|]. specialize (H x Hx). lia.
  - apply Nat.leb_gt in E. intros x Hx. apply insert_by_count_In in Hx as [->|Hx];
      [lia | auto].
Qed.

Lemma sort_by_count_headed l :
  all_counts l = true -> all_counts (sort_by_count l) = true /\ headed (sort_by_count l).
Proof.
  induction l as [|e l IH]; simpl; [auto|].
  intros H. apply andb_true_iff in H as [He Hl]. destruct (IH Hl) as [Ha Hh].
  split; [|apply insert_by_count_headed; assumption].
  apply (proj2 (all_counts_In _)). intros x Hx.
  apply (proj1 (insert_by_count_In _ _ _)) in Hx as [->|Hx]; [exact He|].
  apply (proj1 (all_counts_In _) Ha). exact Hx.
Qed.

Lemma top_of_max m k :
  all_counts m = true ->
  top_of (sort_by_count (entries m)) = k -> k <> "None" ->
  exists n, In (k, Count n) m /\ forall k' n', In (k', Count n') m -> n' <= n.
Proof.
  intros Hall Htop Hk.
  assert (Hent : all_counts (entries m) = true).
  { apply (proj2 (all_counts_In _)). intros x Hx.
    apply (proj1 (all_counts_In _) Hall). apply (proj1 (entries_In _ _) Hx). }
  destruct (sort_by_count_headed (entries m) Hent) as [Hs Hh].
  assert (Hin : forall x, In x (sort_by_count (entries m)) <-> In x m).
  { intros x. rewrite sort_by_count_In. apply entries_In. }
  destruct (sort_by_count (entries m)) as [|[k0 v] rest]; simpl in Htop; [congruence|].
  destruct (Str.isEmpty k0); [congruence|]. subst k0.
  simpl in Hs. apply andb_true_iff in Hs as [Hv _].
  destruct v as [n|ones]; [|discriminate Hv].
  exists n. split; [apply Hin; left; reflexivity|].
  intros k' n' H'. apply Hin in H' as [E|H'].
  - injection E as _ <-. lia.
  - exact (Hh _ H').
Qed.

(** X8: on a collection of values that are neither [null] nor
    [undefined], whose amounts convert and whose categories are no
    property names of [Object.prototype], [computeStats] returns; it
    reads the clock once and leaves the collection, the local store and
    the counter as they are; the total is the number of records, every
    value of the category table is a count, the counts add up to the
    total and no category is listed twice; there are seven day buckets
    and seven daily totals, so at most seven days are counted. *)
Theorem computeStats_counts (arg : option (list value)) (st : store) :
  forallb (countable h) (default (records st) arg) = true ->
  exists s,
    computeStats h arg st =
      (Normal s, {| records := records st; counter := counter st;
                    ticks := S (ticks st); storage := storage st |}) /\
    total s = length (default (records st) arg) /\
    all_counts (categoryMap s) = true /\
    counted (categoryMap s) = total s /\
    List.NoDup (map fst (categoryMap s)) /\
    length (dayBuckets s) = 7 /\ length (dailyTotals s) = 7 /\
    last7Count s <= 7.
Proof.
  intros H. unfold computeStats. unfold bind at 1. unfold get_records at 1.
  set (rs := default (records st) arg) in *.
  destruct (sum_amounts_total rs zero H) as [s Es].
  destruct (count_categories_total rs [] H eq_refl) as (cm & Ecm & Hall & Hc & Hn).
  unfold bind at 1. rewrite Es. cbn [lift].
  unfold bind at 1. rewrite Ecm. cbn [lift].
  unfold bind at 1. unfold Date_now at 1.
  set (buckets := map (fun i => day_bucket h (clock h (ticks st)) (6 - Z.of_nat i)) (seq 0 7)).
  destruct (daily_totals_total buckets rs H) as (ts & Ets & Hl).
  unfold bind at 1. rewrite Ets. cbn [lift]. unfold ret.
  eexists. split; [reflexivity|].
  cbn [total categoryMap dayBuckets dailyTotals last7Count].
  split; [reflexivity|]. split; [exact Hall|]. split; [rewrite Hc; reflexivity|].
  split; [apply Hn; constructor|].
  split; [reflexivity|]. split; [rewrite Hl; reflexivity|].
  pose proof (count_positive_le ts 0) as Hle. rewrite Hl in Hle. exact Hle.
Qed.

(** X9: on such a collection, the top category that [computeStats]
    reports, when it is not "None", is a category of the table and no
    category of the table has a larger count. *)
Theorem computeStats_top_category (arg : option (list value)) (st st' : store) (s : stats) :
  forallb (countable h) (default (records st) arg) = true ->
  computeStats h arg st = (Normal s, st') ->
  topCategory s <> "None" ->
  exists n, In (topCategory s, Count n) (categoryMap s) /\
    forall k' n', In (k', Count n') (categoryMap s) -> n' <= n.
Proof.
  intros H. unfold computeStats. unfold bind at 1. unfold get_records at 1.
  destruct (sum_amounts h (default (records st) arg) zero) as [sm|e];
    [|discriminate].
  unfold bind at 1. cbn [lift].
  destruct (count_categories_total (default (records st) arg) [] H eq_refl)
    as (cm & -> & Hall & _).
  unfold bind at 1. cbn [lift]. unfold bind at 1. unfold Date_now at 1.
  unfold bind at 1.
  match goal with |- context [lift ?c] => destruct c as [ts|e] end; [|discriminate].
  cbn [lift]. unfold ret. intros E. injection E as <- _.
  cbn [topCategory categoryMap]. intros Hk.
  eapply top_of_max; [exact Hall | reflexivity | exact Hk].
Qed.

End Stats.

(** A category named like a property of [Object.prototype] is not
    counted: the table holds a text for it, and the category counted once
    stays on top of the one met three times. *)
Example computeStats_inherited_name :
  let rs := [VObj (<["category" := VStr "Food"]> ∅);
             VObj (<["category" := VStr "constructor"]> ∅);
             VObj (<["category" := VStr "constructor"]> ∅);
             VObj (<["category" := VStr "constructor"]> ∅)] in
  exists s st',
    computeStats frozen_host (Some rs) empty_store = (Normal s, st') /\
    total s = 4 /\
    categoryMap s = [("Food", Count 1); ("constructor", Text 3)] /\
    topCategory s = "Food".
Proof. vm_compute. eexists _, _. repeat split. Qed.

Lemma computeStats_counts_witness :
  exists s,
    computeStats frozen_host None one_record_store =
      (Normal s, {| records := records one_record_store;
                    counter := counter one_record_store;
                    ticks := S (ticks one_record_store);
                    storage := storage one_record_store |}) /\
    total s = length (records one_record_store) /\
    all_counts (categoryMap s) = true /\
    counted (categoryMap s) = total s /\
    List.NoDup (map fst (categoryMap s)) /\
    length (dayBuckets s) = 7 /\ length (dailyTotals s) = 7 /\
    last7Count s <= 7.
Proof.
  apply (computeStats_counts frozen_host None one_record_store).
  vm_compute. reflexivity.
Defined.

Lemma computeStats_top_category_witness :
  exists s st',
    computeStats frozen_host None one_record_store = (Normal s, st') /\
    topCategory s = "Other" /\
    exists n, In (topCategory s, Count n) (categoryMap s) /\
      forall k' n', In (k', Count n') (categoryMap s) -> n' <= n.
Proof.
  assert (E : exists s st',
            computeStats frozen_host None one_record_store = (Normal s, st') /\
            topCategory s = "Other").
  { vm_compute. eexists _, _. split; reflexivity. }
  destruct E as (s & st' & E & Htop).
  exists s, st'. split; [exact E|]. split; [exact Htop|].
  apply (computeStats_top_category frozen_host None one_record_store st' s);
    [vm_compute; reflexivity | exact E | rewrite Htop; discriminate].
Defined.

End StatsFacts.

(** ** Filtering and compiling *)

Module FilterFacts.

Import Chars Regex JS Search State RegexFacts ValidatorsFacts SearchFacts StateFacts
       StoreFacts StatsFacts.

Lemma test_keeps_pattern R s :
  source (snd (test R s)) = source R /\ flags (snd (test R s)) = flags R.
Proof.
  unfold test, RegExpBuiltinExec.
  destruct (length (Str.chars s) <? _)%nat.
  - cbn [snd]. destruct (global (flags R) || sticky (flags R)); split; reflexivity.
  - destruct (if sticky (flags R) then _ else _) as [[i y]|]; cbn [snd];
      destruct (global (flags R) || sticky (flags R)); split; reflexivity.
Qed.

Section Filter.

Variable h : Host.

(** The text that [filterRecords] tests for the field [k] of [r], when
    the field can be read and converts. *)
Definition field_text (r : value) (k : string) : string :=
  match Get r k with
  | Normal v =>
      match ToString h (or_else v (VStr "")) with
      | Normal s => s
      | Throw _ => ""
      end
  | Throw _ => ""
  end.

(** Whether the field [k] of [r] can be read and converts to a text. *)
Definition field_converts (r : value) (k : string) : bool :=
  match Get r k with
  | Normal v => returns (ToString h (or_else v (VStr "")))
  | Throw _ => false
  end.

(** The records that can be searched: their description, category and
    date can be read and convert to a text (as all primitive values
    do). *)
Definition searchable (r : value) : bool :=
  field_converts r "description" && field_converts r "category" &&
  field_converts r "date".

(** Whether one of the three searched fields of [r] matches. *)
Definition record_matches (R : RegExp) (r : value) : bool :=
  fst (test R (field_text r "description")) ||
  fst (test R (field_text r "category")) ||
  fst (test R (field_text r "date")).

Definition same_pattern (R R' : RegExp) : Prop :=
  source R' = source R /\ flags R' = flags R.

Lemma same_pattern_trans R1 R2 R3 :
  same_pattern R1 R2 -> same_pattern R2 R3 -> same_pattern R1 R3.
Proof. unfold same_pattern. intros [] []. split; congruence. Qed.

Definition stateless (R : RegExp) : Prop :=
  global (flags R) = false /\ sticky (flags R) = false.

Lemma test_field_run R r k :
  field_converts r k = true ->
  exists b R', test_field h R r k = (Normal b, R') /\ same_pattern R R' /\
    (stateless R -> R' = R /\ b = fst (test R (field_text r k))).
Proof.
  unfold field_converts, test_field, field_text.
  destruct (Get r k) as [v|e]; [|discriminate].
  destruct (ToString h (or_else v (VStr ""))) as [s|e]; [|discriminate]. intros _.
  destruct (test R s) as [b R'] eqn:E.
  exists b, R'. split; [reflexivity|]. split.
  - pose proof (test_keeps_pattern R s) as Hk.
    rewrite E in Hk. exact Hk.
  - intros [Hg Hs]. pose proof (test_stateless R s Hg Hs) as Hst.
    rewrite E in Hst. cbn [snd fst] in *. auto.
Qed.

Lemma matches_record_run R r :
  searchable r = true ->
  exists b R', matches_record h R r = (Normal b, R') /\ same_pattern R R' /\
    (stateless R -> R' = R /\ b = record_matches R r).
Proof.
  unfold searchable. intros Hr.
  apply andb_true_iff in Hr as [Hr H3]. apply andb_true_iff in Hr as [H1 H2].
  unfold matches_record, record_matches.
  destruct (test_field_run R r "description" H1) as (b1 & R1 & -> & P1 & S1).
  destruct b1.
  { exists true, R1. split; [reflexivity|]. split; [exact P1|].
    intros HS. destruct (S1 HS) as [-> <-]. auto. }
  destruct (test_field_run R1 r "category" H2) as (b2 & R2 & -> & P2 & S2).
  destruct b2.
  { exists true, R2. split; [reflexivity|]. split; [eapply same_pattern_trans; eauto|].
    intros HS. destruct (S1 HS) as [-> <-]. destruct (S2 HS) as [-> <-].
    split; [reflexivity|]. cbn [orb]. reflexivity. }
  destruct (test_field_run R2 r "date" H3) as (b3 & R3 & -> & P3 & S3).
  exists b3, R3. split; [reflexivity|].
  split; [eauto using same_pattern_trans|].
  intros HS. destruct (S1 HS) as [-> <-]. destruct (S2 HS) as [-> <-].
  destruct (S3 HS) as [-> <-]. auto.
Qed.

Lemma filter_with_run records : forall R,
  forallb searchable records = true ->
  exists kept R', filter_with h R records = (Normal kept, R') /\
    sublist kept records /\ same_pattern R R' /\
    (stateless R -> R' = R /\ kept = List.filter (record_matches R) records).
Proof.
  induction records as [|r records IH]; intros R H.
  - exists [], R. cbn. split; [reflexivity|]. split; [constructor|].
    split; [split; reflexivity | auto].
  - simpl in H. apply andb_true_iff in H as [Hr Hrs].
    destruct (matches_record_run R r Hr) as (b & R1 & E1 & P1 & S1).
    destruct (IH R1 Hrs) as (kept & R2 & E2 & Hsub & P2 & S2).
    cbn [filter_with]. rewrite E1, E2.
    exists (if b then r :: kept else kept), R2. split; [reflexivity|].
    split; [destruct b; constructor; exact Hsub|].
    split; [eauto using same_pattern_trans|].
    intros HS. destruct (S1 HS) as [-> ->]. destruct (S2 HS) as [-> ->].
    split; [reflexivity|]. cbn [List.filter]. reflexivity.
Qed.

(** A record with a date that does not convert makes [filterRecords]
    throw, when neither its description nor its category matches. *)
Lemma test_field_throws R r k :
  not_nullish r = true -> field_converts r k = false ->
  test_field h R r k = (Throw TypeError, R).
Proof.
  intros Hr. unfold field_converts, test_field.
  rewrite (Get_not_nullish r k Hr).
  destruct (ToString h _) as [s|e] eqn:E; [discriminate|]. intros _.
  rewrite (ToString_TypeError h _ _ E). reflexivity.
Qed.

(** X10: on records whose description, category and date can be read
    and convert to a text, [filterRecords] with a matcher returns; the
    records it returns are records of the list, in the order of the list,
    and the matcher keeps its pattern and flags.  With a matcher that is
    neither global nor sticky (as [compileRegex] builds it for the flags
    that the callers pass) the result is exactly the records whose
    description, category or date matches, and the matcher is left as it
    was. *)
Theorem filterRecords_filter (records : list value) (R : RegExp) :
  forallb searchable records = true ->
  exists kept R',
    filterRecords h records (Some R) = (Normal kept, Some R') /\
    sublist kept records /\
    source R' = source R /\ flags R' = flags R /\
    (global (flags R) = false -> sticky (flags R) = false ->
     kept = List.filter (record_matches R) records /\ R' = R).
Proof.
  intros H. destruct (filter_with_run records R H) as (kept & R' & E & Hsub & [P1 P2] & S).
  exists kept, R'. unfold filterRecords. rewrite E.
  split; [reflexivity|]. split; [exact Hsub|]. split; [exact P1|]. split; [exact P2|].
  intros Hg Hs. destruct (S (conj Hg Hs)) as [-> ->]. auto.
Qed.

End Filter.

Section Compile.

Variable parsePattern : string -> Flags -> option regex.

Lemma isEmpty_trim input :
  Str.isEmpty input || Str.isEmpty (Str.trim input) = Str.isEmpty (Str.trim input).
Proof. destruct input; reflexivity. Qed.

(** X11: [compileRegex] ignores white space around the pattern text: the
    text and the trimmed text compile to the same result, with any
    flags. *)
Theorem compileRegex_trims (input : string) (flags : option string) :
  compileRegex parsePattern (Str.trim input) flags =
  compileRegex parsePattern input flags.
Proof.
  unfold compileRegex. rewrite !isEmpty_trim, trim_idempotent. reflexivity.
Qed.

End Compile.

Lemma filterRecords_filter_witness :
  exists kept R',
    filterRecords frozen_host (records one_record_store)
      (Some (mkRegExp (Seq (Char "t") Empty) flag_i)) = (Normal kept, Some R') /\
    sublist kept (records one_record_store) /\
    source R' = source (mkRegExp (Seq (Char "t") Empty) flag_i) /\
    flags R' = flags (mkRegExp (Seq (Char "t") Empty) flag_i) /\
    (global (flags (mkRegExp (Seq (Char "t") Empty) flag_i)) = false ->
     sticky (flags (mkRegExp (Seq (Char "t") Empty) flag_i)) = false ->
     kept = List.filter (record_matches frozen_host (mkRegExp (Seq (Char "t") Empty) flag_i))
              (records one_record_store) /\
     R' = mkRegExp (Seq (Char "t") Empty) flag_i).
Proof.
  apply (filterRecords_filter frozen_host (records one_record_store)
           (mkRegExp (Seq (Char "t") Empty) flag_i)).
  vm_compute. reflexivity.
Defined.

End FilterFacts.

(** ** Escaping *)

Module UiFacts.

Import Chars Regex JS Search State Ui RegexFacts SearchFacts StateFacts StoreFacts.

(** *** esc *)

(** The characters that [esc] replaces. *)
Definition special (c : ascii) : bool :=
  match source re_esc with
  | Class _ atoms => set_mem atoms c
  | _ => false
  end.

(** The characters with a meaning in HTML text and attribute values that
    no entity contains. *)
Definition markup (c : ascii) : bool :=
  existsb (fun n => (code c =? n)%N) [60; 62; 34; 39; 96; 61; 47]%N.

Definition escape_char (c : ascii) : list ascii :=
  if special c then entity [c] else [c].

Fixpoint find_first (A : ascii -> bool) (bef aft : list ascii) : option (nat * mstate) :=
  match aft with
  | [] => None
  | a :: aft' =>
      if A a then Some (length bef, MState (a :: bef) aft' [])
      else find_first A (a :: bef) aft'
  end.

Lemma scan_class fl atoms :
  ignoreCase fl = false ->
  forall aft bef,
    scan fl (Class false atoms) bef aft = find_first (set_mem atoms) bef aft.
Proof.
  intros Hi. induction aft as [|a aft IH]; intros bef; [reflexivity|].
  cbn [scan matcher find_first]. unfold charSetMatcher, found_in.
  cbn [after before captures]. rewrite Hi. cbn [andb]. rewrite orb_false_r.
  destruct (set_mem atoms a); cbn [eqb]; [reflexivity | apply IH].
Qed.

Lemma find_first_spec A : forall aft bef,
  match find_first A bef aft with
  | None => forallb (fun x => negb (A x)) aft = true
  | Some (i, y) =>
      exists nons c rest,
        aft = nons ++ c :: rest /\ forallb (fun x => negb (A x)) nons = true /\
        A c = true /\ i = length bef + length nons /\
        y = MState (c :: rev nons ++ bef) rest []
  end.
Proof.
  induction aft as [|a aft IH]; intros bef; cbn [find_first]; [reflexivity|].
  destruct (A a) eqn:Ea.
  - exists [], a, aft. cbn. repeat split; auto.
  - specialize (IH (a :: bef)). destruct (find_first A (a :: bef) aft) as [[i y]|].
    + destruct IH as (nons & c & rest & -> & Hn & Hc & -> & ->).
      exists (a :: nons), c, rest. cbn [forallb app length rev]. rewrite Ea, Hn.
      split; [reflexivity|]. split; [reflexivity|]. split; [exact Hc|].
      split; [lia|]. rewrite <- app_assoc. reflexivity.
    + cbn [forallb]. rewrite Ea, IH. reflexivity.
Qed.

Lemma exec_class R atoms pre suf :
  source R = Class false atoms -> flags R = flag_g -> lastIndex R = length pre ->
  RegExpBuiltinExec R (pre ++ suf) =
  match find_first (set_mem atoms) (rev pre) suf with
  | None => (None, set_lastIndex R 0)
  | Some (i, y) =>
      (Some {| index := i;
               matched := firstn (endIndex y - i) (skipn i (pre ++ suf));
               groupsOf := captures y |},
       set_lastIndex R (endIndex y))
  end.
Proof.
  intros Hs Hf Hl. unfold RegExpBuiltinExec. rewrite Hs, Hf, Hl. cbn [global sticky flag_g orb].
  replace (length (pre ++ suf) <? length pre)%nat with false
    by (symmetry; apply Nat.ltb_ge; rewrite length_app; lia).
  rewrite firstn_app, Nat.sub_diag, firstn_all, firstn_O, app_nil_r.
  rewrite skipn_app, Nat.sub_diag, skipn_all, skipn_O. cbn [app].
  rewrite scan_class by reflexivity. reflexivity.
Qed.

Lemma flat_map_plain (l : list ascii) :
  forallb (fun x => negb (special x)) l = true -> flat_map escape_char l = l.
Proof.
  induction l as [|a l IH]; cbn [forallb flat_map]; [reflexivity|].
  intros H. apply andb_true_iff in H as [Ha Hl]. unfold escape_char at 1.
  apply negb_true_iff in Ha. rewrite Ha. cbn [app]. f_equal. exact (IH Hl).
Qed.

Lemma collect_cons fuel R str res R' :
  RegExpBuiltinExec R str = (Some res, R') -> global (flags R) = true ->
  matched res <> [] ->
  fst (collect (S fuel) R str) = res :: fst (collect fuel R' str).
Proof.
  intros E Hg Hm. cbn [collect]. rewrite E, Hg. cbn [negb].
  destruct (matched res); [congruence|].
  destruct (collect fuel R' str). reflexivity.
Qed.

Lemma esc_collect : forall fuel suf pre R,
  source R = source re_esc -> flags R = flag_g -> lastIndex R = length pre ->
  length suf < fuel ->
  forall acc,
    substitute entity (pre ++ suf) (fst (collect fuel R (pre ++ suf))) (length pre) acc
    = acc ++ flat_map escape_char suf.
Proof.
  induction fuel as [|fuel IH]; intros suf pre R Hs Hf Hl Hfuel acc; [lia|].
  pose proof (exec_class R _ pre suf Hs Hf Hl) as Hexec.
  pose proof (find_first_spec
                (set_mem [CChar "&"; CChar "<"; CChar ">"; CChar "034"; CChar "'";
                          CChar "`"; CChar "="; CChar "/"]) suf (rev pre)) as Hspec.
  destruct (find_first _ (rev pre) suf) as [[i y]|].
  - destruct Hspec as (nons & c & rest & -> & Hn & Hc & -> & ->).
    unfold endIndex in Hexec. cbn [before captures] in Hexec.
    assert (Hlen : length (c :: rev nons ++ rev pre)
                   - (length (rev pre) + length nons) = 1).
    { cbn [length]. rewrite length_app, !length_rev. lia. }
    rewrite Hlen in Hexec.
    assert (Hskip : skipn (length (rev pre) + length nons) (pre ++ nons ++ c :: rest)
                    = c :: rest).
    { rewrite length_rev, app_assoc, <- length_app.
      rewrite skipn_app, Nat.sub_diag, skipn_all, skipn_O. reflexivity. }
    rewrite Hskip in Hexec. cbn [firstn] in Hexec.
    rewrite (collect_cons _ _ _ _ _ Hexec); [|rewrite Hf; reflexivity|discriminate].
    cbn [substitute index matched length].
    rewrite length_rev.
    rewrite Nat.min_l by (rewrite !length_app; cbn [length]; lia).
    replace (length pre <=? length pre + length nons)%nat with true
      by (symmetry; apply Nat.leb_le; lia).
    replace (length pre + length nons - length pre) with (length nons) by lia.
    rewrite skipn_app, Nat.sub_diag, skipn_all, skipn_O. cbn [app].
    rewrite firstn_app, Nat.sub_diag, firstn_all, firstn_O, app_nil_r.
    replace (pre ++ nons ++ c :: rest) with ((pre ++ nons ++ [c]) ++ rest)
      by (rewrite <- !app_assoc; reflexivity).
    replace (length pre + length nons + S (length (@nil ascii)))
      with (length (pre ++ nons ++ [c]))
      by (rewrite !length_app; cbn [length]; lia).
    rewrite IH.
    + rewrite flat_map_app, (flat_map_plain nons Hn). cbn [flat_map].
      unfold escape_char at 2. unfold special. cbn [source re_esc mkRegExp].
      rewrite Hc. rewrite <- !app_assoc. reflexivity.
    + exact Hs.
    + exact Hf.
    + cbn [set_lastIndex lastIndex]. rewrite !length_app, !length_rev. cbn [length]. lia.
    + rewrite !length_app in Hfuel. cbn [length] in Hfuel. lia.
  - cbn [collect]. rewrite Hexec. cbn [fst substitute].
    rewrite skipn_app, Nat.sub_diag, skipn_all, skipn_O. cbn [app].
    rewrite flat_map_plain by exact Hspec. reflexivity.
Qed.

Lemma escape_char_no_markup c : forallb (fun x => negb (markup x)) (escape_char c) = true.
Proof. destruct c as [[] [] [] [] [] [] [] []]; vm_compute; reflexivity. Qed.

Lemma flat_map_no_markup l :
  forallb (fun x => negb (markup x)) (flat_map escape_char l) = true.
Proof.
  induction l as [|a l IH]; cbn [flat_map]; [reflexivity|].
  rewrite forallb_app, escape_char_no_markup, IH. reflexivity.
Qed.

Section Ui.

Variable h : Host.

(** [String(str ?? '')] *)
Definition esc_text (str : value) : completion string :=
  ToString h (match str with VUndefined | VNull => VStr "" | v => v end).

(** The global replacement of [esc] on a text *)
Lemma esc_chars text :
  Str.chars (fst (replace text re_esc entity)) = flat_map escape_char (Str.chars text).
Proof.
  unfold replace.
  cbn [flags re_esc mkRegExp global flag_g].
  pose proof (esc_collect (length (Str.chars text) + 2) (Str.chars text) []
                (set_lastIndex (mkRegExp (source re_esc) flag_g) 0)
                eq_refl eq_refl eq_refl) as H.
  cbn [app length] in H. specialize (H ltac:(lia) []).
  destruct (collect _ _ _) as [results R'].
  cbn [fst] in *. rewrite chars_of_chars_list. exact H.
Qed.

Lemma esc_run str text :
  esc_text str = Normal text -> esc h str = Normal (fst (replace text re_esc entity)).
Proof. unfold esc, esc_text. intros ->. reflexivity. Qed.

(** X12: [esc] returns on every value that [String] converts, which every
    primitive value is, and throws the TypeError of the conversion on the
    others.  It replaces each of the eight characters of its pattern by
    its entity and leaves every other character as it is; so its result
    holds none of the characters [<], [>], the two quotes, the backquote,
    [=] and [/], and a text without the eight characters is returned as
    it is. *)
Theorem esc_escapes (str : value) :
  (is_primitive str = true -> exists text, esc_text str = Normal text) /\
  match esc_text str with
  | Throw e => e = TypeError /\ esc h str = Throw TypeError
  | Normal text =>
      exists out,
        esc h str = Normal out /\
        Str.chars out = flat_map escape_char (Str.chars text) /\
        forallb (fun c => negb (markup c)) (Str.chars out) = true /\
        (forallb (fun c => negb (special c)) (Str.chars text) = true -> out = text)
  end.
Proof.
  split.
  - intros Hp. apply returns_Normal. unfold esc_text.
    destruct str as [| |[]| | | |]; try discriminate Hp; reflexivity.
  - destruct (esc_text str) as [text|e] eqn:E.
    + exists (fst (replace text re_esc entity)).
      split; [apply esc_run; exact E|]. split; [apply esc_chars|]. split.
      * rewrite esc_chars. apply flat_map_no_markup.
      * intros H. rewrite <- (chars_of_chars (fst (replace text re_esc entity))).
        rewrite esc_chars, (flat_map_plain _ H). apply chars_of_chars.
    + unfold esc_text in E. pose proof (ToString_TypeError h _ _ E) as ->.
      split; [reflexivity|]. unfold esc. rewrite E. reflexivity.
Qed.

(** X13: the cell text that [renderRecords] builds,
    [highlight(esc(text), re)] for a matcher that is neither global nor
    sticky, is the escaped text itself or the escaped text with one
    marker around one part of it; apart from that marker it holds none
    of the characters that [esc] removes. *)
Theorem highlight_esc_markup (str : value) (R : RegExp) (escaped : string) :
  global (Regex.flags R) = false -> sticky (Regex.flags R) = false ->
  esc h str = Normal escaped ->
  fst (highlight escaped (Some R)) = escaped \/
  exists pre m post,
    Str.chars escaped = pre ++ m ++ post /\
    fst (highlight escaped (Some R)) = Str.of_chars (pre ++ mark m ++ post) /\
    forallb (fun c => negb (markup c)) (pre ++ m ++ post) = true.
Proof.
  intros Hg Hs He.
  destruct (highlight_not_global escaped R Hg Hs) as [H|(pre & m & post & H1 & H2)];
    [left; exact H|].
  right. exists pre, m, post. split; [exact H1|]. split; [exact H2|].
  rewrite <- H1.
  unfold esc in He. fold (esc_text str) in He.
  destruct (esc_text str) as [text|e]; [|discriminate].
  injection He as <-. rewrite esc_chars. apply flat_map_no_markup.
Qed.

End Ui.

Lemma highlight_esc_markup_witness :
  exists escaped,
    esc frozen_host (VStr "<b>tea</b>") = Normal escaped /\
    (fst (highlight escaped (Some (mkRegExp (Seq (Char "t") Empty) flag_i))) = escaped \/
     exists pre m post,
       Str.chars escaped = pre ++ m ++ post /\
       fst (highlight escaped (Some (mkRegExp (Seq (Char "t") Empty) flag_i)))
         = Str.of_chars (pre ++ mark m ++ post) /\
       forallb (fun c => negb (markup c)) (pre ++ m ++ post) = true).
Proof.
  eexists. split; [vm_compute; reflexivity|].
  apply (highlight_esc_markup frozen_host (VStr "<b>tea</b>")
           (mkRegExp (Seq (Char "t") Empty) flag_i));
    [reflexivity | reflexivity | vm_compute; reflexivity].
Defined.

End UiFacts.

(** ** Import and the local store *)

Module ImportFacts.

Import Chars Regex JS Search State Ui RegexFacts SearchFacts StateFacts StoreFacts.

(** An item that the import accepts: an object or an array that has an
    [amount] or a [description]. *)
Definition acceptable (r : value) : bool :=
  match r with
  | VObj props =>
      negb (strict_equals (prop props "amount") VUndefined) ||
      negb (strict_equals (prop props "description") VUndefined)
  | _ => false
  end.

Lemma check_item_outcome r i :
  match check_item r i with
  | None => acceptable r = true
  | Some (Rejected _) => acceptable r = false
  | Some _ => False
  end.
Proof.
  unfold check_item, acceptable.
  destruct r as [| | | | |l|props]; cbn [typeof_object negb orb strict_equals Get]; auto.
  fold (prop props "amount") (prop props "description").
  destruct (strict_equals (prop props "amount") VUndefined); cbn [negb orb]; [|reflexivity].
  destruct (strict_equals (prop props "description") VUndefined); reflexivity.
Qed.

Lemma check_items_outcome items : forall i,
  match check_items items i with
  | None => forallb acceptable items = true
  | Some (Rejected _) => forallb acceptable items = false
  | Some _ => False
  end.
Proof.
  induction items as [|r items IH]; intros i; cbn [check_items forallb]; [reflexivity|].
  pose proof (check_item_outcome r i) as Hr.
  destruct (check_item r i) as [[n|msg|e]|]; try contradiction.
  - rewrite Hr. reflexivity.
  - rewrite Hr. cbn [andb]. apply IH.
Qed.

Lemma acceptable_not_nullish items :
  forallb acceptable items = true -> forallb not_nullish items = true.
Proof.
  induction items as [|r items IH]; cbn [forallb]; [reflexivity|].
  intros H. apply andb_true_iff in H as [Hr Hrs]. rewrite (IH Hrs).
  destruct r; try discriminate Hr. reflexivity.
Qed.

Section Handler.

Variable h : Host.
Variable storageAccepts : Storage.localStorage -> bool.
Variable render : list value -> M unit.

(** The module state after [replaceAll] has replaced the collection by
    the records made of [items]. *)
Definition replaced (items : list value) (st st1 : store) : Prop :=
  replaceAll h storageAccepts (VArr items) st = (Normal true, st1) /\
  Forall normalised (records st1) /\ length (records st1) = length items.

(** X14: the import replaces the collection as a whole or not at all.
    It reports success exactly when the text is the JSON of an array all
    of whose items are acceptable (an [amount] alone or a [description]
    alone is enough) and are made records by [normalise], and the
    rendering that follows returns; the collection then is the items,
    each made a record, as many as the message says.  A message of the
    handler itself and a SyntaxError of [JSON.parse] leave the module
    state as it was.  An accepted item of which [normalise] makes no
    record ends the import with a TypeError and the collection as it was.
    An error of the rendering is reported as an import error although the
    collection has been replaced. *)
Theorem importFile_all_or_nothing (text : string) (st : store) :
  exists o st',
    importFile h storageAccepts render text st = (o, st') /\
    match o with
    | Imported n =>
        exists items st1,
          JSON_parse h text = Some (VArr items) /\
          forallb acceptable items = true /\ n = length items /\
          replaced items st st1 /\
          render (records st1) st1 = (Normal tt, st')
    | Rejected _ =>
        st' = st /\
        forall items, JSON_parse h text = Some (VArr items) ->
                      forallb acceptable items = false
    | Raised e =>
        (st' = st /\ e = SyntaxError /\ JSON_parse h text = None) \/
        (exists items,
           JSON_parse h text = Some (VArr items) /\
           forallb acceptable items = true /\
           forallb (normalisable h) items = false /\
           e = TypeError /\ records st' = records st /\ storage st' = storage st) \/
        (exists items st1,
           JSON_parse h text = Some (VArr items) /\
           forallb acceptable items = true /\
           replaced items st st1 /\
           render (records st1) st1 = (Throw e, st'))
    end.
Proof.
  unfold importFile. destruct (JSON_parse h text) as [data|].
  2: { eexists _, _. split; [reflexivity|]. left. repeat split. }
  destruct data as [| | | | |items|];
    try (eexists _, _; split; [reflexivity|]; split; [reflexivity | discriminate]).
  pose proof (check_items_outcome items 0) as Hc.
  destruct (check_items items 0) as [[n|msg|e]|]; try contradiction.
  { eexists _, _. split; [reflexivity|]. split; [reflexivity|].
    intros items' E. injection E as <-. exact Hc. }
  destruct (forallb (normalisable h) items) eqn:Hn.
  - destruct (replaceAll_run h storageAccepts items st Hn) as (st1 & E & _ & _ & _).
    assert (Hrep : replaced items st st1).
    { split; [exact E|].
      destruct (replaceAll_shape _ _ _ _ _ _ E)
        as [[_ Hne]|(l & rs & Hl & _ & Hrs & Hlen & [-> _])]; [congruence|].
      injection Hl as <-. auto. }
    rewrite E. unfold bind at 1. unfold getRecords, get_records at 1.
    destruct (render (records st1) st1) as [[[]|e] st2] eqn:Er.
    + eexists _, _. split; [reflexivity|]. exists items, st1. auto 6.
    + eexists _, _. split; [reflexivity|]. right. right. exists items, st1. auto 6.
  - destruct (replaceAll_throws h storageAccepts items st Hn) as (st1 & E & R & S).
    rewrite E. eexists _, _. split; [reflexivity|]. right. left.
    exists items. auto 7.
Qed.

End Handler.

End ImportFacts.

Module StorageFacts.

Import JS Storage.

Section Storage.

Variable h : Host.
Variable quota : localStorage -> bool.

Lemma clearAll_lookup ls k :
  clearAll ls !! k = if bool_decide (k ∈ KEYS) then None else ls !! k.
Proof.
  unfold clearAll, KEYS, removeItem. cbn [fold_left].
  unfold KEY_records, KEY_cap, KEY_rates, KEY_currency, KEY_theme.
  unfold localStorage in *.
  destruct (bool_decide _) eqn:E.
  - apply bool_decide_eq_true in E.
    repeat (apply elem_of_cons in E as [->|E];
            [repeat (rewrite lookup_delete_ne by discriminate); apply lookup_delete_eq|]).
    apply elem_of_nil in E. contradiction.
  - apply bool_decide_eq_false in E.
    rewrite !lookup_delete_ne; [reflexivity|..]; intros <-; apply E; set_solver.
Qed.

(** X15: [loadRecords] returns an array whatever the local store holds
    and whatever [JSON.parse] makes of it; it is the stored array when
    the text under the key of the records is not empty and parses to an
    array, and the empty array in every other case. *)
Theorem loadRecords_array (ls : localStorage) :
  isArray (loadRecords h ls) = true /\
  (forall raw l, ls !! KEY_records = Some raw -> Str.isEmpty raw = false ->
                 JSON_parse h raw = Some (VArr l) ->
                 loadRecords h ls = VArr l) /\
  (forall l, l <> [] -> loadRecords h ls = VArr l ->
             exists raw, ls !! KEY_records = Some raw /\
                         JSON_parse h raw = Some (VArr l)).
Proof.
  unfold loadRecords, getItem, safeParse. split; [|split].
  - destruct (ls !! KEY_records) as [raw|]; [|reflexivity].
    destruct (Str.isEmpty raw); [reflexivity|].
    destruct (JSON_parse h raw) as [[]|]; reflexivity.
  - intros raw l -> -> ->. reflexivity.
  - intros l Hl. destruct (ls !! KEY_records) as [raw|]; [|congruence].
    destruct (Str.isEmpty raw); [congruence|].
    destruct (JSON_parse h raw) as [[]|] eqn:Ep; cbn; try congruence.
    intros E. injection E as ->. exists raw. auto.
Qed.

(** X16: after [clearAll] every reader of the settings returns its
    default (no records, the cap 500, the default rates, the currency
    USD, the light theme), and the keys of other applications are left
    alone. *)
Theorem clearAll_defaults (ls : localStorage) :
  loadRecords h (clearAll ls) = VArr [] /\
  getCap h (clearAll ls) = n500 /\
  getRates h (clearAll ls) = DEFAULT_RATES /\
  getDisplayCurrency (clearAll ls) = "USD" /\
  getTheme (clearAll ls) = "light" /\
  (forall k, k ∉ KEYS -> clearAll ls !! k = ls !! k).
Proof.
  unfold loadRecords, getCap, getRates, getDisplayCurrency, getTheme, getItem.
  rewrite !clearAll_lookup. repeat split.
  intros k Hk. rewrite clearAll_lookup. rewrite bool_decide_eq_false_2 by exact Hk.
  reflexivity.
Qed.

(** X17: the theme and the display currency are read back as they were
    written: after an accepted [setTheme] the value has been converted to
    a text, and [getTheme] returns that text when it is not empty
    ("light" after the empty text), and likewise for the currency with
    its default "USD"; neither write changes what the other reader,
    [loadRecords], [getCap] and [getRates] return.  A refused write
    throws and changes nothing. *)
Theorem settings_round_trip (v : value) (ls : localStorage) :
  (forall ls', setTheme h quota v ls = Some ls' ->
     exists text,
       ToString h v = Normal text /\
       getTheme ls' = (if Str.isEmpty text then "light" else text) /\
       getDisplayCurrency ls' = getDisplayCurrency ls /\
       loadRecords h ls' = loadRecords h ls /\
       getCap h ls' = getCap h ls /\
       getRates h ls' = getRates h ls) /\
  (forall ls', setDisplayCurrency h quota v ls = Some ls' ->
     exists text,
       ToString h v = Normal text /\
       getDisplayCurrency ls' = (if Str.isEmpty text then "USD" else text) /\
       getTheme ls' = getTheme ls /\
       loadRecords h ls' = loadRecords h ls /\
       getCap h ls' = getCap h ls /\
       getRates h ls' = getRates h ls).
Proof.
  unfold setTheme, setDisplayCurrency, setItem, localStorage in *.
  split; intros ls';
    (destruct (ToString h v) as [text|e]; [|discriminate]);
    (destruct (quota _); [|discriminate]); intros E; injection E as <-;
    exists text; (split; [reflexivity|]);
    unfold getTheme, getDisplayCurrency, loadRecords, getCap, getRates, getItem,
      KEY_records, KEY_cap, KEY_rates, KEY_currency, KEY_theme, localStorage;
    rewrite lookup_insert_eq, !lookup_insert_ne by discriminate; repeat split.
Qed.

End Storage.

End StorageFacts.

(** ** The matcher decides *)

Module MatcherFacts.

Import Chars Regex RegexFacts.

(** A match ends at or after the position where it starts. *)
Lemma matches_ahead fl r x y : matches fl r x y -> ahead x y.
Proof.
  induction 1 as [x|c x ch rest Ha _|x ch rest Ha _|e x ch rest Ha _
                 |invert atoms x ch rest Ha _
                 |r1 r2 x y z _ IH1 _ IH2|r1 r2 x y _ IH|r1 r2 x y _ IH
                 |min max greedy r x _
                 |min max greedy r x y z _ _ IH1 _ _ IH2
                 |n r x y _ IH|n x _|n s x y _ Hm|r x y _|r x _|x _|x _|negative x _];
    try apply ahead_refl; try (apply ahead_step; exact Ha).
  - eapply ahead_trans; eassumption.
  - exact IH.
  - exact IH.
  - eapply ahead_trans; [|exact IH2].
    eapply ahead_from_same; [| |exact IH1]; reflexivity.
  - eapply ahead_trans; [exact IH|]. apply ahead_same_text; reflexivity.
  - eapply match_captured_ahead. exact Hm.
  - apply ahead_same_text; reflexivity.
Qed.

Section Complete.

Variable fl : mflags.

Lemma orElse_some a b : a <> None \/ b tt <> None -> orElse a b <> None.
Proof. destruct a; simpl; [discriminate|]. intros [H|H]; [congruence | exact H]. Qed.

Lemma charSetMatcher_run A invert x c ch rest :
  after x = ch :: rest -> found_in fl A ch = negb invert ->
  charSetMatcher fl A invert x c = c (step ch rest x).
Proof.
  intros Ha Hf. unfold charSetMatcher. rewrite Ha, Hf.
  destruct invert; reflexivity.
Qed.

(** The matcher finds a match whenever the pattern has one after which
    the continuation succeeds. *)
Lemma matcher_complete r x y :
  matches fl r x y ->
  forall c, c y <> None -> matcher fl r x c <> None.
Proof.
  induction 1 as [x|ch0 x ch rest Ha Hf|x ch rest Ha Hf|e x ch rest Ha Hf
                 |invert atoms x ch rest Ha Hf
                 |r1 r2 x y z _ IH1 _ IH2|r1 r2 x y _ IH|r1 r2 x y _ IH
                 |min max greedy r x Hdone
                 |min max greedy r x y z Hmax Hr IH1 Hprog Hrest IH2
                 |n r x y _ IH|n x Hl|n s x y Hl Hm|r x y Hm|r x Hm|x Hb|x Ha
                 |negative x Hb];
    intros c Hc; cbn [matcher].
  - exact Hc.
  - rewrite (charSetMatcher_run _ false _ _ _ _ Ha Hf). exact Hc.
  - rewrite (charSetMatcher_run _ false _ _ _ _ Ha Hf). exact Hc.
  - rewrite (charSetMatcher_run _ false _ _ _ _ Ha Hf). exact Hc.
  - rewrite (charSetMatcher_run _ invert _ _ _ _ Ha Hf). exact Hc.
  - apply IH1. apply IH2. exact Hc.
  - apply orElse_some. left. apply IH. exact Hc.
  - apply orElse_some. right. apply IH. exact Hc.
  - rewrite Nat.add_succ_r. cbn [repeatMatcher].
    destruct max as [[|k]|]; [exact Hc| |];
      (destruct Hdone as [->|Hk]; [|discriminate Hk]);
      cbn [Nat.eqb negb]; destruct greedy; apply orElse_some; auto.
  - rewrite Nat.add_succ_r. cbn [repeatMatcher].
    assert (Hd : matcher fl r (clear_captures (groups r) x)
              (fun y0 => if (min =? 0)%nat && (endIndex y0 =? endIndex x)%nat then None
                         else repeatMatcher (matcher fl r) (groups r) greedy c
                                (min + length (after x)) (Nat.pred min)
                                (option_map Nat.pred max) y0) <> None).
    { apply IH1.
      assert (Hxy : ahead x y).
      { eapply ahead_from_same; [| |eapply matches_ahead; exact Hr]; reflexivity. }
      destruct (ahead_length x y Hxy) as [Hle Hlt].
      assert (Hcond : (min =? 0)%nat && (endIndex y =? endIndex x)%nat = false).
      { destruct min; [|reflexivity]. cbn [Nat.eqb andb].
        apply Nat.eqb_neq. apply Hprog. reflexivity. }
      rewrite Hcond.
      rewrite <- (matcher_repeat_fuel fl (Nat.pred min) (option_map Nat.pred max)
                    greedy r y c (min + length (after x))).
      - apply IH2. exact Hc.
      - destruct min as [|min']; cbn [Nat.pred].
        + specialize (Hlt (Hprog eq_refl)). lia.
        + lia. }
    destruct max as [[|k]|]; [congruence| |];
      (destruct (min =? 0)%nat; cbn [negb]; [|exact Hd]);
      destruct greedy; apply orElse_some; auto.
  - apply IH. exact Hc.
  - rewrite Hl. exact Hc.
  - rewrite Hl, Hm. exact Hc.
  - rewrite Hm. exact Hc.
  - rewrite Hm. exact Hc.
  - destruct (before x) as [|p ?]; [exact Hc|]. rewrite Hb. exact Hc.
  - destruct (after x) as [|p ?]; [exact Hc|]. rewrite Ha. exact Hc.
  - rewrite Hb. destruct negative; exact Hc.
Qed.

(** X18: the backtracking matcher decides the pattern.  Started at a
    state with the continuation that accepts, it returns a state exactly
    when the pattern, read as a relation between the state before and the
    state after a match, relates the start to some state; and the state
    it returns is such a state. *)
Theorem matcher_decides (r : regex) (x : mstate) :
  (matcher fl r x Some <> None <-> exists y, matches fl r x y) /\
  (forall y, matcher fl r x Some = Some y -> matches fl r x y).
Proof.
  split; [split|].
  - destruct (matcher fl r x Some) as [z|] eqn:E; [|congruence].
    intros _. apply matcher_sound in E as (y & Hy & _). eauto.
  - intros (y & Hy). apply (matcher_complete _ _ _ Hy). discriminate.
  - intros y E. apply matcher_sound in E as (y' & Hy & [= ->]). exact Hy.
Qed.

End Complete.

End MatcherFacts.

(** ** The rules of the validators *)

Module PatternFacts.

Import Chars Regex Validators RegexFacts ValidatorsFacts MatcherFacts.

Lemma validate_run field r s :
  patterns field = Some (mkRegExp (Seq AssertStart r) noFlags) ->
  validate field s = is_some (matcher fl0 r (start_state s) Some).
Proof.
  intros H. unfold validate. rewrite H. rewrite test_anchored by reflexivity. reflexivity.
Qed.

(** *** The date pattern *)

Definition is_char (c : string) (a : ascii) : bool :=
  match c with
  | String c0 _ => (code a =? code c0)%N
  | EmptyString => false
  end.

Definition month_shape (m1 m2 : ascii) : bool :=
  (is_char "0" m1 && in_range 49 57 m2) || (is_char "1" m1 && in_range 48 50 m2).

Definition day_shape (d1 d2 : ascii) : bool :=
  (is_char "0" d1 && in_range 49 57 d2) ||
  ((is_char "1" d1 || is_char "2" d1) && isDigit d2) ||
  (is_char "3" d1 && (is_char "0" d2 || is_char "1" d2)).

(** Four digits, a hyphen, a month from 01 to 12, a hyphen, a day from 01
    to 31. *)
Definition date_shape (l : list ascii) : bool :=
  match l with
  | [y1; y2; y3; y4; h1; m1; m2; h2; d1; d2] =>
      isDigit y1 && isDigit y2 && isDigit y3 && isDigit y4 && is_char "-" h1 &&
      month_shape m1 m2 && is_char "-" h2 && day_shape d1 d2
  | _ => false
  end.

Lemma charSet_step A x c ch rest caps bef :
  x = MState bef (ch :: rest) caps ->
  charSetMatcher fl0 A false x c =
  if A ch then c (MState (ch :: bef) rest caps) else None.
Proof.
  intros ->. unfold charSetMatcher. cbn [after before captures].
  rewrite found_in_fl0. destruct (A ch); reflexivity.
Qed.

Lemma charSet_nil A x c caps bef :
  x = MState bef [] caps -> charSetMatcher fl0 A false x c = None.
Proof. intros ->. reflexivity. Qed.

Ltac run_matcher :=
  repeat first
    [ erewrite charSet_step by reflexivity
    | erewrite charSet_nil by reflexivity
    | progress cbn [matcher seqs fold_right lit range repeatMatcher orElse groups app
                    Nat.add Nat.eqb Nat.pred option_map negb andb length
                    after before captures clear_captures set_capture endIndex
                    multiline fl0 matcher_flags noFlags multilineF List.filter is_some] ].

Lemma set_mem_range lo hi c : set_mem [CRange lo hi] c = in_range (code lo) (code hi) c.
Proof. unfold set_mem. cbn. apply orb_false_r. Qed.

Lemma set_mem_two a b c :
  set_mem [CChar a; CChar b] c = (code c =? code a)%N || (code c =? code b)%N.
Proof. unfold set_mem. cbn. rewrite orb_false_r. reflexivity. Qed.

Ltac split_ifs :=
  repeat (match goal with
          | |- context [if ?b then _ else _] => destruct b
          end; cbn [orElse is_some andb orb negb]);
  try reflexivity.

Lemma date_run l :
  is_some (matcher fl0
    (seqs [ Repeat 4 (Some 4) true (Esc CDigit); lit "-";
            Group 1 (Alt (Seq (lit "0") (Class false [range "1" "9"]))
                         (Seq (lit "1") (Class false [range "0" "2"])));
            lit "-";
            Group 2 (Alt (Seq (lit "0") (Class false [range "1" "9"]))
                    (Alt (Seq (Class false [CChar "1"; CChar "2"]) (Esc CDigit))
                         (Seq (lit "3") (Class false [CChar "0"; CChar "1"]))));
            AssertEnd ]) (MState [] l []) Some) = date_shape l.
Proof.
  destruct l as [|y1 [|y2 [|y3 [|y4 [|h1 [|m1 [|m2 [|h2 [|d1 [|d2 [|e rest]]]]]]]]]]].
  all: run_matcher.
  all: rewrite ?set_mem_range, ?set_mem_two.
  all: unfold date_shape, month_shape, day_shape, is_char; cbn [escape_mem].
  all: change (code "0") with 48%N; change (code "1") with 49%N;
       change (code "2") with 50%N; change (code "3") with 51%N;
       change (code "9") with 57%N; change (code "-") with 45%N.
  all: split_ifs.
Qed.

Lemma validate_date_eq s : validate "date" s = date_shape (Str.chars s).
Proof. rewrite (validate_run "date" _ s eq_refl). apply date_run. Qed.

(** X21: the date rule accepts exactly the texts of ten characters made
    of four digits, a hyphen, a month from 01 to 12, a hyphen and a day
    from 01 to 31; the day is not checked against the month. *)
Theorem validate_date_shape (s : string) :
  validate "date" s = date_shape (Str.chars s).
Proof. apply validate_date_eq. Qed.

End PatternFacts.

(** ** Anchored patterns as languages *)

Module LanguageFacts.

Import Chars Regex Validators RegexFacts ValidatorsFacts MatcherFacts PatternFacts.

(** *** The language of a pattern

    For a pattern without assertions, look-ahead and back references, and
    without flags: the texts it matches, read off the pattern. *)

Inductive rep (L : list ascii -> Prop) : nat -> option nat -> list ascii -> Prop :=
| rep_done min max : min = 0 \/ max = Some 0 -> rep L min max []
| rep_step min max w1 w2 :
    max <> Some 0 -> L w1 -> (min = 0 -> w1 <> []) ->
    rep L (Nat.pred min) (option_map Nat.pred max) w2 ->
    rep L min max (w1 ++ w2).

Fixpoint lang (r : regex) (w : list ascii) {struct r} : Prop :=
  match r with
  | Empty => w = []
  | Char c => w = [c]
  | Dot => exists ch, w = [ch] /\ isLineTerminator ch = false
  | Esc e => exists ch, w = [ch] /\ escape_mem e ch = true
  | Class invert atoms => exists ch, w = [ch] /\ set_mem atoms ch = negb invert
  | Seq r1 r2 => exists w1 w2, w = w1 ++ w2 /\ lang r1 w1 /\ lang r2 w2
  | Alt r1 r2 => lang r1 w \/ lang r2 w
  | Repeat min max _ r' => rep (lang r') min max w
  | Group _ r' => lang r' w
  | _ => False
  end.

Fixpoint pure (r : regex) : bool :=
  match r with
  | Empty | Char _ | Dot | Esc _ | Class _ _ => true
  | Seq r1 r2 | Alt r1 r2 => pure r1 && pure r2
  | Repeat _ _ _ r' | Group _ r' => pure r'
  | _ => false
  end.

(** The state after [w] has been read from [x]. *)
Definition reads (w : list ascii) (x y : mstate) : Prop :=
  after x = w ++ after y /\ before y = rev w ++ before x.

Lemma reads_step x ch rest : after x = ch :: rest -> reads [ch] x (step ch rest x).
Proof. intros H. split; [exact H | reflexivity]. Qed.

Lemma reads_app w1 w2 x y z : reads w1 x y -> reads w2 y z -> reads (w1 ++ w2) x z.
Proof.
  intros [H1 H2] [H3 H4]. split.
  - rewrite H1, H3, app_assoc. reflexivity.
  - rewrite H4, H2, rev_app_distr, app_assoc. reflexivity.
Qed.

Lemma reads_progress w x y : reads w x y -> endIndex y <> endIndex x -> w <> [].
Proof.
  intros [_ H] Hne ->. apply Hne. unfold endIndex. rewrite H. reflexivity.
Qed.

Lemma matches_lang r x y :
  matches fl0 r x y -> pure r = true -> exists w, reads w x y /\ lang r w.
Proof.
  induction 1 as [x|c x ch rest Ha Hf|x ch rest Ha Hf|e x ch rest Ha Hf
                 |invert atoms x ch rest Ha Hf
                 |r1 r2 x y z _ IH1 _ IH2|r1 r2 x y _ IH|r1 r2 x y _ IH
                 |min max greedy r x Hdone
                 |min max greedy r x y z Hmax Hr IH1 Hprog Hrest IH2
                 |n r x y _ IH|n x Hl|n s x y Hl Hm|r x y Hm|r x Hm|x Hb|x Ha
                 |negative x Hb];
    cbn [pure]; intros Hp; try discriminate Hp.
  - exists []. split; [split; reflexivity | reflexivity].
  - rewrite found_in_fl0 in Hf. apply code_inj in Hf. subst ch.
    exists [c]. split; [apply reads_step; exact Ha | reflexivity].
  - rewrite found_in_fl0 in Hf. cbn in Hf.
    exists [ch]. split; [apply reads_step; exact Ha|]. cbn. exists ch.
    split; [reflexivity|]. apply negb_true_iff. exact Hf.
  - rewrite found_in_fl0 in Hf.
    exists [ch]. split; [apply reads_step; exact Ha|]. cbn. eauto.
  - rewrite found_in_fl0 in Hf.
    exists [ch]. split; [apply reads_step; exact Ha|]. cbn. eauto.
  - apply andb_true_iff in Hp as [Hp1 Hp2].
    destruct (IH1 Hp1) as (w1 & R1 & L1). destruct (IH2 Hp2) as (w2 & R2 & L2).
    exists (w1 ++ w2). split; [eapply reads_app; eauto|]. cbn. eauto.
  - apply andb_true_iff in Hp as [Hp1 Hp2].
    destruct (IH Hp1) as (w & R & L). exists w. split; [exact R|]. cbn. auto.
  - apply andb_true_iff in Hp as [Hp1 Hp2].
    destruct (IH Hp2) as (w & R & L). exists w. split; [exact R|]. cbn. auto.
  - exists []. split; [split; reflexivity|]. cbn. constructor. exact Hdone.
  - destruct (IH1 Hp) as (w1 & R1 & L1). destruct (IH2 Hp) as (w2 & R2 & L2).
    assert (R1' : reads w1 x y) by exact R1.
    exists (w1 ++ w2). split; [eapply reads_app; eauto|]. cbn. cbn in L2.
    apply rep_step; auto.
    intros Hmin. eapply reads_progress; [exact R1'|]. auto.
  - destruct (IH Hp) as (w & R & L). exists w. split; [exact R | exact L].
Qed.

Definition consumes (r : regex) (w : list ascii) : Prop :=
  forall x rest, after x = w ++ rest ->
    exists y, matches fl0 r x y /\ after y = rest /\ before y = rev w ++ before x.

Lemma consumes_char (r : regex) (ch : ascii) :
  (forall x rest, after x = ch :: rest -> matches fl0 r x (step ch rest x)) ->
  consumes r [ch].
Proof.
  intros H x rest Ha. exists (step ch rest x). split; [apply H; exact Ha|].
  split; reflexivity.
Qed.

Lemma lang_consumes r : pure r = true -> forall w, lang r w -> consumes r w.
Proof.
  induction r as [|ch0| |e|inv atoms|r1 IHr1 r2 IHr2|r1 IHr1 r2 IHr2|min max greedy r IHr
                  |n r IHr|n|negative r IHr| | |negative];
    cbn [pure lang]; intros Hp w Hw; try discriminate Hp; try contradiction.
  - subst w. intros x rest Ha. exists x. split; [constructor|]. auto.
  - subst w. apply consumes_char. intros x rest Ha. constructor; [exact Ha|].
    rewrite found_in_fl0. apply N.eqb_refl.
  - destruct Hw as (ch & -> & Hc). apply consumes_char. intros x rest Ha.
    constructor; [exact Ha|]. rewrite found_in_fl0. cbn. rewrite Hc. reflexivity.
  - destruct Hw as (ch & -> & Hc). apply consumes_char. intros x rest Ha.
    constructor; [exact Ha|]. rewrite found_in_fl0. exact Hc.
  - destruct Hw as (ch & -> & Hc). apply consumes_char. intros x rest Ha.
    constructor; [exact Ha|]. rewrite found_in_fl0. exact Hc.
  - apply andb_true_iff in Hp as [Hp1 Hp2].
    destruct Hw as (w1 & w2 & -> & L1 & L2). intros x rest Ha.
    rewrite <- app_assoc in Ha.
    destruct (IHr1 Hp1 w1 L1 x _ Ha) as (y & M1 & A1 & B1).
    destruct (IHr2 Hp2 w2 L2 y _ A1) as (z & M2 & A2 & B2).
    exists z. split; [econstructor; eauto|]. split; [exact A2|].
    rewrite B2, B1, rev_app_distr, app_assoc. reflexivity.
  - apply andb_true_iff in Hp as [Hp1 Hp2]. intros x rest Ha. destruct Hw as [L|L].
    + destruct (IHr1 Hp1 w L x _ Ha) as (y & M & A & B).
      exists y. split; [apply M_alt_l; exact M | auto].
    + destruct (IHr2 Hp2 w L x _ Ha) as (y & M & A & B).
      exists y. split; [apply M_alt_r; exact M | auto].
  - induction Hw as [min max Hdone|min max w1 w2 Hmax L1 Hprog _ IH]; intros x rest Ha.
    + exists x. split; [constructor; exact Hdone | auto].
    + rewrite <- app_assoc in Ha.
      destruct (IHr Hp w1 L1 (clear_captures (groups r) x) (w2 ++ rest))
        as (y & M1 & A1 & B1); [rewrite after_clear; exact Ha|].
      destruct (IH y rest A1) as (z & M2 & A2 & B2).
      exists z. split.
      * eapply M_rep_step; eauto. intros Hmin Heq. apply (Hprog Hmin).
        unfold endIndex in Heq. rewrite B1 in Heq. cbn [clear_captures before] in Heq.
        rewrite length_app, length_rev in Heq.
        destruct w1; [reflexivity | cbn in Heq; lia].
      * split; [exact A2|]. rewrite B2, B1, rev_app_distr, app_assoc. reflexivity.
  - intros x rest Ha. destruct (IHr Hp w Hw x rest Ha) as (y & M & A & B).
    eexists. split; [apply M_group; exact M|]. split; [exact A | exact B].
Qed.

(** Patterns in sequence, then the end assertion. *)
Lemma to_end_sound rs : forall x y,
  forallb pure rs = true ->
  matches fl0 (seqs (rs ++ [AssertEnd])) x y -> lang (seqs rs) (after x).
Proof.
  induction rs as [|r rs IH]; intros x y Hp H; cbn [app seqs fold_right] in *.
  - apply matches_end_nil in H. exact H.
  - cbn [forallb] in Hp. apply andb_true_iff in Hp as [Hp1 Hp2].
    apply matches_seq_inv in H as (y1 & H1 & H2).
    destruct (matches_lang _ _ _ H1 Hp1) as (w & [R _] & L).
    cbn [lang]. exists w, (after y1). split; [exact R|]. split; [exact L|].
    exact (IH _ _ Hp2 H2).
Qed.

Lemma to_end_complete rs : forall x,
  forallb pure rs = true -> lang (seqs rs) (after x) ->
  exists y, matches fl0 (seqs (rs ++ [AssertEnd])) x y.
Proof.
  induction rs as [|r rs IH]; intros x Hp L; cbn [app seqs fold_right lang] in *.
  - exists x. econstructor; [|constructor]. constructor. rewrite L. reflexivity.
  - cbn [forallb] in Hp. apply andb_true_iff in Hp as [Hp1 Hp2].
    destruct L as (w1 & w2 & Hw & L1 & L2).
    destruct (lang_consumes r Hp1 _ L1 x w2 Hw) as (y & M & A & _).
    destruct (IH y Hp2) as (z & Hz); [rewrite A; exact L2|].
    exists z. econstructor; eauto.
Qed.

Lemma anchored_language (rs : list regex) (s : string) :
  forallb pure rs = true ->
  (fst (test (mkRegExp (seqs (AssertStart :: rs ++ [AssertEnd])) noFlags) s) = true <->
   lang (seqs rs) (Str.chars s)).
Proof.
  intros Hp. cbn [seqs fold_right]. rewrite test_anchored by reflexivity.
  change (matcher_flags noFlags) with fl0.
  fold (seqs (rs ++ [AssertEnd])).
  destruct (matcher fl0 (seqs (rs ++ [AssertEnd])) (MState [] (Str.chars s) []) Some)
    as [z|] eqn:E.
  - split; [intros _|reflexivity].
    apply matcher_sound in E as (y & Hy & _).
    apply (to_end_sound rs _ _ Hp Hy).
  - split; [discriminate|]. intros L. exfalso.
    destruct (to_end_complete rs (MState [] (Str.chars s) []) Hp L) as (y & Hy).
    revert E. apply (matcher_complete _ _ _ _ Hy). discriminate.
Qed.

(** The four rules of [validate] that are anchored at both ends: what
    stands between [^] and [$]. *)
Definition rule_body (field : string) : list regex :=
  if String.eqb field "description"
  then [ Esc CNotSpace; Opt (Seq (Star Dot) (Esc CNotSpace)) ]
  else if String.eqb field "amount"
  then [ Group 1 (Alt (lit "0") (Seq (Class false [range "1" "9"]) (Star (Esc CDigit))));
         Opt (Group 2 (Seq (lit ".") (Repeat 1 (Some 2) true (Esc CDigit)))) ]
  else if String.eqb field "date"
  then [ Repeat 4 (Some 4) true (Esc CDigit); lit "-";
         Group 1 (Alt (Seq (lit "0") (Class false [range "1" "9"]))
                      (Seq (lit "1") (Class false [range "0" "2"])));
         lit "-";
         Group 2 (Alt (Seq (lit "0") (Class false [range "1" "9"]))
                 (Alt (Seq (Class false [CChar "1"; CChar "2"]) (Esc CDigit))
                      (Seq (lit "3") (Class false [CChar "0"; CChar "1"])))) ]
  else if String.eqb field "category"
  then [ Plus (Class false [range "A" "Z"; range "a" "z"]);
         Star (Seq (Class false [CChar " "; CChar "-"])
                   (Plus (Class false [range "A" "Z"; range "a" "z"]))) ]
  else [].

Lemma validate_lang field s :
  field = "description" \/ field = "amount" \/ field = "date" \/ field = "category" ->
  (validate field s = true <-> lang (seqs (rule_body field)) (Str.chars s)).
Proof.
  intros H; destruct H as [H|[H|[H|H]]]; subst field; unfold validate;
    match goal with |- context [patterns ?f] =>
      change (patterns f) with
        (Some (mkRegExp (seqs (AssertStart :: rule_body f ++ [AssertEnd])) noFlags)) end;
    apply anchored_language; reflexivity.
Qed.

(** X19: the description, amount, date and category rules of [validate]
    are tests for a regular language: each has the form [^r1...rn$]
    without flags, where the [ri] have no assertion, look-ahead or back
    reference, and [validate] returns [true] exactly on the texts that
    [r1...rn] generates when it is read as a regular expression. *)
Theorem validate_language (field s : string) :
  field = "description" \/ field = "amount" \/ field = "date" \/ field = "category" ->
  patterns field =
    Some (mkRegExp (seqs (AssertStart :: rule_body field ++ [AssertEnd])) noFlags) /\
  forallb pure (rule_body field) = true /\
  (validate field s = true <-> lang (seqs (rule_body field)) (Str.chars s)).
Proof.
  intros H. split; [|split].
  - destruct H as [H|[H|[H|H]]]; subst field; reflexivity.
  - destruct H as [H|[H|[H|H]]]; subst field; reflexivity.
  - apply validate_lang. exact H.
Qed.

Lemma validate_language_witness :
  patterns "date" =
    Some (mkRegExp (seqs (AssertStart :: rule_body "date" ++ [AssertEnd])) noFlags) /\
  forallb pure (rule_body "date") = true /\
  (validate "date" "2026-02-30" = true <->
   lang (seqs (rule_body "date")) (Str.chars "2026-02-30")).
Proof.
  apply (validate_language "date" "2026-02-30"). right. right. left. reflexivity.
Defined.

End LanguageFacts.

(** ** The shapes of the accepted texts *)

Module ShapeFacts.

Import Chars Regex Validators RegexFacts ValidatorsFacts MatcherFacts PatternFacts
       LanguageFacts StoreFacts.

(** *** Repetitions of one character *)

Lemma rep_chars (L : list ascii -> Prop) (A : ascii -> bool) :
  (forall ch, A ch = true -> L [ch]) ->
  forall ds min, forallb A ds = true -> min <= length ds -> rep L min None ds.
Proof.
  intros HL. induction ds as [|d ds IH]; intros min Hds Hmin.
  - constructor. left. cbn in Hmin. lia.
  - cbn [forallb] in Hds. apply andb_true_iff in Hds as [Hd Hds].
    change (d :: ds) with ([d] ++ ds). apply rep_step; [discriminate|auto|discriminate|].
    apply IH; [exact Hds|]. cbn in Hmin. lia.
Qed.

Lemma rep_chars_inv (L : list ascii -> Prop) (A : ascii -> bool) :
  (forall w, L w -> exists ch, w = [ch] /\ A ch = true) ->
  forall min max w, rep L min max w -> max = None ->
    forallb A w = true /\ min <= length w.
Proof.
  intros HL min max w H.
  induction H as [min max Hdone|min max w1 w2 Hmax L1 Hprog _ IH]; intros ->.
  - split; [reflexivity|]. destruct Hdone as [-> | ?]; [cbn; lia | discriminate].
  - destruct (IH eq_refl) as [IH1 IH2].
    destruct (HL _ L1) as (ch & -> & Hch). cbn [app forallb length].
    rewrite Hch, IH1. split; [reflexivity | lia].
Qed.

(** *** The amount pattern *)

Lemma frac_lang fp :
  frac_shape fp ->
  lang (Opt (Group 2 (Seq (lit ".") (Repeat 1 (Some 2) true (Esc CDigit))))) fp.
Proof.
  intros H. cbn [lang Opt lit]. destruct H as [|d Hd|d1 d2 Hd1 Hd2].
  - constructor. left. reflexivity.
  - change ["."%char; d] with (["."%char; d] ++ []).
    apply rep_step; [discriminate| |discriminate|constructor; right; reflexivity].
    exists ["."%char], [d]. split; [reflexivity|]. split; [reflexivity|].
    change [d] with ([d] ++ []).
    apply rep_step; [discriminate|cbn; eauto|discriminate|].
    constructor. left. reflexivity.
  - change ["."%char; d1; d2] with (["."%char; d1; d2] ++ []).
    apply rep_step; [discriminate| |discriminate|constructor; right; reflexivity].
    exists ["."%char], [d1; d2]. split; [reflexivity|]. split; [reflexivity|].
    change [d1; d2] with ([d1] ++ [d2] ++ []).
    apply rep_step; [discriminate|cbn; eauto|discriminate|].
    apply rep_step; [discriminate|cbn; eauto|discriminate|].
    constructor. right. reflexivity.
Qed.

Lemma amount_lang l : amount_shape l -> lang (seqs (rule_body "amount")) l.
Proof.
  intros H. change (rule_body "amount") with
    [ Group 1 (Alt (lit "0") (Seq (Class false [range "1" "9"]) (Star (Esc CDigit))));
      Opt (Group 2 (Seq (lit ".") (Repeat 1 (Some 2) true (Esc CDigit)))) ].
  cbn [seqs fold_right]. destruct H as [fp Hfp|d ds fp Hd Hds Hfp].
  - exists ["0"%char], fp. split; [reflexivity|]. split; [left; reflexivity|].
    exists fp, []. split; [rewrite app_nil_r; reflexivity|].
    split; [apply frac_lang; exact Hfp | reflexivity].
  - exists (d :: ds), fp. split; [reflexivity|]. split.
    + right. exists [d], ds. split; [reflexivity|]. split.
      * exists d. split; [reflexivity|]. rewrite set_mem_19. exact Hd.
      * apply (rep_chars _ isDigit); [cbn; eauto | exact Hds | cbn; lia].
    + exists fp, []. split; [rewrite app_nil_r; reflexivity|].
      split; [apply frac_lang; exact Hfp | reflexivity].
Qed.

Lemma validate_amount_iff s :
  validate "amount" s = true <-> amount_shape (Str.chars s).
Proof.
  split.
  - rewrite validate_amount_run.
    destruct (matcher fl0 amount_body (start_state s) Some) as [z|] eqn:E; [|discriminate].
    intros _. apply matcher_sound in E as (y & Hy & _).
    apply amount_body_shape in Hy. exact Hy.
  - intros H. apply validate_lang; [auto|]. apply amount_lang. exact H.
Qed.

(** X20: the amount rule accepts exactly the texts that are 0 or a digit
    from 1 to 9 followed by digits, then nothing or a point with one or
    two digits: no sign, no exponent, no leading zero, no space. *)
Theorem validate_amount_shape (s : string) :
  validate "amount" s = true <-> amount_shape (Str.chars s).
Proof. apply validate_amount_iff. Qed.

(** *** The description pattern *)

(** A first and a last character that are not white space and, after
    the first, no line terminator. *)
Definition description_shape (l : list ascii) : bool :=
  match l with
  | [] => false
  | c :: rest =>
      negb (isWhiteSpace c) && negb (isWhiteSpace (List.last rest c)) &&
      forallb (fun a => negb (isLineTerminator a)) rest
  end.

Lemma not_space_not_terminator c : isWhiteSpace c = false -> isLineTerminator c = false.
Proof.
  unfold isWhiteSpace, isLineTerminator, in_range. intros H.
  apply orb_false_iff in H as [H _]. apply orb_false_iff in H as [H _].
  destruct (code c =? 10)%N eqn:E1.
  { apply N.eqb_eq in E1. rewrite E1 in H. discriminate H. }
  destruct (code c =? 13)%N eqn:E2.
  { apply N.eqb_eq in E2. rewrite E2 in H. discriminate H. }
  reflexivity.
Qed.

Lemma description_lang l :
  lang (seqs (rule_body "description")) l <-> description_shape l = true.
Proof.
  change (rule_body "description") with
    [ Esc CNotSpace; Opt (Seq (Star Dot) (Esc CNotSpace)) ].
  cbn [seqs fold_right lang Opt Star]. split.
  - intros (w1 & w2 & -> & (c & -> & Hc) & (w3 & w4 & -> & Hopt & ->)).
    rewrite app_nil_r. cbn [app description_shape]. cbn in Hc. rewrite Hc. cbn [andb].
    inversion Hopt as [min max Hdone|min max u1 u2 Hmax Hu1 Hprog Hu2]; subst.
    + cbn. apply negb_true_iff in Hc. rewrite Hc. reflexivity.
    + inversion Hu2 as [min max Hdone|min max v1 v2 Hmax' _ _ _]; subst;
        [|cbn in Hmax'; congruence].
      rewrite app_nil_r. destruct Hu1 as (ds & e1 & -> & Hds & (e & -> & He)).
      apply (rep_chars_inv _ (fun a => negb (isLineTerminator a))) in Hds as [Hds _];
        [| |reflexivity].
      2: { intros w (ch & -> & Hch). exists ch. rewrite Hch. auto. }
      rewrite List.last_last, forallb_app, Hds. cbn in He. rewrite He. cbn.
      apply negb_true_iff in He. rewrite (not_space_not_terminator _ He). reflexivity.
  - destruct l as [|c rest]; [discriminate|]. cbn [description_shape].
    intros H. apply andb_true_iff in H as [H Hlt]. apply andb_true_iff in H as [Hc He].
    exists [c], rest. split; [reflexivity|]. split; [cbn; eauto|].
    exists rest, []. split; [rewrite app_nil_r; reflexivity|]. split; [|reflexivity].
    destruct rest as [|r0 rest0] using rev_ind; [constructor; left; reflexivity|].
    clear IHrest0. rewrite <- (app_nil_r (rest0 ++ [r0])).
    apply rep_step; [discriminate| |
      intros _ Hn; apply app_eq_nil in Hn as [_ Hn]; discriminate Hn|
      constructor; right; reflexivity].
    rewrite List.last_last in He. rewrite forallb_app in Hlt.
    apply andb_true_iff in Hlt as [Hlt _].
    exists rest0, [r0]. split; [reflexivity|]. split; [|cbn; eauto].
    apply (rep_chars _ (fun a => negb (isLineTerminator a))); [|exact Hlt|lia].
    intros ch Hch. exists ch. split; [reflexivity|]. apply negb_true_iff. exact Hch.
Qed.

Lemma trimStart_head c l : isWhiteSpace c = false -> Str.trimStart (c :: l) = c :: l.
Proof. intros H. cbn. rewrite H. reflexivity. Qed.

Lemma description_shape_trimmed l :
  description_shape l = true -> Str.trimEnd (Str.trimStart l) = l.
Proof.
  destruct l as [|c rest]; [discriminate|]. cbn [description_shape].
  intros H. apply andb_true_iff in H as [H _]. apply andb_true_iff in H as [Hc He].
  apply negb_true_iff in Hc, He.
  rewrite (trimStart_head _ _ Hc). unfold Str.trimEnd.
  assert (Hrev : exists e l', rev (c :: rest) = e :: l' /\ isWhiteSpace e = false).
  { destruct rest as [|r0 rest0] using rev_ind.
    - exists c, []. auto.
    - rewrite List.last_last in He. exists r0, (rev rest0 ++ [c]).
      split; [|exact He]. cbn [rev]. rewrite rev_app_distr. reflexivity. }
  destruct Hrev as (e & l' & Hr & Hws). rewrite Hr, (trimStart_head _ _ Hws), <- Hr.
  apply rev_involutive.
Qed.

Lemma validate_description_eq s :
  validate "description" s = description_shape (Str.chars s).
Proof. apply eq_true_iff_eq. rewrite <- description_lang. apply validate_lang. auto. Qed.

(** X22: the description rule accepts exactly the texts that are not
    empty, whose first and last characters are not white space and that
    hold no line terminator after the first character; a text that it
    accepts is left as it is by [trim]. *)
Theorem validate_description_shape (s : string) :
  validate "description" s = description_shape (Str.chars s) /\
  (validate "description" s = true -> Str.trim s = s).
Proof.
  split; [apply validate_description_eq|]. rewrite validate_description_eq.
  intros Hs. unfold Str.trim.
  rewrite (description_shape_trimmed _ Hs). apply SearchFacts.chars_of_chars.
Qed.

(** *** The category pattern *)

Definition isLetter (c : ascii) : bool := in_range 65 90 c || in_range 97 122 c.

Definition isSeparator (c : ascii) : bool := (code c =? 32)%N || (code c =? 45)%N.

(** Words of letters with one space or one hyphen between two words. *)
Fixpoint category_scan (after_letter : bool) (l : list ascii) : bool :=
  match l with
  | [] => after_letter
  | c :: l' =>
      if isLetter c then category_scan true l'
      else if isSeparator c then after_letter && category_scan false l'
      else false
  end.

Definition category_shape (l : list ascii) : bool := category_scan false l.

Definition letter_re : regex := Class false [range "A" "Z"; range "a" "z"].
Definition group_re : regex := Seq (Class false [CChar " "; CChar "-"]) (Plus letter_re).

Lemma letter_lang w : lang letter_re w <-> exists ch, w = [ch] /\ isLetter ch = true.
Proof.
  cbn [lang letter_re]. split; intros (ch & -> & H); exists ch; (split; [reflexivity|]);
    revert H; unfold set_mem, isLetter; cbn [existsb atom_mem range negb];
    rewrite orb_false_r; auto.
Qed.

Lemma separator_not_letter c : isSeparator c = true -> isLetter c = false.
Proof.
  unfold isSeparator, isLetter, in_range. intros H.
  apply orb_true_iff in H as [H|H]; apply N.eqb_eq in H; rewrite H; reflexivity.
Qed.

Lemma letters_lang w : rep (lang letter_re) 1 None w <-> forallb isLetter w = true /\ w <> [].
Proof.
  split.
  - intros H. apply (rep_chars_inv _ isLetter) in H as [H1 H2]; [| |reflexivity].
    + split; [exact H1|]. destruct w; [cbn in H2; lia | discriminate].
    + intros u Hu. apply letter_lang. exact Hu.
  - intros [H1 H2]. apply (rep_chars _ isLetter); [|exact H1|].
    + intros ch Hch. apply letter_lang. eauto.
    + destruct w; [congruence | cbn; lia].
Qed.

Lemma group_lang w :
  lang group_re w <->
  exists s u, w = s :: u /\ isSeparator s = true /\ forallb isLetter u = true /\ u <> [].
Proof.
  unfold group_re. cbn [lang Plus]. fold letter_re. split.
  - intros (w1 & w2 & -> & (s & -> & Hs) & Hu). apply letters_lang in Hu as [Hu1 Hu2].
    exists s, w2. split; [reflexivity|]. split; [|auto].
    revert Hs. unfold set_mem, isSeparator. cbn [existsb atom_mem negb].
    rewrite orb_false_r. auto.
  - intros (s & u & -> & Hs & Hu1 & Hu2). exists [s], u. split; [reflexivity|]. split.
    + exists s. split; [reflexivity|]. revert Hs. unfold set_mem, isSeparator.
      cbn [existsb atom_mem negb]. rewrite orb_false_r. auto.
    + apply letters_lang. auto.
Qed.

Lemma letters_scan w : forall b t,
  forallb isLetter w = true -> w <> [] \/ b = true ->
  category_scan b (w ++ t) = category_scan true t.
Proof.
  induction w as [|c w IH]; intros b t Hw Hb.
  - destruct Hb as [Hb | ->]; [congruence | reflexivity].
  - cbn [forallb] in Hw. apply andb_true_iff in Hw as [Hc Hw].
    cbn [app category_scan]. rewrite Hc. apply IH; auto.
Qed.

Lemma groups_scan t : rep (lang group_re) 0 None t -> category_scan true t = true.
Proof.
  intros H. remember 0 as min eqn:Emin. remember (@None nat) as max eqn:Emax.
  induction H as [min max Hdone|min max w1 w2 Hmax L1 Hprog _ IH]; [reflexivity|].
  subst. apply group_lang in L1 as (s & u & -> & Hs & Hu1 & Hu2).
  cbn [app category_scan]. rewrite (separator_not_letter _ Hs), Hs. cbn [andb].
  rewrite letters_scan by auto. apply IH; reflexivity.
Qed.

Lemma scan_groups l : forall b,
  category_scan b l = true ->
  exists w t, l = w ++ t /\ forallb isLetter w = true /\ (w <> [] \/ b = true) /\
    rep (lang group_re) 0 None t.
Proof.
  induction l as [|c l IH]; intros b H; cbn [category_scan] in H.
  - exists [], []. split; [reflexivity|]. split; [reflexivity|]. split; [auto|].
    constructor. left. reflexivity.
  - destruct (isLetter c) eqn:Ec.
    + destruct (IH true H) as (w & t & -> & Hw & _ & Ht).
      exists (c :: w), t. split; [reflexivity|]. cbn [forallb]. rewrite Ec, Hw.
      split; [reflexivity|]. split; [left; discriminate | exact Ht].
    + destruct (isSeparator c) eqn:Es; [|discriminate].
      apply andb_true_iff in H as [-> H].
      destruct (IH false H) as (w & t & -> & Hw & [Hne|Hb] & Ht); [|discriminate].
      exists [], ((c :: w) ++ t). split; [reflexivity|]. split; [reflexivity|].
      split; [auto|]. apply rep_step; [discriminate| |discriminate|exact Ht].
      apply group_lang. exists c, w. auto.
Qed.

Lemma category_lang l :
  lang (seqs (rule_body "category")) l <-> category_shape l = true.
Proof.
  change (rule_body "category") with [Plus letter_re; Star group_re].
  cbn [seqs fold_right lang Plus Star]. unfold category_shape. split.
  - intros (w1 & w2 & -> & H1 & (w3 & w4 & -> & H3 & ->)).
    apply letters_lang in H1 as [H1 H1']. rewrite app_nil_r.
    rewrite letters_scan by auto. apply groups_scan. exact H3.
  - intros H. destruct (scan_groups l false H) as (w & t & -> & Hw & [Hne|Hb] & Ht);
      [|discriminate].
    exists w, t. split; [reflexivity|]. split; [apply letters_lang; auto|].
    exists t, []. split; [rewrite app_nil_r; reflexivity|]. auto.
Qed.

Lemma validate_category_eq s :
  validate "category" s = category_shape (Str.chars s).
Proof. apply eq_true_iff_eq. rewrite <- category_lang. apply validate_lang. auto. Qed.

(** X23: the category rule accepts exactly the texts made of words of
    the letters A to Z and a to z with one space or one hyphen between
    two words: no digit, no accent, no leading, trailing or doubled
    separator. *)
Theorem validate_category_shape (s : string) :
  validate "category" s = category_shape (Str.chars s).
Proof. apply validate_category_eq. Qed.

End ShapeFacts.

(** * The form and search handlers of ui.js, and what an update keeps *)

Module HandlerFacts.

Import Chars Regex Validators JS Search State Ui RegexFacts ValidatorsFacts SearchFacts
       StateFacts StoreFacts StatsFacts FilterFacts.

Section Handlers.

Variable h : Host.
Variable storageAccepts : Storage.localStorage -> bool.
Variable parsePattern : string -> Flags -> option regex.
Variable toNumber : parsed_number -> number.

(** [addRecord] of an object whose fields convert: the record it appends,
    field by field. *)
Lemma addRecord_fields (data : value) (st : store) d a c :
  ToBoolean data = true -> typeof_object data = true ->
  ToString h (or_else (prop (own_properties data) "description") (VStr "")) = Normal d ->
  ToNumber h (prop (own_properties data) "amount") = Normal a ->
  ToString h (or_else (prop (own_properties data) "category") (VStr "Other")) = Normal c ->
  exists dt st',
    let rec :=
      record_of (VStr (make_id (clock h (ticks st)) (increment (counter st))))
        (Str.trim d) (number_or_zero a) (Str.trim c) dt
        (VStr (Date.toISOString (clock h (S (ticks st)))))
        (VStr (Date.toISOString (clock h (S (S (ticks st)))))) in
    addRecord h storageAccepts data st = (Normal rec, st') /\
    records st' = records st ++ [rec] /\
    (ToBoolean (prop (own_properties data) "date") = true ->
     dt = prop (own_properties data) "date").
Proof.
  intros Hdata Hobj Ed Ea Ec. rewrite (addRecord_unfold h storageAccepts data st Hdata Hobj).
  set (id := make_id (clock h (ticks st)) (increment (counter st))).
  set (created := VStr (Date.toISOString (clock h (S (ticks st))))).
  set (updated := VStr (Date.toISOString (clock h (S (S (ticks st)))))).
  set (m := <["updatedAt" := updated]>
            (<["createdAt" := created]> (<["id" := VStr id]> (own_properties data)))).
  set (st3 := {| records := records st; counter := increment (counter st);
                 ticks := S (S (S (ticks st))); storage := storage st |}).
  assert (Pid : prop m "id" = VStr id).
  { unfold m. rewrite !prop_insert_ne by discriminate. apply prop_insert_eq. }
  assert (Pcr : prop m "createdAt" = created).
  { unfold m. rewrite prop_insert_ne by discriminate. apply prop_insert_eq. }
  assert (Pup : prop m "updatedAt" = updated).
  { unfold m. apply prop_insert_eq. }
  assert (Pother : forall k, k <> "id" -> k <> "createdAt" -> k <> "updatedAt" ->
                             prop m k = prop (own_properties data) k).
  { intros k N1 N2 N3. unfold m. rewrite !prop_insert_ne by congruence. reflexivity. }
  rewrite <- (Pother "description") in Ed by discriminate.
  rewrite <- (Pother "amount") in Ea by discriminate.
  rewrite <- (Pother "category") in Ec by discriminate.
  destruct (normalise_object_form h m st3 d a c Ed Ea Ec)
    as (id' & dt & cr & up & st4 & E & _ & _ & _ & _ & F & Kid & _ & Kdt & Kcr & Kup).
  rewrite Pid in Kid. rewrite Pcr in Kcr. rewrite Pup in Kup.
  rewrite Pother in Kdt by discriminate.
  destruct (Kid eq_refl) as [-> _].
  rewrite (Kcr ltac:(unfold created, ToBoolean; rewrite toISOString_nonempty; reflexivity)) in E.
  rewrite (Kup ltac:(unfold updated, ToBoolean; rewrite toISOString_nonempty; reflexivity)) in E.
  rewrite (bind_run _ _ _ _ _ E).
  unfold bind at 1. unfold get_records at 1.
  destruct F as (R4 & S4 & _). cbn [records storage] in R4, S4. rewrite R4.
  match goal with |- context [bind (set_records ?new) ?k ?s] =>
    destruct (bind (set_records new) k s) as [c0 st'] eqn:Ew end.
  apply (write_through h storageAccepts _ _ st) in Ew; [|split; assumption].
  destruct Ew as [-> [W _]].
  exists dt, st'. cbv zeta. split; [reflexivity|]. split; [exact W | exact Kdt].
Qed.

Definition trimmed (f : form) : form :=
  {| desc := Str.trim (desc f); amount := amount f;
     category := Str.trim (category f); date := date f |}.

Lemma validateForm_accepts f :
  validateForm f = None -> category f <> "" /\ date f <> "".
Proof.
  unfold validateForm.
  destruct (validate "description" (desc f)); [|discriminate]. cbn [negb].
  destruct (validate "amount" (amount f)); [|discriminate]. cbn [negb].
  destruct (strictly_equals_zero (parseFloat (amount f))); [discriminate|].
  destruct (validate "category" (category f)) eqn:Ec; [|discriminate]. cbn [negb].
  destruct (validate "date" (date f)) eqn:Ed; [|discriminate]. cbn [negb].
  intros _. split; intros E.
  - rewrite E in Ec. vm_compute in Ec. discriminate Ec.
  - rewrite E in Ed. vm_compute in Ed. discriminate Ed.
Qed.

Lemma form_data_props (f : form) :
  let d := own_properties (form_data toNumber f) in
  prop d "description" = VStr (Str.trim (desc f)) /\
  prop d "amount" = VNum (toNumber (parseFloat (amount f))) /\
  prop d "category" = VStr (Str.trim (category f)) /\
  prop d "date" = VStr (date f).
Proof.
  cbv zeta. unfold form_data, prop. cbn [own_properties].
  repeat split;
    repeat (rewrite lookup_insert_ne by discriminate);
    rewrite lookup_insert_eq; reflexivity.
Qed.

(** X24: the submit handler of the record form.  When [validateForm]
    rejects the trimmed inputs the handler reports its message and the
    store is as it was.  When it accepts them and the form has no edit
    id, the handler appends one record whose description, category and
    date are the trimmed description, the trimmed category and the date
    exactly as typed, and whose amount is the Number that [parseFloat]
    read, or 0 when that is NaN or a zero.  When the form has an edit
    id that no record of a collection without [null] and [undefined]
    elements has, the handler reports "updated" all the same and the
    store is as it was. *)
Theorem submitForm_outcome (f : form) (editId : option string) (st : store) :
  (forall message, validateForm (trimmed f) = Some message ->
     submitForm h storageAccepts toNumber f editId st = (Normal (FormError message), st)) /\
  (validateForm (trimmed f) = None -> editId = None \/ editId = Some "" ->
     exists rec st',
       submitForm h storageAccepts toNumber f editId st = (Normal RecordAdded, st') /\
       records st' = records st ++ [rec] /\
       Get rec "description" = Normal (VStr (Str.trim (desc f))) /\
       Get rec "amount" =
         Normal (VNum (number_or_zero (toNumber (parseFloat (amount f))))) /\
       Get rec "category" = Normal (VStr (Str.trim (category f))) /\
       Get rec "date" = Normal (VStr (date f))) /\
  (validateForm (trimmed f) = None ->
   forall id, editId = Some id -> id <> "" ->
     forallb not_nullish (records st) = true ->
     existsb (has_id (VStr id)) (records st) = false ->
     submitForm h storageAccepts toNumber f editId st = (Normal RecordUpdated, st)).
Proof.
  unfold submitForm. fold (trimmed f). split; [|split].
  - intros message ->. reflexivity.
  - intros Hv Hedit. rewrite Hv.
    destruct (validateForm_accepts _ Hv) as [Hc Hd]. cbn [trimmed category date] in Hc, Hd.
    assert (Hadd : exists rec st',
      addRecord h storageAccepts (form_data toNumber f) st = (Normal rec, st') /\
      records st' = records st ++ [rec] /\
      Get rec "description" = Normal (VStr (Str.trim (desc f))) /\
      Get rec "amount" =
        Normal (VNum (number_or_zero (toNumber (parseFloat (amount f))))) /\
      Get rec "category" = Normal (VStr (Str.trim (category f))) /\
      Get rec "date" = Normal (VStr (date f))).
    { destruct (form_data_props f) as (Pd & Pa & Pc & Pt).
      assert (Hcat : or_else (VStr (Str.trim (category f))) (VStr "Other")
                     = VStr (Str.trim (category f))).
      { unfold or_else. cbn [ToBoolean].
        destruct (Str.trim (category f)); [congruence | reflexivity]. }
      destruct (addRecord_fields (form_data toNumber f) st
                  (Str.trim (desc f)) (toNumber (parseFloat (amount f)))
                  (Str.trim (category f)) eq_refl eq_refl)
        as (dt & st' & E & Hrs & Kdt).
      { rewrite Pd. apply ToString_or_empty. }
      { rewrite Pa. reflexivity. }
      { rewrite Pc, Hcat. reflexivity. }
      cbv zeta in *. eexists _, st'. split; [exact E|]. split; [exact Hrs|].
      rewrite Pt in Kdt.
      match goal with |- context [record_of ?a ?b ?c ?d ?e ?g ?i] =>
        destruct (Get_record_of a b c d e g i) as (_ & G2 & G3 & G4 & G5 & _) end.
      rewrite G2, G3, G4, G5. rewrite !trim_idempotent.
      rewrite Kdt; [auto|]. cbn [ToBoolean]. destruct (date f); [congruence | reflexivity]. }
    destruct Hadd as (rec & st' & E & Hrest).
    exists rec, st'. split; [|exact Hrest].
    destruct Hedit as [-> | ->]; cbn [Str.isEmpty]; rewrite (bind_run _ _ _ _ _ E); reflexivity.
  - intros Hv id -> Hid Hnn Hex. rewrite Hv.
    destruct id as [|a id']; [congruence|]. cbn [Str.isEmpty].
    assert (E : updateRecord h storageAccepts (VStr (String a id')) (form_data toNumber f) st
                = (Normal VNull, st)).
    { unfold updateRecord. unfold bind at 1. unfold get_records at 1.
      unfold bind at 1. cbn [lift]. rewrite (findIndex_by_id_run _ _ 0 Hnn).
      rewrite first_index_existsb in Hex.
      destruct (first_index (has_id (VStr (String a id'))) (records st)); [discriminate|].
      reflexivity. }
    rewrite (bind_run _ _ _ _ _ E). reflexivity.
Qed.

(** X25: the input handler of the search box, on records whose
    description, category and date can be read and convert to a text.
    With the empty text it renders all the records, without a matcher and
    without a status.  With a text that is not empty but does not
    compile (a text of white space only included) it reports "Invalid
    regex pattern." and renders nothing.  With a text that compiles it
    renders exactly the records whose description, category or date
    matches, with the matcher (whose only flag is [i]) and the count as
    the status. *)
Theorem searchInput_outcome (text : string) (all : list value) :
  forallb (searchable h) all = true ->
  (text = "" -> searchInput h parsePattern text all = Normal (Rendered all None "")) /\
  (text <> "" ->
   compileRegex parsePattern text (Some "i") = Normal None ->
   searchInput h parsePattern text all = Normal InvalidPattern) /\
  (text <> "" -> forallb isWhiteSpace (Str.chars text) = true ->
   searchInput h parsePattern text all = Normal InvalidPattern) /\
  (forall re,
     compileRegex parsePattern text (Some "i") = Normal (Some re) ->
     Regex.flags re = flag_i /\
     searchInput h parsePattern text all =
       Normal (Rendered (List.filter (record_matches h re) all) (Some re)
                 (decimal (N.of_nat (length (List.filter (record_matches h re) all)))
                  +:+ " of " +:+ decimal (N.of_nat (length all)) +:+ " records match."))).
Proof.
  intros Hall.
  assert (Hnone : text <> "" ->
            compileRegex parsePattern text (Some "i") = Normal None ->
            searchInput h parsePattern text all = Normal InvalidPattern).
  { intros Ht E. unfold searchInput. rewrite E. cbn [filterRecords].
    destruct text; [congruence | reflexivity]. }
  split; [|split; [|split]].
  - intros ->. reflexivity.
  - exact Hnone.
  - intros Ht Hws. apply Hnone; [exact Ht|].
    unfold compileRegex. rewrite (trim_whitespace _ Hws). cbn [Str.isEmpty].
    rewrite orb_true_r. reflexivity.
  - intros re E.
    destruct (compileRegex_matcher parsePattern _ _ _ E) as (_ & _ & Hf & _).
    cbn in Hf. injection Hf as Hf.
    split; [symmetry; exact Hf|].
    unfold searchInput. rewrite E. unfold filterRecords.
    destruct (filter_with_run h all re Hall) as (kept & R' & Ef & _ & _ & Hst).
    rewrite Ef. destruct Hst as [-> ->]; [split; rewrite <- Hf; reflexivity|].
    rewrite andb_false_r. reflexivity.
Qed.

Lemma prop_union (u mo : gmap string value) k :
  prop (u ∪ mo) k = match u !! k with Some v => v | None => prop mo k end.
Proof.
  unfold prop. rewrite lookup_union. destruct (u !! k), (mo !! k); reflexivity.
Qed.

(** X26: in a collection without [null] and [undefined] elements,
    [updateRecord] with an object and a primitive identifier that some
    record has merges the update into the first record that has the
    identifier, when the merged description, amount and category
    convert.  A field that the update supplies is what [normalise] makes
    of the supplied value; a field that it does not supply keeps the
    value of the old record, when the old record is as [normalise] builds
    it (for the category: when it is not empty). *)
Theorem updateRecord_merges (id : value) (u : gmap string value) (st : store) :
  forallb not_nullish (records st) = true -> is_primitive id = true ->
  existsb (has_id id) (records st) = true ->
  exists i old,
    first_index (has_id id) (records st) = Some i /\
    records st !! i = Some old /\
    (convertible h (merged_fields (VObj u) old) = true ->
     exists rec st',
       updateRecord h storageAccepts id (VObj u) st = (Normal rec, st') /\
       records st' = <[i := rec]> (records st) /\
       (forall v d, u !! "description" = Some v ->
          ToString h (or_else v (VStr "")) = Normal d ->
          Get rec "description" = Normal (VStr (Str.trim d))) /\
       (forall v a, u !! "amount" = Some v -> ToNumber h v = Normal a ->
          Get rec "amount" = Normal (VNum (number_or_zero a))) /\
       (forall v c, u !! "category" = Some v ->
          ToString h (or_else v (VStr "Other")) = Normal c ->
          Get rec "category" = Normal (VStr (Str.trim c))) /\
       (forall v, u !! "date" = Some v -> ToBoolean v = true ->
          Get rec "date" = Normal v) /\
       (normalised old ->
          (u !! "description" = None -> Get rec "description" = Get old "description") /\
          (u !! "amount" = None -> Get rec "amount" = Get old "amount") /\
          (u !! "category" = None -> Get old "category" <> Normal (VStr "") ->
           Get rec "category" = Get old "category") /\
          (u !! "date" = None -> Get rec "date" = Get old "date"))).
Proof.
  intros Hnn _ Hex. rewrite first_index_existsb in Hex.
  destruct (first_index (has_id id) (records st)) as [i|] eqn:Ei; [|discriminate].
  destruct (first_index_Some _ _ _ Ei) as (old & Hold & Hhas & _).
  assert (Hon : not_nullish old = true) by (eapply forallb_lookup; eassumption).
  exists i, old. split; [reflexivity|]. split; [exact Hold|]. intros Hconv.
  unfold updateRecord. unfold bind at 1. unfold get_records at 1.
  unfold bind at 1. cbn [lift]. rewrite (findIndex_by_id_run id _ 0 Hnn), Ei.
  cbn [option_map Nat.add]. rewrite Hold. cbn [default from_option Datatypes.id].
  rewrite (Get_not_nullish old "createdAt" Hon), bind_lift.
  rewrite (bind_run _ _ _ _ _ (now_iso_run h _)).
  set (now := VStr (Date.toISOString (clock h (ticks st)))).
  set (mo := own_properties old).
  set (m := <["updatedAt" := now]>
            (<["createdAt" := prop (fields_of old) "createdAt"]>
            (<["id" := id]> (own_properties (VObj u) ∪ mo)))).
  set (st1 := {| records := records st; counter := counter st;
                 ticks := S (ticks st); storage := storage st |}).
  assert (Hm : convertible h m = true).
  { unfold m. rewrite !convertible_insert by discriminate. exact Hconv. }
  destruct (convertible_true h m Hm) as (d & a & c & Ed & Ea & Ec).
  destruct (normalise_object_form h m st1 d a c Ed Ea Ec)
    as (id' & dt & cr & up & st2 & E & _ & _ & _ & _ & F & _ & _ & Kdt & _).
  assert (Pother : forall k, k <> "id" -> k <> "createdAt" -> k <> "updatedAt" ->
                             prop m k = match u !! k with Some v => v | None => prop mo k end).
  { intros k N1 N2 N3. unfold m. rewrite !prop_insert_ne by congruence.
    cbn [own_properties]. apply prop_union. }
  rewrite Pother in Ed, Ea, Ec, Kdt by discriminate.
  rewrite (bind_run _ _ _ _ _ E).
  unfold bind at 1. unfold get_records at 1.
  destruct F as (R2 & S2 & _). cbn [records storage] in R2, S2. rewrite R2.
  match goal with |- context [bind (set_records ?new) ?k ?s] =>
    destruct (bind (set_records new) k s) as [c0 st'] eqn:Ew end.
  apply (write_through h storageAccepts _ _ st) in Ew; [|split; assumption].
  destruct Ew as [-> [W _]].
  eexists _, st'. split; [reflexivity|]. split; [exact W|].
  destruct (Get_record_of id' (Str.trim d) (number_or_zero a) (Str.trim c) dt cr up)
    as (_ & G2 & G3 & G4 & G5 & _).
  rewrite G2, G3, G4, G5.
  split; [intros v d' Hv Hd'; rewrite Hv in Ed; congruence|].
  split; [intros v a' Hv Ha'; rewrite Hv in Ea; congruence|].
  split; [intros v c' Hv Hc'; rewrite Hv in Ec; congruence|].
  split.
  { intros v Hv Tv. rewrite Hv in Kdt. rewrite (Kdt Tv). reflexivity. }
  intros (oid & d0 & a0 & c0 & odt & ocr & oup & Hform & Toid & Todt & Tocr & Toup).
  destruct (Get_record_of oid (Str.trim d0) (number_or_zero a0) (Str.trim c0) odt ocr oup)
    as (_ & O2 & O3 & O4 & O5 & _).
  rewrite <- Hform in O2, O3, O4, O5.
  assert (Hmo : forall k, Get old k = Normal (prop mo k)).
  { intros k. unfold mo. rewrite Hform. reflexivity. }
  rewrite Hmo in O2, O3, O4, O5.
  injection O2 as O2. injection O3 as O3. injection O4 as O4. injection O5 as O5.
  rewrite !Hmo.
  split; [|split; [|split]].
  - intros Hn. rewrite Hn, O2, ToString_or_empty in Ed. injection Ed as <-.
    rewrite O2, trim_idempotent. reflexivity.
  - intros Hn. rewrite Hn, O3 in Ea. cbn [ToNumber] in Ea. injection Ea as <-.
    rewrite O3, number_or_zero_idempotent. reflexivity.
  - intros Hn Hc. rewrite O4 in Hc |- *. rewrite Hn, O4 in Ec.
    assert (Hcat : or_else (VStr (Str.trim c0)) (VStr "Other") = VStr (Str.trim c0)).
    { unfold or_else. cbn [ToBoolean]. destruct (Str.trim c0); [congruence | reflexivity]. }
    rewrite Hcat in Ec. cbn [ToString] in Ec. injection Ec as <-.
    rewrite trim_idempotent. reflexivity.
  - intros Hn. rewrite Hn, O5 in Kdt. rewrite O5, (Kdt Todt). reflexivity.
Qed.

End Handlers.

Lemma searchInput_outcome_witness :
  (("tea" : string) = "" ->
   searchInput frozen_host literal_pattern "tea" (records one_record_store)
     = Normal (Rendered (records one_record_store) None "")) /\
  (("tea" : string) <> "" ->
   compileRegex literal_pattern "tea" (Some "i") = Normal None ->
   searchInput frozen_host literal_pattern "tea" (records one_record_store)
     = Normal InvalidPattern) /\
  (("tea" : string) <> "" -> forallb isWhiteSpace (Str.chars "tea") = true ->
   searchInput frozen_host literal_pattern "tea" (records one_record_store)
     = Normal InvalidPattern) /\
  (forall re,
     compileRegex literal_pattern "tea" (Some "i") = Normal (Some re) ->
     Regex.flags re = flag_i /\
     searchInput frozen_host literal_pattern "tea" (records one_record_store) =
       Normal (Rendered
                 (List.filter (record_matches frozen_host re) (records one_record_store))
                 (Some re)
                 (decimal (N.of_nat (length (List.filter (record_matches frozen_host re)
                                               (records one_record_store))))
                  +:+ " of " +:+ decimal (N.of_nat (length (records one_record_store)))
                  +:+ " records match."))).
Proof.
  apply (searchInput_outcome frozen_host literal_pattern "tea" (records one_record_store)).
  vm_compute. reflexivity.
Defined.

Lemma updateRecord_merges_witness :
  exists rec st',
    updateRecord ticking_host accept_all (VStr "rec_1700000000000_1")
      (VObj (<["description" := VStr " coffee "]> ∅)) one_record_store
      = (Normal rec, st') /\
    Get rec "description" = Normal (VStr "coffee") /\
    Get rec "category" = Normal (VStr "Other").
Proof.
  destruct (updateRecord_merges ticking_host accept_all (VStr "rec_1700000000000_1")
              (<["description" := VStr " coffee "]> ∅) one_record_store
              one_record_store_not_nullish eq_refl)
    as (i & old & Ei & Hold & H); [vm_compute; reflexivity|].
  assert (Hi : i = 0) by (vm_compute in Ei; congruence). subst i.
  rewrite one_record_store_records in Hold. injection Hold as <-.
  destruct H as (rec & st' & E & _ & Hd & _ & _ & _ & Hkeep); [vm_compute; reflexivity|].
  exists rec, st'. split; [exact E|]. split.
  - assert (Hu : (<["description" := VStr " coffee "]> ∅ : gmap string value)
                   !! "description" = Some (VStr " coffee ")) by (vm_compute; reflexivity).
    rewrite (Hd (VStr " coffee ") " coffee " Hu eq_refl). reflexivity.
  - destruct Hkeep as (_ & _ & Hc & _).
    + exists (VStr "rec_1700000000000_1"), "tea", zero, "Other", (VStr "2023-11-14"),
        (VStr "2023-11-14T22:13:20.000Z"), (VStr "2023-11-14T22:13:20.000Z").
      repeat split; reflexivity.
    + rewrite Hc; [|vm_compute; reflexivity|].
      * apply (proj1 (proj2 (proj2 (proj2 (Get_record_of _ _ _ _ _ _ _))))).
      * rewrite (proj1 (proj2 (proj2 (proj2 (Get_record_of _ _ _ _ _ _ _))))). discriminate.
Defined.

End HandlerFacts.

(** * The duplicate-word rule *)

Module DuplicateFacts.

Import Chars Regex Validators RegexFacts ValidatorsFacts MatcherFacts LanguageFacts.

Definition fl_i : mflags := matcher_flags flag_i.

(** The same word, compared as the back reference compares under [i]. *)
Definition same_word (w w' : list ascii) : Prop :=
  map (canonicalize true) w' = map (canonicalize true) w.

(** A word, white space and the same word again, between word
    boundaries. *)
Definition duplicated (l : list ascii) : Prop :=
  exists pre w sp w' post,
    l = pre ++ w ++ sp ++ w' ++ post /\
    w <> [] /\ forallb isWordChar w = true /\
    sp <> [] /\ forallb isWhiteSpace sp = true /\
    same_word w w' /\
    isWordCharAt (head (rev pre)) = false /\
    isWordCharAt (head post) = false.

Lemma found_in_word ch : found_in fl_i (escape_mem CWord) ch = isWordChar ch.
Proof. destruct ch as [[] [] [] [] [] [] [] []]; vm_compute; reflexivity. Qed.

Lemma found_in_space ch : found_in fl_i (escape_mem CSpace) ch = isWhiteSpace ch.
Proof. destruct ch as [[] [] [] [] [] [] [] []]; vm_compute; reflexivity. Qed.

Lemma canonicalize_word ch : isWordChar (canonicalize true ch) = isWordChar ch.
Proof. destruct ch as [[] [] [] [] [] [] [] []]; vm_compute; reflexivity. Qed.

Lemma same_word_chars w w' :
  same_word w w' -> forallb isWordChar w = true -> forallb isWordChar w' = true.
Proof.
  unfold same_word. revert w'. induction w as [|a w IH]; intros [|b w'] H Hw;
    try discriminate H; [reflexivity|].
  cbn [map] in H. injection H as Hab H. cbn [forallb] in *.
  apply andb_true_iff in Hw as [Ha Hw].
  rewrite <- (canonicalize_word b), Hab, canonicalize_word, Ha. cbn [andb].
  apply IH; assumption.
Qed.

Lemma same_word_length w w' : same_word w w' -> length w' = length w.
Proof. intros H. apply (f_equal (@length ascii)) in H. rewrite !length_map in H. exact H. Qed.

(** *** One-character repetitions under any flags *)

Section Runs.

Variable fl : mflags.

Lemma reads_refl x : reads [] x x.
Proof. split; reflexivity. Qed.

Lemma clear_nil_captures x : captures (clear_captures [] x) = captures x.
Proof. rewrite clear_captures_nil. reflexivity. Qed.

Lemma rep_esc_inv min greedy e x y :
  matches fl (Repeat min None greedy (Esc e)) x y ->
  exists ds, reads ds x y /\ captures y = captures x /\
    forallb (found_in fl (escape_mem e)) ds = true /\ min <= length ds.
Proof.
  intros H. remember (Repeat min None greedy (Esc e)) as r eqn:Er.
  revert min Er.
  induction H as [| | | | | | | |min0 max0 g r0 x Hdone
                 |min0 max0 g r0 x y z Hmax Hr _ Hne Hrest IH| | | | | | | |];
    intros min Er; try discriminate Er.
  - injection Er as -> -> -> ->. exists []. split; [apply reads_refl|].
    split; [reflexivity|]. split; [reflexivity|].
    destruct Hdone as [-> | Hd]; [cbn; lia | discriminate Hd].
  - injection Er as -> -> -> ->.
    destruct (IH (Nat.pred min) eq_refl) as (ds & Hds & Hc & Hall & Hlen).
    apply matches_esc_inv in Hr as (ch & rest & Ha & Hf & ->).
    rewrite after_clear in Ha. cbn [groups] in *.
    exists (ch :: ds). split; [|split; [|split]].
    + change (ch :: ds) with ([ch] ++ ds). eapply reads_app; [|exact Hds].
      split; [exact Ha | reflexivity].
    + rewrite Hc. cbn [step captures]. apply clear_nil_captures.
    + cbn [forallb]. rewrite Hf, Hall. reflexivity.
    + cbn [length]. lia.
Qed.

Lemma rep_esc_intro e greedy : forall ds min x rest,
  after x = ds ++ rest ->
  forallb (found_in fl (escape_mem e)) ds = true -> min <= length ds ->
  matches fl (Repeat min None greedy (Esc e)) x
    (MState (rev ds ++ before x) rest (captures x)).
Proof.
  induction ds as [|d ds IH]; intros min x rest Ha Hall Hmin.
  - cbn in Hmin. assert (min = 0) by lia. subst min.
    cbn [rev app] in *. destruct x as [bef aft caps]. cbn in *. subst aft.
    constructor. left. reflexivity.
  - cbn [forallb] in Hall. apply andb_true_iff in Hall as [Hd Hall].
    eapply M_rep_step with (y := step d (ds ++ rest) (clear_captures (groups (Esc e)) x)).
    + discriminate.
    + constructor; [rewrite after_clear; exact Ha | exact Hd].
    + intros _. unfold endIndex. cbn. lia.
    + cbn [option_map].
      replace (MState (rev (d :: ds) ++ before x) rest (captures x))
        with (MState (rev ds ++ before (step d (ds ++ rest) (clear_captures [] x))) rest
                (captures (step d (ds ++ rest) (clear_captures [] x)))).
      * apply IH; [reflexivity | exact Hall | cbn in Hmin; lia].
      * cbn [step before captures groups]. rewrite clear_captures_nil.
        cbn [rev]. rewrite <- app_assoc. reflexivity.
Qed.

Lemma match_captured_inv s : forall x y,
  match_captured fl s x = Some y ->
  exists w', reads w' x y /\ captures y = captures x /\
    map (canonicalize (ignoreCase fl)) w' = map (canonicalize (ignoreCase fl)) s.
Proof.
  induction s as [|a s IH]; intros x y H; cbn [match_captured] in H.
  - injection H as <-. exists []. split; [apply reads_refl | auto].
  - destruct (after x) as [|ch rest] eqn:Ha; [discriminate|].
    destruct (code (canonicalize (ignoreCase fl) a) =?
              code (canonicalize (ignoreCase fl) ch))%N eqn:Ec; [|discriminate].
    apply code_inj in Ec. apply IH in H as (w' & R & Hc & Hm).
    exists (ch :: w'). split; [|split].
    + change (ch :: w') with ([ch] ++ w'). eapply reads_app; [|exact R].
      split; [exact Ha | reflexivity].
    + rewrite Hc. reflexivity.
    + cbn [map]. rewrite Hm, Ec. reflexivity.
Qed.

Lemma match_captured_intro s : forall w' x rest,
  map (canonicalize (ignoreCase fl)) w' = map (canonicalize (ignoreCase fl)) s ->
  after x = w' ++ rest ->
  match_captured fl s x = Some (MState (rev w' ++ before x) rest (captures x)).
Proof.
  induction s as [|a s IH]; intros [|b w'] x rest Hm Ha; try discriminate Hm.
  - cbn in *. destruct x as [bef aft caps]. cbn in *. subst aft. reflexivity.
  - cbn [map] in Hm. injection Hm as Hab Hm. cbn [match_captured]. rewrite Ha.
    cbn [app]. rewrite Hab, N.eqb_refl.
    rewrite (IH w' (MState (b :: before x) (w' ++ rest) (captures x)) rest Hm eq_refl).
    cbn [before captures rev]. rewrite <- app_assoc. reflexivity.
Qed.

Lemma matches_boundary_inv negative x y :
  matches fl (WordBoundary negative) x y ->
  y = x /\ xorb (isWordCharAt (head (before x))) (isWordCharAt (head (after x)))
           = negb negative.
Proof. intros H. inversion H; subst. auto. Qed.

Lemma matches_backref_inv n x y :
  matches fl (Backref n) x y ->
  (lookup_capture n (captures x) = None /\ y = x) \/
  exists s, lookup_capture n (captures x) = Some s /\ match_captured fl s x = Some y.
Proof. intros H. inversion H; subst; eauto. Qed.

(** The loop of [scan]: a match is found from some position on. *)
Lemma scan_found r : forall aft bef i y,
  scan fl r bef aft = Some (i, y) ->
  exists p q, aft = p ++ q /\ matcher fl r (MState (rev p ++ bef) q []) Some = Some y.
Proof.
  induction aft as [|a aft IH]; intros bef i y H; cbn [scan] in H.
  - destruct (matcher fl r (MState bef [] []) Some) as [z|] eqn:E; [|discriminate].
    injection H as _ <-. exists [], []. auto.
  - destruct (matcher fl r (MState bef (a :: aft) []) Some) as [z|] eqn:E.
    + injection H as _ <-. exists [], (a :: aft). auto.
    + apply IH in H as (p & q & -> & H). exists (a :: p), q. split; [reflexivity|].
      cbn [rev]. rewrite <- app_assoc. exact H.
Qed.

Lemma scan_finds r : forall p bef q,
  matcher fl r (MState (rev p ++ bef) q []) Some <> None ->
  scan fl r bef (p ++ q) <> None.
Proof.
  induction p as [|a p IH]; intros bef q H.
  - cbn [rev app] in *. destruct q as [|b q]; cbn [scan];
      destruct (matcher fl r _ Some); congruence.
  - cbn [app scan]. destruct (matcher fl r (MState bef (a :: p ++ q) []) Some);
      [discriminate|].
    apply IH. cbn [rev] in H. rewrite <- app_assoc in H. exact H.
Qed.

End Runs.

(** *** The duplicate-word rule *)

Definition dup_re : regex :=
  seqs [ WordBoundary false; Group 1 (Plus (Esc CWord)); Plus (Esc CSpace);
         Backref 1; WordBoundary false ].

Lemma validate_duplicate_run s :
  validate "duplicateWord" s = is_some (scan fl_i dup_re [] (Str.chars s)).
Proof.
  unfold validate. change (patterns "duplicateWord") with (Some re_duplicateWord).
  unfold test, RegExpBuiltinExec, re_duplicateWord.
  cbn [flags mkRegExp flag_i global sticky orb source lastIndex Nat.ltb Nat.leb].
  change (rev (firstn 0 (Str.chars s))) with (@nil ascii).
  change (skipn 0 (Str.chars s)) with (Str.chars s).
  fold fl_i. fold dup_re.
  destruct (scan fl_i dup_re [] (Str.chars s)) as [[i y]|]; reflexivity.
Qed.

Lemma head_rev_last (w : list ascii) b :
  w <> [] -> forallb isWordChar w = true -> isWordCharAt (head (rev w ++ b)) = true.
Proof.
  intros Hne Hw. destruct w as [|c w] using rev_ind; [congruence|].
  rewrite rev_app_distr. cbn [rev app head isWordCharAt].
  rewrite forallb_app in Hw. apply andb_true_iff in Hw as [_ Hw].
  cbn in Hw. rewrite andb_true_r in Hw. exact Hw.
Qed.

Lemma head_word (w : list ascii) rest :
  w <> [] -> forallb isWordChar w = true -> isWordCharAt (head (w ++ rest)) = true.
Proof.
  destruct w as [|c w]; [congruence|]. intros _ Hw. cbn in *.
  apply andb_true_iff in Hw as [Hc _]. exact Hc.
Qed.

Lemma firstn_read (ds rest bef : list ascii) :
  firstn (length (rev ds ++ bef) - length bef) (ds ++ rest) = ds.
Proof.
  rewrite length_app, length_rev.
  replace (length ds + length bef - length bef) with (length ds) by lia.
  rewrite firstn_app, Nat.sub_diag, firstn_all, firstn_O, app_nil_r. reflexivity.
Qed.

Lemma nonempty_length (w : list ascii) : 1 <= length w <-> w <> [].
Proof. destruct w; cbn; split; intros H; try lia; congruence. Qed.

Lemma dup_sound x y :
  captures x = [] -> matches fl_i dup_re x y ->
  exists w sp w' post,
    after x = w ++ sp ++ w' ++ post /\
    w <> [] /\ forallb isWordChar w = true /\
    sp <> [] /\ forallb isWhiteSpace sp = true /\
    same_word w w' /\
    isWordCharAt (head (before x)) = false /\
    isWordCharAt (head post) = false.
Proof.
  intros Hcaps H. unfold dup_re in H. cbn [seqs fold_right] in H.
  apply matches_seq_inv in H as (x1 & H1 & H).
  apply matches_boundary_inv in H1 as [-> B1].
  apply matches_seq_inv in H as (x2 & Hg & H).
  apply matches_group_inv in Hg as (y2 & Hg & ->).
  apply rep_esc_inv in Hg as (w & [Rw1 Rw2] & Cw & Hw & Lw).
  apply matches_seq_inv in H as (x3 & Hs & H).
  apply rep_esc_inv in Hs as (sp & [Rs1 Rs2] & Cs & Hsp & Ls).
  apply matches_seq_inv in H as (x4 & Hb & H).
  apply matches_seq_inv in H as (x5 & Hwb & He).
  apply matches_boundary_inv in Hwb as [-> B2].
  cbn [set_capture after before captures] in *.
  unfold endIndex in *. rewrite Rw2, Rw1, firstn_read in *.
  rewrite Cw, Hcaps in Cs. cbn [List.filter] in Cs.
  apply matches_backref_inv in Hb as [[Hl _]|(s & Hl & Hm)];
    rewrite Cs in Hl; cbn [lookup_capture Nat.eqb] in Hl; [discriminate|].
  injection Hl as <-.
  apply match_captured_inv in Hm as (w' & [Rb1 Rb2] & _ & Hsame).
  change (ignoreCase fl_i) with true in Hsame.
  assert (Hw' : forallb isWordChar w = true).
  { rewrite <- Hw. apply forallb_pointwise. intros c. symmetry. apply found_in_word. }
  assert (Hsp' : forallb isWhiteSpace sp = true).
  { rewrite <- Hsp. apply forallb_pointwise. intros c. symmetry. apply found_in_space. }
  apply nonempty_length in Lw, Ls.
  assert (Hne' : w' <> []).
  { apply nonempty_length. rewrite (same_word_length w w' Hsame).
    apply nonempty_length. exact Lw. }
  exists w, sp, w', (after x4).
  split; [rewrite Rs1, Rb1; reflexivity|].
  split; [exact Lw|]. split; [exact Hw'|]. split; [exact Ls|]. split; [exact Hsp'|].
  split; [exact Hsame|]. split.
  - rewrite (head_word w _ Lw Hw') in B1. cbn [negb] in B1.
    destruct (isWordCharAt (head (before x))); [discriminate B1 | reflexivity].
  - rewrite Rb2 in B2.
    rewrite (head_rev_last w' _ Hne' (same_word_chars w w' Hsame Hw')) in B2.
    cbn [negb] in B2. destruct (isWordCharAt (head (after x4))); [discriminate B2 | reflexivity].
Qed.

Lemma dup_complete pre w sp w' post :
  w <> [] -> forallb isWordChar w = true ->
  sp <> [] -> forallb isWhiteSpace sp = true ->
  same_word w w' ->
  isWordCharAt (head (rev pre)) = false ->
  isWordCharAt (head post) = false ->
  exists y, matches fl_i dup_re (MState (rev pre) (w ++ sp ++ w' ++ post) []) y.
Proof.
  intros Lw Hw Ls Hsp Hsame B1 B2.
  assert (Hne' : w' <> []).
  { apply nonempty_length. rewrite (same_word_length w w' Hsame).
    apply nonempty_length. exact Lw. }
  set (x := MState (rev pre) (w ++ sp ++ w' ++ post) []).
  set (y2 := MState (rev w ++ rev pre) (sp ++ w' ++ post) []).
  set (x2 := MState (rev w ++ rev pre) (sp ++ w' ++ post) [(1, w)]).
  set (x3 := MState (rev sp ++ rev w ++ rev pre) (w' ++ post) [(1, w)]).
  set (x4 := MState (rev w' ++ rev sp ++ rev w ++ rev pre) post [(1, w)]).
  exists x4. unfold dup_re. cbn [seqs fold_right].
  apply M_seq with (y := x).
  { constructor. cbn [before after x negb]. rewrite B1, (head_word w _ Lw Hw). reflexivity. }
  apply M_seq with (y := x2).
  { assert (Hg : matches fl_i (Plus (Esc CWord)) x y2).
    { apply (rep_esc_intro fl_i CWord true w 1 x (sp ++ w' ++ post)); [reflexivity| |].
      - rewrite <- Hw. apply forallb_pointwise. intros c. apply found_in_word.
      - apply nonempty_length. exact Lw. }
    apply M_group with (n := 1) in Hg.
    replace x2 with (set_capture 1 (firstn (endIndex y2 - endIndex x) (after x)) y2);
      [exact Hg|].
    unfold set_capture, endIndex, x2, y2, x. cbn [before after captures List.filter].
    rewrite firstn_read. reflexivity. }
  apply M_seq with (y := x3).
  { apply (rep_esc_intro fl_i CSpace true sp 1 x2 (w' ++ post)); [reflexivity| |].
    - rewrite <- Hsp. apply forallb_pointwise. intros c. apply found_in_space.
    - apply nonempty_length. exact Ls. }
  apply M_seq with (y := x4).
  { apply M_backref with (s := w); [reflexivity|].
    apply (match_captured_intro fl_i w w' x3 post); [exact Hsame | reflexivity]. }
  apply M_seq with (y := x4); [|constructor].
  constructor. cbn [before after x4 negb].
  rewrite (head_rev_last w' _ Hne' (same_word_chars w w' Hsame Hw)), B2. reflexivity.
Qed.

Lemma validate_duplicate_iff s :
  validate "duplicateWord" s = true <-> duplicated (Str.chars s).
Proof.
  rewrite validate_duplicate_run. split.
  - destruct (scan fl_i dup_re [] (Str.chars s)) as [[i y]|] eqn:E; [|discriminate].
    intros _. apply scan_found in E as (p & q & Hpq & E).
    apply matcher_sound in E as (y' & Hy & _). rewrite app_nil_r in Hy.
    apply dup_sound in Hy; [|reflexivity].
    destruct Hy as (w & sp & w' & post & Ha & Hrest). cbn [after before] in *.
    exists p, w, sp, w', post. split; [rewrite Hpq, Ha; reflexivity | exact Hrest].
  - intros (pre & w & sp & w' & post & -> & Lw & Hw & Ls & Hsp & Hsame & B1 & B2).
    destruct (dup_complete pre w sp w' post Lw Hw Ls Hsp Hsame B1 B2) as (y & Hy).
    assert (Hscan : scan fl_i dup_re [] (pre ++ w ++ sp ++ w' ++ post) <> None).
    { apply scan_finds. rewrite app_nil_r.
      apply (matcher_complete _ _ _ _ Hy). discriminate. }
    destruct (scan fl_i dup_re [] (pre ++ w ++ sp ++ w' ++ post)); [reflexivity | congruence].
Qed.

(** X27: the duplicate-word rule flags exactly the texts that hold a word
    (letters, digits, underscores), then white space, then the same word
    again compared without regard to case, the first occurrence starting
    and the second ending at a word boundary. *)
Theorem validate_duplicateWord_shape (s : string) :
  validate "duplicateWord" s = true <-> duplicated (Str.chars s).
Proof. apply validate_duplicate_iff. Qed.

End DuplicateFacts.

(** * The forms that pass validation *)

Module FormFacts.

Import Chars Regex Validators RegexFacts ValidatorsFacts PatternFacts ShapeFacts
       DuplicateFacts.

(** X28: the forms that [validateForm] accepts, in closed form: the
    description is not empty, starts and ends with a character that is
    not white space and holds no line terminator after the first; the
    amount is a decimal numeral without sign or leading zero, with at
    most two fraction digits and some digit that is not 0; the category
    is made of words of letters with single separators; the date has the
    form YYYY-MM-DD with a month from 01 to 12 and a day from 01 to 31;
    and the description holds no duplicated word. *)
Theorem validateForm_accepts_exactly (f : form) :
  validateForm f = None <->
  description_shape (Str.chars (desc f)) = true /\
  amount_shape (Str.chars (amount f)) /\
  existsb is19 (Str.chars (amount f)) = true /\
  category_shape (Str.chars (category f)) = true /\
  date_shape (Str.chars (date f)) = true /\
  ~ duplicated (Str.chars (desc f)).
Proof.
  unfold validateForm.
  rewrite validate_description_eq, validate_category_eq, validate_date_eq.
  split.
  - destruct (description_shape _); [|discriminate]. cbn [negb].
    destruct (validate "amount" (amount f)) eqn:Ea; [|discriminate]. cbn [negb].
    apply validate_amount_iff in Ea. rewrite (parseFloat_amount _ Ea).
    unfold no_nonzero_digit.
    destruct (existsb is19 (Str.chars (amount f))); [|discriminate]. cbn [negb].
    destruct (category_shape _); [|discriminate]. cbn [negb].
    destruct (date_shape _); [|discriminate]. cbn [negb].
    destruct (validate "duplicateWord" (desc f)) eqn:Ed; [discriminate|].
    intros _. repeat split; auto.
    intros Hd. apply validate_duplicate_iff in Hd. congruence.
  - intros (-> & Ha & H19 & -> & -> & Hd). cbn [negb].
    rewrite (parseFloat_amount _ Ha). unfold no_nonzero_digit. rewrite H19.
    apply validate_amount_iff in Ha. rewrite Ha. cbn [negb].
    destruct (validate "duplicateWord" (desc f)) eqn:Ed; [|reflexivity].
    apply validate_duplicate_iff in Ed. contradiction.
Qed.

End FormFacts.
